(** * A shallow embedding of kcp's reconciliation controllers

    The development follows three Go sources:
    - the generic typed controller ([package controller]: [New], [Enqueue],
      [handleError], [processNextItem]);
    - the ClusterRole replication controller ([package replicationclusterrole]:
      [enqueueClusterRole], [enqueueClusterRoleBinding], [processNextWorkItem],
      [process]);
    - the APIBinding controller ([package apibinding]: the CRD event filter,
      [enqueueCRD], [enqueueAPIResourceSchema], [enqueueAPIExport]).

    Go code that mutates a queue, a heap of objects and the process-wide error
    sink is written in a small state monad; every call that leaves the
    controller (queue operations, reconciler methods, lookups, error reports)
    is recorded in a trace, so that statements about "what is called, in which
    order, how often" are statements about that trace. *)

From Stdlib Require Import ZArith Ascii String List Lia Bool.
From stdpp Require Import base gmap sets list strings.

Set Warnings "-register-all,-level-tolerance".

Open Scope Z_scope.
Open Scope string_scope.

(** ** Go's [error] values *)

Module Errors.

(** A non-nil Go [error].  [nil] is [None] in [option error]. *)
Inductive error : Type :=
  | ErrNotFound (msg : string)               (* an API status error with reason NotFound *)
  | ErrOther (msg : string)                  (* any other leaf error *)
  | ErrWrap (msg : string) (cause : error)   (* fmt.Errorf("...: %w", cause) *)
  | ErrAggregate (errs : list error).        (* utilerrors.NewAggregate(errs) *)

(** [errors.IsNotFound]: the reason is looked up through [%w] wrappers. *)
Fixpoint IsNotFound (e : error) : bool :=
  match e with
  | ErrNotFound _ => true
  | ErrOther _ => false
  | ErrWrap _ c => IsNotFound c
  | ErrAggregate _ => false
  end.

(** [utilerrors.NewAggregate]: [nil] for an empty slice, otherwise one error
    holding all of them. *)
Definition NewAggregate (errs : list error) : option error :=
  match errs with
  | [] => None
  | _ :: _ => Some (ErrAggregate errs)
  end.

(** [append(errs, err)] guarded by [if err != nil]. *)
Definition appendErr (errs : list error) (err : option error) : list error :=
  match err with
  | Some e => errs ++ [e]
  | None => errs
  end.

(** [carries e c]: the error [e] is [c], wraps it, or aggregates an error
    that carries it. *)
Inductive carries : error -> error -> Prop :=
  | carries_self e : carries e e
  | carries_wrap msg cause c : carries cause c -> carries (ErrWrap msg cause) c
  | carries_aggregate errs e c : In e errs -> carries e c -> carries (ErrAggregate errs) c.

End Errors.
Export Errors.

(** ** The state monad of the embedding *)

Module Monad.

(** The outcome of running a Go function from a state [W]: it returns, it
    panics (in the state reached when the panic is raised), or it never
    returns because it waits on an empty queue. *)
Inductive Res (W A : Type) : Type :=
  | Ok (a : A) (w : W)
  | Panic (msg : string) (w : W)
  | Blocked.
Arguments Ok {W A} a w.
Arguments Panic {W A} msg w.
Arguments Blocked {W A}.

Definition M (W A : Type) : Type := W -> Res W A.

Definition ret {W A} (a : A) : M W A := fun w => Ok a w.

Definition bind {W A B} (m : M W A) (k : A -> M W B) : M W B :=
  fun w =>
    match m w with
    | Ok a w' => k a w'
    | Panic msg w' => Panic msg w'
    | Blocked => Blocked
    end.

Definition panic {W A} (msg : string) : M W A := fun w => Panic msg w.
Definition get {W} : M W W := fun w => Ok w w.
Definition modify {W} (f : W -> W) : M W unit := fun w => Ok tt (f w).

(** Go's [defer f()]: [f] runs when the body returns, and also while a panic
    of the body unwinds, after which the panic goes on; a panic of [f]
    itself takes the place of the body's. *)
Definition defer {W A} (body : M W A) (f : M W unit) : M W A :=
  fun w =>
    match body w with
    | Ok a w' => bind f (fun _ => ret a) w'
    | Panic msg w' => bind f (fun _ => panic msg) w'
    | Blocked => Blocked
    end.

(** [for _, x := range xs { body x }] *)
Fixpoint forRange {W A} (xs : list A) (body : A -> M W unit) : M W unit :=
  match xs with
  | [] => ret tt
  | x :: xs' => bind (body x) (fun _ => forRange xs' body)
  end.

End Monad.
Export Monad.

Notation "'do' x <- m ; k" := (bind m (fun x => k))
  (at level 10, x pattern, m at level 100, k at level 200).
Notation "m ;; k" := (bind m (fun _ => k))
  (at level 100, k at level 200, right associativity).

(** ** The work queue *)

Module WorkQueue.

(** The calls a controller makes on its queue, as they appear in traces. *)
Inductive QueueCall : Type :=
  | QGet (key : string)             (* Get returned [key] *)
  | QAdd (key : string)
  | QAddRateLimited (key : string)
  | QForget (key : string)
  | QDone (key : string).

(** Modelled from the spec: the WorkQueue of section 4.1 (the source uses
    client-go's [workqueue.RateLimitingInterface], which is not part of the
    repository).  [queue] is the FIFO of keys ready to be handed out,
    [dirty] the keys for which an [add] is outstanding, [processing] the
    keys handed out by [get] and not yet released by [done], [failures] the
    per-key retry counter, [waiting] the rate-limited adds whose delay has
    not expired yet. *)
Record t : Type := mk {
    queue : list string;
    dirty : gset string;
    processing : gset string;
    failures : gmap string nat;
    waiting : list string;
    shuttingDown : bool
  }.

Definition empty : t :=
  {| queue := []; dirty := ∅; processing := ∅; failures := ∅;
     waiting := []; shuttingDown := false |}.

(** Modelled from the spec: [add(key)] inserts the key if not already
    queued; while the key is being processed the insertion is deferred
    until [done]; nothing is accepted after [shutDown]. *)
Definition Add (key : string) (q : t) : t :=
  if shuttingDown q then q
  else if decide (key ∈ dirty q) then q
  else
    let q' := {| queue := queue q; dirty := {[key]} ∪ dirty q;
                 processing := processing q; failures := failures q;
                 waiting := waiting q; shuttingDown := shuttingDown q |} in
    if decide (key ∈ processing q) then q'
    else {| queue := queue q ++ [key]; dirty := dirty q';
            processing := processing q'; failures := failures q';
            waiting := waiting q'; shuttingDown := shuttingDown q' |}.

Inductive GetResult : Type :=
  | GotItem (key : string) (q : t)
  | GotShutdown
  | GetBlocks.

(** Modelled from the spec: [get()] hands out the head of the queue and
    marks it "processing"; on an empty queue it blocks, or reports shutdown. *)
Definition Get (q : t) : GetResult :=
  match queue q with
  | [] => if shuttingDown q then GotShutdown else GetBlocks
  | key :: rest =>
      GotItem key {| queue := rest; dirty := dirty q ∖ {[key]};
                     processing := {[key]} ∪ processing q;
                     failures := failures q; waiting := waiting q;
                     shuttingDown := shuttingDown q |}
  end.

(** Modelled from the spec: [done(key)] releases the in-flight marker; if
    [add] was called for the key while it was processed, the key is
    re-queued immediately. *)
Definition Done (key : string) (q : t) : t :=
  let q' := {| queue := queue q; dirty := dirty q;
               processing := processing q ∖ {[key]};
               failures := failures q; waiting := waiting q;
               shuttingDown := shuttingDown q |} in
  if decide (key ∈ dirty q)
  then {| queue := queue q ++ [key]; dirty := dirty q';
          processing := processing q'; failures := failures q';
          waiting := waiting q'; shuttingDown := shuttingDown q' |}
  else q'.

(** Modelled from the spec: [numRequeues(key)] is the current retry count
    (a Go [int]). *)
Definition NumRequeues (key : string) (q : t) : Z :=
  Z.of_nat (default 0%nat (failures q !! key)).

(** Modelled from the spec: [addRateLimited(key)] counts one more failure
    of the key and inserts the key after a delay; until the delay expires
    the key sits in [waiting]. *)
Definition AddRateLimited (key : string) (q : t) : t :=
  {| queue := queue q; dirty := dirty q; processing := processing q;
     failures := <[key := S (default 0%nat (failures q !! key))]> (failures q);
     waiting := waiting q ++ [key]; shuttingDown := shuttingDown q |}.

(** The delay of the [i]-th waiting key expires: the key is added. *)
Definition expire (i : nat) (q : t) : t :=
  match waiting q !! i with
  | None => q
  | Some key =>
      Add key {| queue := queue q; dirty := dirty q; processing := processing q;
                 failures := failures q; waiting := delete i (waiting q);
                 shuttingDown := shuttingDown q |}
  end.

(** Modelled from the spec: [forget(key)] resets the failure counter. *)
Definition Forget (key : string) (q : t) : t :=
  {| queue := queue q; dirty := dirty q; processing := processing q;
     failures := delete key (failures q);
     waiting := waiting q; shuttingDown := shuttingDown q |}.

(** Modelled from the spec: [shutDown()]: no further items accepted, waiting
    [get] calls are released. *)
Definition ShutDown (q : t) : t :=
  {| queue := queue q; dirty := dirty q; processing := processing q;
     failures := failures q; waiting := waiting q; shuttingDown := true |}.

(** The effect of one recorded call on the queue ([QGet] is the effect of
    a [Get] that returned that key). *)
Definition apply (c : QueueCall) (q : t) : t :=
  match c with
  | QGet key =>
      match Get q with
      | GotItem key' q' => if decide (key' = key) then q' else q
      | _ => q
      end
  | QAdd key => Add key q
  | QAddRateLimited key => AddRateLimited key q
  | QForget key => Forget key q
  | QDone key => Done key q
  end.

End WorkQueue.

(** Heap addresses of Go objects; [None] in [option loc] is the nil pointer. *)
Definition loc : Type := positive.

(** ** Traces and the state the controllers act on *)

(** Every call that leaves a controller. *)
Inductive Call : Type :=
  | CQueue (c : WorkQueue.QueueCall)
  | CHandleError (err : error)                        (* runtime.HandleError(err) *)
  | CGetByKey (key : string)                          (* indexer.GetByKey(key) *)
  | CByIndex (indexer index key : string)             (* indexer.ByIndex(index, key) *)
  | CListerGet (lister cluster name : string)         (* lister.Cluster(cluster).Get(name) *)
  | CReconcile (cur : option loc)
  | CPostReconcile (name : string) (prev cur : option loc) (err : option error)
  | CCommit (old new : option loc)
  | CTrackerAdd (name : string).                      (* deletedCRDTracker.Add(name) *)

(** The queue of a controller, the heap holding the objects its pointers
    refer to, and the trace of calls made so far (oldest first). *)
Record World (V : Type) : Type := mkWorld {
  wq : WorkQueue.t;
  heap : gmap loc V;
  calls : list Call
}.
Arguments mkWorld {V} wq heap calls.
Arguments wq {V} w.
Arguments heap {V} w.
Arguments calls {V} w.

Section WorldOps.
Context {V : Type}.

Definition call (c : Call) : M (World V) unit :=
  modify (fun w => mkWorld (wq w) (heap w) (calls w ++ [c])).

Definition queueAdd (key : string) : M (World V) unit :=
  modify (fun w => mkWorld (WorkQueue.Add key (wq w)) (heap w)
                           (calls w ++ [CQueue (WorkQueue.QAdd key)])).

Definition queueAddRateLimited (key : string) : M (World V) unit :=
  modify (fun w => mkWorld (WorkQueue.AddRateLimited key (wq w)) (heap w)
                           (calls w ++ [CQueue (WorkQueue.QAddRateLimited key)])).

Definition queueForget (key : string) : M (World V) unit :=
  modify (fun w => mkWorld (WorkQueue.Forget key (wq w)) (heap w)
                           (calls w ++ [CQueue (WorkQueue.QForget key)])).

Definition queueDone (key : string) : M (World V) unit :=
  modify (fun w => mkWorld (WorkQueue.Done key (wq w)) (heap w)
                           (calls w ++ [CQueue (WorkQueue.QDone key)])).

Definition queueNumRequeues (key : string) : M (World V) Z :=
  fun w => Ok (WorkQueue.NumRequeues key (wq w)) w.

(** [k, quit := c.queue.Get()]: [Some k] when a key is handed out, [None]
    when the queue has been shut down; blocks on an empty queue. *)
Definition queueGet : M (World V) (option string) :=
  fun w =>
    match WorkQueue.Get (wq w) with
    | WorkQueue.GotItem key q' =>
        Ok (Some key) (mkWorld q' (heap w) (calls w ++ [CQueue (WorkQueue.QGet key)]))
    | WorkQueue.GotShutdown => Ok None w
    | WorkQueue.GetBlocks => Blocked
    end.

(** [runtime.HandleError(err)]: the process-wide error sink. *)
Definition HandleError (err : error) : M (World V) unit :=
  call (CHandleError err).

(** A generated [DeepCopy]: a new object with the contents of [*p]; the
    copy of nil is nil.  (Go has no dangling pointers; copying an address
    that holds nothing gives nil.) *)
Definition DeepCopy (p : option loc) : M (World V) (option loc) :=
  fun w =>
    match p with
    | None => Ok None w
    | Some l =>
        match heap w !! l with
        | None => Ok None w
        | Some v =>
            let l' := fresh (dom (heap w)) in
            Ok (Some l') (mkWorld (wq w) (<[l' := v]> (heap w)) (calls w))
        end
    end.

(** A collaborator that may mutate objects in place. *)
Definition onHeap {A} (f : gmap loc V -> gmap loc V * A) : M (World V) A :=
  fun w => let '(h, a) := f (heap w) in Ok a (mkWorld (wq w) h (calls w)).

(** The errors reported to the process-wide sink, in order. *)
Definition reported (tr : list Call) : list error :=
  omap (fun c => match c with CHandleError e => Some e | _ => None end) tr.

(** The queue calls of a trace, in order. *)
Definition queueCalls (tr : list Call) : list WorkQueue.QueueCall :=
  omap (fun c => match c with CQueue q => Some q | _ => None end) tr.

End WorldOps.

(** ** The generic controller ([package controller]) *)

Module Controller.

Record Options : Type := {
    Name : string;
    NumRequeues : Z;
    ResyncPeriod : Z
  }.

Section Generic.
(** [O] is instantiated with pointer types ([*APIBinding]); [V] is the
    struct pointed to, so a value of type [O] is an [option loc] and the
    zero value of [O] is [None]. *)
Context {V : Type}.

(** [fmt.Sprintf("%T", *new(O))] *)
Variable typeName : string.
(** [cache.SplitMetaNamespaceKey] *)
Variable SplitMetaNamespaceKey : string -> error + (string * string).
(** [cache.DeletionHandlingMetaNamespaceKeyFunc] on an object of type [O] *)
Variable MetaNamespaceKeyFunc : V -> error + string.

(** [type Reconciler[O Resource] interface].  The methods may mutate the
    objects they reach; they are not handed the controller's queue. *)
Record Reconciler : Type := {
    Reconcile : option loc -> gmap loc V -> gmap loc V * option error;
    PostReconcile : string -> option loc -> option loc -> option error ->
                    gmap loc V -> gmap loc V * option error
  }.

(** What [indexer.GetByKey] returns: [(item, exists, err)]. *)
Definition GetByKeyResult : Type := (option loc * bool * option error)%type.

Record SharedIndexInformer : Type := {
    GetIndexer : string -> GetByKeyResult
  }.

(** [type controller[R Reconciler[O], O Resource] struct]; the queue is
    the [wq] of the world. *)
Record controller : Type := {
    name : string;
    focusType : string;
    indexer : string -> GetByKeyResult;
    recon : Reconciler;
    numRequeues : Z;
    resyncPeriod : Z
  }.

Definition New (informer : SharedIndexInformer) (recon : Reconciler)
    (options : Options) : controller :=
  let name := Name options in
  let focusType := typeName in
  let numRequeues := 5 in
  let resyncPeriod := ResyncPeriod options in
  let name := if String.eqb name "" then focusType ++ "-controller" else name in
  let numRequeues := if (NumRequeues options =? 0)%Z then 5 else numRequeues in
  {| name := name;
     focusType := focusType;
     indexer := GetIndexer informer;
     recon := recon;
     numRequeues := numRequeues;
     resyncPeriod := resyncPeriod |}.

Definition Enqueue (c : controller) (obj : option loc) (suffix : string)
    : M (World V) unit :=
  do w <- get;
  match obj with
  | None => panic "nil pointer dereference"
  | Some l =>
      match heap w !! l with
      | None => panic "invalid memory address"
      | Some v =>
          match MetaNamespaceKeyFunc v with
          | inl err => HandleError err
          | inr key => queueAdd key
          end
      end
  end.

(** The handlers [New] registers with the informer. *)
Definition AddFunc (c : controller) (obj : option loc) := Enqueue c obj "".
Definition UpdateFunc (c : controller) (oldObj newObj : option loc) := Enqueue c newObj "".
Definition DeleteFunc (c : controller) (obj : option loc) := Enqueue c obj "".

Definition handleError (c : controller) (err : error) (key : string)
    : M (World V) unit :=
  do n <- queueNumRequeues key;
  if (n <? numRequeues c)%Z then
    queueAddRateLimited key
  else
    (queueForget key ;;
     HandleError err).

(** The body of [processNextItem] after [Get] returned [key] and before
    the deferred [Done]. *)
Definition processKey (c : controller) (key : string) : M (World V) bool :=
  match SplitMetaNamespaceKey key with
  | inl err => ret true
  | inr (_, clusterAwareName) =>
      call (CGetByKey key) ;;
      let '(obj, _, err) := indexer c key in
      match err with
      | Some e => handleError c e key ;; ret true
      | None =>
          do (prev, cur) <-
             match obj with
             | Some l => (do cur <- DeepCopy (Some l); ret (Some l, cur))
             | None => ret (None, None)
             end;
          call (CReconcile cur) ;;
          do err <- onHeap (Reconcile (recon c) cur);
          call (CPostReconcile clusterAwareName prev cur err) ;;
          do pErr <- onHeap (PostReconcile (recon c) clusterAwareName prev cur err);
          let err := match pErr with Some p => Some p | None => err end in
          match err with
          | Some e => handleError c e key
          | None => ret tt
          end ;;
          ret true
      end
  end.

Definition processNextItem (c : controller) : M (World V) bool :=
  do k <- queueGet;
  match k with
  | None => ret false
  | Some key => defer (processKey c key) (queueDone key)
  end.

End Generic.

End Controller.

(** ** The ClusterRole replication controller ([package replicationclusterrole]) *)

Module ReplicationClusterRole.

Definition ControllerName : string := "kcp-apiexport-replication-clusterrole".

Record RoleRef : Type := {
    APIGroup : string;
    Kind : string;
    Name : string
  }.

(** The fields of [rbacv1.ClusterRoleBinding] the controller reads. *)
Record ClusterRoleBinding : Type := {
    crbCluster : string;            (* logicalcluster.From(crb) *)
    crbName : string;
    roleRef : RoleRef
  }.

(** The values the informers pass as [obj interface{}]. *)
Inductive Iface : Type :=
  | IClusterRole (p : loc)                          (* *rbacv1.ClusterRole *)
  | IClusterRoleBinding (crb : option ClusterRoleBinding)
      (* *rbacv1.ClusterRoleBinding; [None] is the nil pointer of that type *)
  | ITombstone (key : string) (obj : Iface)         (* cache.DeletedFinalStateUnknown *)
  | IOther (typ : string).

Section Replication.
(** [V] is [rbacv1.ClusterRole]. *)
Context {V : Type}.

(** [rbacv1.GroupName] *)
Variable GroupName : string.
(** [kcpcache.MetaClusterNamespaceKeyFunc] *)
Variable MetaClusterNamespaceKeyFunc : Iface -> gmap loc V -> error + string.
(** [kcpcache.SplitMetaClusterNamespaceKey]: (cluster, namespace, name) *)
Variable SplitMetaClusterNamespaceKey : string -> error + (string * string * string).

(** [type controller struct]; the queue is the [wq] of the world.
    [reconcile] is the method [c.reconcile] of the package, [commit] the
    struct field of that name. *)
Record controller : Type := {
    clusterRoleLister : string -> string -> error + loc;
    reconcile : option loc -> gmap loc V -> gmap loc V * (bool * option error);
    commit : option loc -> option loc -> gmap loc V -> gmap loc V * option error
  }.

(** [kcpcache.DeletionHandlingMetaClusterNamespaceKeyFunc] *)
Definition DeletionHandlingMetaClusterNamespaceKeyFunc (obj : Iface)
    (h : gmap loc V) : error + string :=
  match obj with
  | ITombstone key _ => inr key
  | _ => MetaClusterNamespaceKeyFunc obj h
  end.

Definition enqueueClusterRole (c : controller) (obj : Iface) : M (World V) unit :=
  do w <- get;
  match DeletionHandlingMetaClusterNamespaceKeyFunc obj (heap w) with
  | inl err => HandleError err
  | inr key => queueAdd key
  end.

Definition enqueueClusterRoleBinding (c : controller) (obj : Iface)
    : M (World V) unit :=
  let obj := match obj with ITombstone _ o => o | _ => obj end in
  match obj with
  | IClusterRoleBinding None =>
      (* the type assertion succeeds on a nil [*ClusterRoleBinding]; reading
         [crb.RoleRef] dereferences it *)
      panic "invalid memory address or nil pointer dereference"
  | IClusterRoleBinding (Some crb) =>
      if negb (String.eqb (Kind (roleRef crb)) "ClusterRole")
         || negb (String.eqb (APIGroup (roleRef crb)) GroupName)
      then ret tt
      else
        call (CListerGet "clusterRole" (crbCluster crb) (Name (roleRef crb))) ;;
        match clusterRoleLister c (crbCluster crb) (Name (roleRef crb)) with
        | inl err => HandleError err
        | inr cr => enqueueClusterRole c (IClusterRole cr)
        end
  | _ => HandleError (ErrOther "unexpected type")
  end.

Definition process (c : controller) (key : string)
    : M (World V) (bool * option error) :=
  match SplitMetaClusterNamespaceKey key with
  | inl err => HandleError err ;; ret (false, None)
  | inr (parent, _, name) =>
      call (CListerGet "clusterRole" parent name) ;;
      match clusterRoleLister c parent name with
      | inl err =>
          if IsNotFound err then ret (false, None)
          else ret (false, Some err)
      | inr p =>
          let old := Some p in
          do cr <- DeepCopy old;
          call (CReconcile cr) ;;
          do (requeue, err) <- onHeap (reconcile c cr);
          let errs := appendErr [] err in
          call (CCommit old cr) ;;
          do cerr <- onHeap (commit c old cr);
          let errs := appendErr errs cerr in
          ret (requeue, NewAggregate errs)
      end
  end.

Definition processNextWorkItem (c : controller) : M (World V) bool :=
  do k <- queueGet;
  match k with
  | None => ret false
  | Some key =>
      defer
        (do (requeue, err) <- process c key;
         match err with
         | Some e =>
             HandleError (ErrWrap "controller failed to sync" e) ;;
             queueAddRateLimited key ;;
             ret true
         | None =>
             if (requeue : bool) then (queueAdd key ;; ret true)
             else (queueForget key ;; ret true)
         end)
        (queueDone key)
  end.

End Replication.

End ReplicationClusterRole.

(** ** The APIBinding controller ([package apibinding]) *)

Module APIBinding.

Definition controllerName : string := "kcp-apibinding".
Definition ShadowWorkspaceName : string := "system:bound-crds".

Record ObjectMeta : Type := {
    cluster : string;                     (* logicalcluster.From(obj) *)
    namespace : string;
    name : string;
    annotations : gmap string string
  }.

(** The objects of the caches; the constructor is the dynamic type of a
    pointer to the object. *)
Inductive Object : Type :=
  | CustomResourceDefinition (m : ObjectMeta)
  | APIResourceSchema (m : ObjectMeta)
  | APIExport (m : ObjectMeta)
  | APIBinding (m : ObjectMeta)
  | OtherObject (typ : string) (m : ObjectMeta).

(** The values the informers pass as [obj interface{}]. *)
Inductive Iface : Type :=
  | IPtr (p : loc)
  | ITombstone (key : string) (obj : option loc).   (* cache.DeletedFinalStateUnknown *)

Inductive Event : Type :=
  | EvAdd (obj : Iface)
  | EvUpdate (oldObj newObj : Iface)
  | EvDelete (obj : Iface).

(** Go's [m[k]] on a map of strings: the empty string for a missing key. *)
Definition annotation (m : ObjectMeta) (k : string) : string :=
  default "" (annotations m !! k).

Definition deref (h : gmap loc Object) (obj : Iface) : option Object :=
  match obj with
  | IPtr p => h !! p
  | ITombstone _ _ => None
  end.

Section APIBindingController.

(** [apisv1alpha1.AnnotationSchemaClusterKey], [AnnotationSchemaNameKey] *)
Variable AnnotationSchemaClusterKey AnnotationSchemaNameKey : string.
(** the index names of the package *)
Variable indexAPIBindingsByWorkspaceExport indexAPIExportsByAPIResourceSchema : string.
(** [clusters.ToClusterAwareKey] *)
Variable ToClusterAwareKey : string -> string -> string.
(** [cache.MetaNamespaceKeyFunc] *)
Variable MetaNamespaceKeyFunc : Object -> error + string.

(** [type reconciler struct]: the indexers ([ByIndex]), the listers the
    closure [getAPIResourceSchema] captures ([Get]) and the generic
    controller. *)
Record reconciler : Type := {
    apiBindingsIndexer : string -> string -> error + list loc;
    apiExportsIndexer : string -> string -> error + list loc;
    temporaryRemoteShardApiExportsIndexer : string -> string -> error + list loc;
    apiResourceSchemaLister : string -> error + loc;
    temporaryRemoteShardApiResourceSchemaLister : string -> error + loc;
    ctl : @Controller.controller Object
  }.

Definition W : Type := World Object.

(** [cache.DeletionHandlingMetaNamespaceKeyFunc] *)
Definition DeletionHandlingMetaNamespaceKeyFunc (obj : Iface)
    (h : gmap loc Object) : error + string :=
  match obj with
  | ITombstone key _ => inr key
  | IPtr p =>
      match h !! p with
      | Some o => MetaNamespaceKeyFunc o
      | None => inl (ErrOther "object has no meta")
      end
  end.

(** The closure [getAPIResourceSchema] built by [NewController]. *)
Definition getAPIResourceSchema (c : reconciler) (clusterName name : string)
    : M W (error + loc) :=
  call (CListerGet "apiResourceSchema" clusterName name) ;;
  match apiResourceSchemaLister c (ToClusterAwareKey clusterName name) with
  | inl err =>
      if IsNotFound err then
        call (CListerGet "temporaryRemoteShardApiResourceSchema" clusterName name) ;;
        ret (temporaryRemoteShardApiResourceSchemaLister c
               (ToClusterAwareKey clusterName name))
      else ret (inl err)
  | inr s => ret (inr s)
  end.

(** The type assertions to pointers to APIExport, APIBinding and
    APIResourceSchema; without the comma-ok form a failed one panics. *)
Definition isAPIExport (o : option Object) : bool :=
  match o with Some (APIExport _) => true | _ => false end.
Definition isAPIBinding (o : option Object) : bool :=
  match o with Some (APIBinding _) => true | _ => false end.
Definition isAPIResourceSchema (o : option Object) : bool :=
  match o with Some (APIResourceSchema _) => true | _ => false end.

Definition enqueueAPIExport (c : reconciler) (obj : Iface) (logSuffix : string)
    : M W unit :=
  do w <- get;
  match DeletionHandlingMetaNamespaceKeyFunc obj (heap w) with
  | inl err => HandleError err
  | inr key =>
      call (CByIndex "apiBindings" indexAPIBindingsByWorkspaceExport key) ;;
      match apiBindingsIndexer c indexAPIBindingsByWorkspaceExport key with
      | inl err => HandleError err
      | inr bindingsForExport =>
          forRange bindingsForExport (fun binding =>
            do w <- get;
            if negb (isAPIBinding (heap w !! binding)) then
              panic "APIBinding controller expected *APIBinding from enqueueAPIExport"
            else if negb (isAPIExport (deref (heap w) obj)) then
              panic "interface conversion: not *v1alpha1.APIExport"
            else
              Controller.Enqueue MetaNamespaceKeyFunc (ctl c) (Some binding)
                (" because of APIExport" ++ logSuffix))
      end
  end.

Definition enqueueAPIResourceSchema (c : reconciler) (obj : Iface)
    (logSuffix : string) : M W unit :=
  do w <- get;
  match DeletionHandlingMetaNamespaceKeyFunc obj (heap w) with
  | inl err => HandleError err
  | inr key =>
      call (CByIndex "apiExports" indexAPIExportsByAPIResourceSchema key) ;;
      match apiExportsIndexer c indexAPIExportsByAPIResourceSchema key with
      | inl err => HandleError err
      | inr apiExports =>
          do apiExports <-
             match apiExports with
             | [] =>
                 call (CByIndex "temporaryRemoteShardApiExports"
                         indexAPIExportsByAPIResourceSchema key) ;;
                 ret (temporaryRemoteShardApiExportsIndexer c
                        indexAPIExportsByAPIResourceSchema key)
             | _ :: _ => ret (inr apiExports)
             end;
          match apiExports with
          | inl err => HandleError err
          | inr apiExports =>
              forRange apiExports (fun export =>
                do w <- get;
                if negb (isAPIResourceSchema (deref (heap w) obj)) then
                  panic "interface conversion: not *v1alpha1.APIResourceSchema"
                else
                  enqueueAPIExport c (IPtr export)
                    (" because of APIResourceSchema" ++ logSuffix))
          end
      end
  end.

Definition enqueueCRD (c : reconciler) (obj : Iface) : M W unit :=
  do w <- get;
  match deref (heap w) obj with
  | Some (CustomResourceDefinition crd) =>
      if String.eqb (annotation crd AnnotationSchemaClusterKey) ""
         || String.eqb (annotation crd AnnotationSchemaNameKey) ""
      then ret tt
      else
        let clusterName := annotation crd AnnotationSchemaClusterKey in
        do r <- getAPIResourceSchema c clusterName
                  (annotation crd AnnotationSchemaNameKey);
        match r with
        | inl err => HandleError err
        | inr apiResourceSchema =>
            enqueueAPIResourceSchema c (IPtr apiResourceSchema) " because of CRD"
        end
  | _ => HandleError (ErrOther "obj is supposed to be a CustomResourceDefinition")
  end.

(** The [FilterFunc] of the CRD informer's handler. *)
Definition FilterFunc (h : gmap loc Object) (obj : Iface) : bool :=
  match deref h obj with
  | Some (CustomResourceDefinition crd) => String.eqb (cluster crd) ShadowWorkspaceName
  | _ => false
  end.

(** The [Handler] of the CRD informer: [AddFunc], [UpdateFunc], [DeleteFunc]. *)
Definition crdAddFunc (c : reconciler) (obj : Iface) : M W unit :=
  enqueueCRD c obj.

Definition crdUpdateFunc (c : reconciler) (oldObj obj : Iface) : M W unit :=
  enqueueCRD c obj.

Definition metaOf (o : Object) : ObjectMeta :=
  match o with
  | CustomResourceDefinition m | APIResourceSchema m | APIExport m
  | APIBinding m | OtherObject _ m => m
  end.

Definition crdDeleteFunc (c : reconciler) (obj : Iface) : M W unit :=
  do w <- get;
  match deref (heap w) obj with
  | None => HandleError (ErrOther "object does not implement the Object interfaces")
  | Some o =>
      call (CTrackerAdd (name (metaOf o))) ;;
      enqueueCRD c obj
  end.

(** [cache.FilteringResourceEventHandler]: an add or a delete is passed on
    when the object passes the filter; an update is passed on as an
    update, an add or a delete according to which of the two versions
    pass. *)
Definition crdEvent (c : reconciler) (ev : Event) : M W unit :=
  do w <- get;
  match ev with
  | EvAdd obj =>
      if FilterFunc (heap w) obj then crdAddFunc c obj else ret tt
  | EvUpdate oldObj newObj =>
      let newer := FilterFunc (heap w) newObj in
      let older := FilterFunc (heap w) oldObj in
      if newer && older then crdUpdateFunc c oldObj newObj
      else if newer && negb older then crdAddFunc c newObj
      else if negb newer && older then crdDeleteFunc c oldObj
      else ret tt
  | EvDelete obj =>
      if FilterFunc (heap w) obj then crdDeleteFunc c obj else ret tt
  end.

End APIBindingController.

End APIBinding.

(** ** Worker goroutines sharing one queue *)

Module Workers.
Import WorkQueue.

(** Where a worker goroutine of [Start] stands in its loop: waiting in
    [Get]; past [Get], running the lookup and the reconciler for [key];
    past the retry decision, with the deferred [Done] still to run. *)
Inductive WorkerState : Type :=
  | Idle
  | Reconciling (key : string)
  | Finishing (key : string).

Record System : Type := {
    sq : WorkQueue.t;
    workers : list WorkerState
  }.

(** [Start(ctx, numWorkers)]: [numWorkers] goroutines on one queue. *)
Definition Start (q : WorkQueue.t) (numWorkers : nat) : System :=
  {| sq := q; workers := replicate numWorkers Idle |}.

(** Worker [i] has dequeued [key] and has not called [Done] yet. *)
Definition holds (s : System) (i : nat) (key : string) : Prop :=
  workers s !! i = Some (Reconciling key) ∨ workers s !! i = Some (Finishing key).

(** One atomic step of the system.  Queue operations are atomic (the queue
    is guarded by a lock); between them goroutines interleave freely.  The
    queue calls a worker makes between [Get] and [Done] are those of
    [processNextItem] and [processNextWorkItem]: at most one of
    [AddRateLimited], [Forget], [Add], for the key it dequeued. *)
Inductive step : System -> System -> Prop :=
  | step_enqueue s key :                              (* an informer handler enqueues *)
      step s {| sq := Add key (sq s); workers := workers s |}
  | step_expire s i :                                 (* a rate-limit delay expires *)
      step s {| sq := expire i (sq s); workers := workers s |}
  | step_shutdown s :
      step s {| sq := ShutDown (sq s); workers := workers s |}
  | step_get s i key q' :
      workers s !! i = Some Idle ->
      Get (sq s) = GotItem key q' ->
      step s {| sq := q'; workers := <[i := Reconciling key]> (workers s) |}
  | step_retry s i key :
      workers s !! i = Some (Reconciling key) ->
      step s {| sq := AddRateLimited key (sq s);
                workers := <[i := Finishing key]> (workers s) |}
  | step_forget s i key :
      workers s !! i = Some (Reconciling key) ->
      step s {| sq := Forget key (sq s);
                workers := <[i := Finishing key]> (workers s) |}
  | step_requeue s i key :
      workers s !! i = Some (Reconciling key) ->
      step s {| sq := Add key (sq s);
                workers := <[i := Finishing key]> (workers s) |}
  | step_quiet s i key :
      workers s !! i = Some (Reconciling key) ->
      step s {| sq := sq s; workers := <[i := Finishing key]> (workers s) |}
  | step_done s i key :
      workers s !! i = Some (Finishing key) ->
      step s {| sq := Done key (sq s); workers := <[i := Idle]> (workers s) |}.

(** The queue calls a worker may make between [Get] and [Done]. *)
Definition betweenGetAndDone (key : string) (ops : list QueueCall) : Prop :=
  ops = [] ∨ ops = [QAddRateLimited key] ∨ ops = [QForget key] ∨ ops = [QAdd key].

(** The queue is consistent: no key is queued twice, queued keys are marked
    dirty, and no queued key is being processed. *)
Record queue_ok (q : WorkQueue.t) : Prop := {
    queue_nodup : NoDup (queue q);
    queue_dirty : ∀ key, key ∈ queue q -> key ∈ dirty q;
    queue_not_processing : ∀ key, key ∈ queue q -> key ∉ processing q
  }.

(** The invariant of the system. *)
Record inv (s : System) : Prop := {
    inv_queue : queue_ok (sq s);
    inv_processing : ∀ i key, holds s i key -> key ∈ processing (sq s);
    inv_exclusive : ∀ i j key, holds s i key -> holds s j key -> i = j
  }.

End Workers.

(** ** Notions used in the statements *)

Section Notions.
Context {V : Type}.

(** The world [w] with the calls [cs] appended to its trace. *)
Definition logged (w : World V) (cs : list Call) : World V :=
  mkWorld (wq w) (heap w) (calls w ++ cs).

(** The pair [(prev, cur)] a processing step works on and the heap in which
    the reconciler is called, for the object [obj] found in the store:
    [prev] is [obj] itself, [cur] the address of its copy. *)
Definition snapshotPair (obj : option loc) (h : gmap loc V)
    : option loc * option loc * gmap loc V :=
  match obj with
  | None => (None, None, h)
  | Some l =>
      match h !! l with
      | None => (Some l, None, h)
      | Some v => (Some l, Some (fresh (dom h)), <[fresh (dom h) := v]> h)
      end
  end.

(** A collaborator that mutates objects only through the pointer [p]. *)
Definition writesOnly {A} (f : gmap loc V -> gmap loc V * A) (p : option loc) : Prop :=
  ∀ h l, p ≠ Some l -> (f h).1 !! l = h !! l.

(** What the generic controller computes for a well-formed key whose
    lookup gave [obj]: the heap left by the two reconciler methods, the
    calls made, and the error handed to the retry policy. *)
Definition reconcileOutcome (c : @Controller.controller V) (key name : string)
    (obj : option loc) (h : gmap loc V) : gmap loc V * list Call * option error :=
  let '(prev, cur, h1) := snapshotPair obj h in
  let '(h2, rerr) := Controller.Reconcile (Controller.recon c) cur h1 in
  let '(h3, perr) := Controller.PostReconcile (Controller.recon c) name prev cur rerr h2 in
  (h3,
   [CGetByKey key; CReconcile cur; CPostReconcile name prev cur rerr],
   match perr with Some p => Some p | None => rerr end).

(** The error with which the processing of [key] ends in the generic
    controller: the error of the lookup, or that of the reconciler methods.
    (A malformed key is logged and dropped; it is not processed.) *)
Definition processingError (split : string -> error + (string * string))
    (c : @Controller.controller V) (key : string) (h : gmap loc V) : option error :=
  match split key with
  | inl _ => None
  | inr (_, name) =>
      match Controller.indexer c key with
      | (_, _, Some e) => Some e
      | (obj, _, None) => (reconcileOutcome c key name obj h).2
      end
  end.

(** The queue after the calls [ops], oldest first. *)
Definition applyAll (ops : list WorkQueue.QueueCall) (q : WorkQueue.t) : WorkQueue.t :=
  foldl (fun q op => WorkQueue.apply op q) q ops.

End Notions.

(** ** The dependency chain CRD, schema, export, binding *)

Section CascadeNotions.
Import APIBinding.

Variable indexAPIBindingsByWorkspaceExport indexAPIExportsByAPIResourceSchema : string.
Variable ToClusterAwareKey : string -> string -> string.
Variable MetaNamespaceKeyFunc : Object -> error + string.

(** The object an event hands to the handlers (for an update, the new
    version). *)
Definition eventObject (ev : Event) : Iface :=
  match ev with
  | EvAdd obj => obj
  | EvUpdate _ newObj => newObj
  | EvDelete obj => obj
  end.


(** The APIResourceSchema named by a CRD's annotations: the local one, or
    the one of the remote shard when the local cache has none. *)
Definition resolveSchema (c : reconciler) (clusterName name : string) : error + loc :=
  match apiResourceSchemaLister c (ToClusterAwareKey clusterName name) with
  | inl err =>
      if IsNotFound err
      then temporaryRemoteShardApiResourceSchemaLister c (ToClusterAwareKey clusterName name)
      else inl err
  | inr s => inr s
  end.

(** The key of the APIBinding at [b]. *)
Definition bindingKey (h : gmap loc Object) (b : loc) : option string :=
  match h !! b with
  | Some (APIBinding m) =>
      match MetaNamespaceKeyFunc (APIBinding m) with
      | inr k => Some k
      | inl _ => None
      end
  | _ => None
  end.

(** The keys of the APIBindings that reference the APIExport at [e],
    according to the bindings-by-export index. *)
Definition bindingsOfExport (c : reconciler) (h : gmap loc Object) (e : loc)
    : option (list string) :=
  match h !! e with
  | Some (APIExport m) =>
      match MetaNamespaceKeyFunc (APIExport m) with
      | inr ekey =>
          match apiBindingsIndexer c indexAPIBindingsByWorkspaceExport ekey with
          | inr bs => mapM (bindingKey h) bs
          | inl _ => None
          end
      | inl _ => None
      end
  | _ => None
  end.

(** The APIExports that reference the schema with key [skey]: those of the
    local index, or those of the remote-shard index when the local index has
    none. *)
Definition exportsOfSchema (c : reconciler) (skey : string) : error + list loc :=
  match apiExportsIndexer c indexAPIExportsByAPIResourceSchema skey with
  | inr [] => temporaryRemoteShardApiExportsIndexer c indexAPIExportsByAPIResourceSchema skey
  | r => r
  end.

(** The keys of the APIBindings that depend on the schema at [s] through
    the chain schema, export, binding; [None] when a lookup of the chain
    fails. *)
Definition dependentsOfSchema (c : reconciler) (h : gmap loc Object) (s : loc)
    : option (list string) :=
  match h !! s with
  | Some (APIResourceSchema m) =>
      match MetaNamespaceKeyFunc (APIResourceSchema m) with
      | inr skey =>
          match exportsOfSchema c skey with
          | inr es => (@concat string) <$> mapM (bindingsOfExport c h) es
          | inl _ => None
          end
      | inl _ => None
      end
  | _ => None
  end.

(** The reconciler [c] with another remote-shard APIExport index. *)
Definition withRemoteExports (c : reconciler)
    (remote : string -> string -> error + list loc) : reconciler :=
  {| apiBindingsIndexer := apiBindingsIndexer c;
     apiExportsIndexer := apiExportsIndexer c;
     temporaryRemoteShardApiExportsIndexer := remote;
     apiResourceSchemaLister := apiResourceSchemaLister c;
     temporaryRemoteShardApiResourceSchemaLister :=
       temporaryRemoteShardApiResourceSchemaLister c;
     ctl := ctl c |}.

(** A lookup in the remote-shard APIExport index. *)
Definition isRemoteExportLookup (c : Call) : bool :=
  match c with
  | CByIndex indexer _ _ => String.eqb indexer "temporaryRemoteShardApiExports"
  | _ => false
  end.

End CascadeNotions.

(** [w'] is [w] after the calls [cs]: same heap, longer trace. *)
Definition extendsBy {V} (w w' : World V) (cs : list Call) : Prop :=
  heap w' = heap w ∧ calls w' = (calls w ++ cs)%list.


(** ** Concrete controllers and worlds *)

Module Samples.
Import WorkQueue.

(** A queue holding [key], which has failed [n] times so far. *)
Definition queued (key : string) (n : nat) : WorkQueue.t :=
  {| queue := [key]; dirty := {[key]}; processing := ∅;
     failures := {[key := n]}; waiting := []; shuttingDown := false |}.

(** The queue [queued key n] once [Get] has handed out [key]. *)
Definition dequeued (key : string) (n : nat) : WorkQueue.t :=
  {| queue := []; dirty := {[key]} ∖ {[key]}; processing := {[key]} ∪ ∅;
     failures := {[key := n]}; waiting := []; shuttingDown := false |}.

(** *** The generic controller, on objects that are counters *)

(** [strings.Split(s, sep)] for a separator of one character. *)
Fixpoint splitOn (sep : Ascii.ascii) (s : string) : list string :=
  match s with
  | EmptyString => [EmptyString]
  | String ch rest =>
      if Ascii.eqb ch sep then EmptyString :: splitOn sep rest
      else
        match splitOn sep rest with
        | part :: parts => String ch part :: parts
        | [] => [String ch EmptyString]
        end
  end.

(** [cache.SplitMetaNamespaceKey] of client-go: [name] or [namespace/name].
    (The Go error also quotes the key in its message.) *)
Definition splitKey (key : string) : error + (string * string) :=
  match splitOn "/"%char key with
  | [name] => inr ("", name)
  | [namespace; name] => inr (namespace, name)
  | _ => inl (ErrOther "unexpected key format")
  end.

Definition failingReconciler : @Controller.Reconciler nat :=
  {| Controller.Reconcile := fun cur h => (h, Some (ErrOther "reconcile failed"));
     Controller.PostReconcile :=
       fun _ _ _ _ h => (h, Some (ErrOther "status update failed")) |}.

(** A reconciler that increments the object it is handed. *)
Definition bumpReconciler : @Controller.Reconciler nat :=
  {| Controller.Reconcile :=
       fun cur h => (match cur with Some l => alter S l h | None => h end, None);
     Controller.PostReconcile := fun _ _ _ _ h => (h, None) |}.

Definition emptyInformer : Controller.SharedIndexInformer :=
  {| Controller.GetIndexer := fun _ => (None, false, None) |}.

Definition fooInformer : Controller.SharedIndexInformer :=
  {| Controller.GetIndexer := fun key =>
       if String.eqb key "root:foo" then (Some 1%positive, true, None)
       else (None, false, None) |}.

Definition twoRequeues : Controller.Options :=
  {| Controller.Name := "sample"; Controller.NumRequeues := 2;
     Controller.ResyncPeriod := 0 |}.

Definition failingController : @Controller.controller nat :=
  Controller.New "*Counter" emptyInformer failingReconciler twoRequeues.

Definition bumpController : @Controller.controller nat :=
  Controller.New "*Counter" fooInformer bumpReconciler twoRequeues.

Definition fooWorld (n : nat) : World nat :=
  mkWorld (queued "root:foo" n) {[ 1%positive := 7%nat ]} [].

(** *** The replication controller *)

(** [kcpcache.SplitMetaClusterNamespaceKey] of kcp's apimachinery: the key
    of client-go, with or without the prefix [cluster|]. *)
Definition splitClusterKey (key : string) : error + (string * string * string) :=
  match splitOn "|"%char key with
  | [part] =>
      match splitKey part with
      | inr (namespace, name) => inr ("", namespace, name)
      | inl _ => inl (ErrOther "unexpected key format")
      end
  | [clusterName; part] =>
      match splitKey part with
      | inr (namespace, name) => inr (clusterName, namespace, name)
      | inl _ => inl (ErrOther "unexpected key format")
      end
  | _ => inl (ErrOther "unexpected key format")
  end.

Definition replication (lister : string -> string -> error + loc)
    : @ReplicationClusterRole.controller nat :=
  {| ReplicationClusterRole.clusterRoleLister := lister;
     ReplicationClusterRole.reconcile :=
       fun cr h => (match cr with Some l => alter S l h | None => h end, (false, None));
     ReplicationClusterRole.commit := fun _ _ h => (h, None) |}.

Definition brokenLister (cluster name : string) : error + loc :=
  inl (ErrOther "connection refused").
Definition goneLister (cluster name : string) : error + loc :=
  inl (ErrNotFound "clusterrole not found").
Definition foundLister (cluster name : string) : error + loc :=
  inr 1%positive.


Definition clusterKeyFunc (obj : ReplicationClusterRole.Iface) (h : gmap loc nat)
  : error + string := inr "root|viewer".

(** *** The APIBinding controller *)

Import APIBinding.

Definition schemaClusterKey : string := "apis.kcp.dev/schema-cluster".
Definition schemaNameKey : string := "apis.kcp.dev/schema-name".
Definition byExport : string := "byWorkspaceExport".
Definition bySchema : string := "byAPIResourceSchema".

Definition toKey (clusterName name : string) : string := clusterName ++ "|" ++ name.

Definition keyOf (o : Object) : error + string :=
  inr (toKey (cluster (metaOf o)) (name (metaOf o))).

Definition meta (clusterName name : string) (ann : gmap string string) : ObjectMeta :=
  {| cluster := clusterName; namespace := ""; name := name; annotations := ann |}.

Definition objects : gmap loc Object :=
  {[ 1%positive := CustomResourceDefinition
                     (meta ShadowWorkspaceName "widgets.example.io"
                        {[ schemaClusterKey := "root:org"; schemaNameKey := "widgets" ]});
     2%positive := APIResourceSchema (meta "root:org" "widgets" ∅);
     3%positive := APIExport (meta "root:org" "local-export" ∅);
     4%positive := APIExport (meta "root:org" "remote-export" ∅);
     5%positive := APIBinding (meta "root:ws1" "b1" ∅);
     6%positive := APIBinding (meta "root:ws2" "b2" ∅);
     7%positive := CustomResourceDefinition (meta "root:org" "plain.example.io" ∅);
     8%positive := CustomResourceDefinition (meta ShadowWorkspaceName "unowned" ∅) ]}.

Definition idleReconciler : @Controller.Reconciler Object :=
  {| Controller.Reconcile := fun _ h => (h, None);
     Controller.PostReconcile := fun _ _ _ _ h => (h, None) |}.

Definition bindingController : @Controller.controller Object :=
  Controller.New "*v1alpha1.APIBinding"
    {| Controller.GetIndexer := fun _ => (None, false, None) |}
    idleReconciler
    {| Controller.Name := controllerName; Controller.NumRequeues := 0;
       Controller.ResyncPeriod := 0 |}.

(** One schema [root:org|widgets], exported by a local and by a remote
    APIExport, each bound once. *)
Definition bindingReconciler : reconciler :=
  {| apiBindingsIndexer := fun _ key =>
       if String.eqb key "root:org|local-export" then inr [5%positive]
       else if String.eqb key "root:org|remote-export" then inr [6%positive]
       else inr [];
     apiExportsIndexer := fun _ key =>
       if String.eqb key "root:org|widgets" then inr [3%positive] else inr [];
     temporaryRemoteShardApiExportsIndexer := fun _ key =>
       if String.eqb key "root:org|widgets" then inr [4%positive] else inr [];
     apiResourceSchemaLister := fun key =>
       if String.eqb key "root:org|widgets" then inr 2%positive
       else inl (ErrNotFound key);
     temporaryRemoteShardApiResourceSchemaLister := fun key => inl (ErrNotFound key);
     ctl := bindingController |}.

Definition bindingWorld : World Object := mkWorld WorkQueue.empty objects [].

End Samples.


(** ** The worker loop of the replication controller *)

Module ReplicationWorker.

Section Worker.
Context {V : Type}.
Variable SplitMetaClusterNamespaceKey : string -> error + (string * string * string).

(** [startWorker]: [for c.processNextWorkItem(ctx) {}].  The loop has no
    bound of its own; [fuel] bounds the iterations of the model, and the
    result is [None] when the fuel runs out before the loop ends. *)
Fixpoint startWorker (fuel : nat) (c : @ReplicationClusterRole.controller V)
    : M (World V) (option unit) :=
  match fuel with
  | O => ret None
  | S fuel' =>
      do continue <-
         ReplicationClusterRole.processNextWorkItem SplitMetaClusterNamespaceKey c;
      if (continue : bool) then startWorker fuel' c else ret (Some tt)
  end.

End Worker.

End ReplicationWorker.

(** ** The closures built by the APIBinding controller's constructor *)

Module APIBindingClosures.
Import APIBinding.

(** The loop of [listAPIBindings] over the listed bindings [all]: [ret_]
    collects the bindings of [clusterName], in the order of the list. *)
Fixpoint listAPIBindingsLoop (clusterName : string) (all : list loc)
    (ret_ : list loc) : M W (list loc) :=
  match all with
  | [] => ret ret_
  | binding :: rest =>
      do w <- get;
      match heap w !! binding with
      | None => panic "invalid memory address or nil pointer dereference"
      | Some o =>
          if negb (String.eqb (cluster (metaOf o)) clusterName)
          then listAPIBindingsLoop clusterName rest ret_
          else listAPIBindingsLoop clusterName rest (ret_ ++ [binding])
      end
  end.

(** The closure [listAPIBindings]; [lister] is what
    [apiBindingInformer.Lister().List(labels.Everything())] returns. *)
Definition listAPIBindings (lister : error + list loc) (clusterName : string)
    : M W (error + list loc) :=
  match lister with
  | inl err => ret (inl err)
  | inr all =>
      do ret_ <- listAPIBindingsLoop clusterName all [];
      ret (inr ret_)
  end.

End APIBindingClosures.

(** ** Notions about traces *)

(** The keys handed out by [Get], and those released by [Done], in order. *)
Definition gotKeys (tr : list Call) : list string :=
  omap (fun q => match q with WorkQueue.QGet k => Some k | _ => None end)
       (queueCalls tr).

Definition doneKeys (tr : list Call) : list string :=
  omap (fun q => match q with WorkQueue.QDone k => Some k | _ => None end)
       (queueCalls tr).

(** The calls an informer's event handler may make: cache lookups, error
    reports, notes in the deleted-CRD tracker, and [queue.Add]. *)
Definition handlerCall (c : Call) : bool :=
  match c with
  | CQueue (WorkQueue.QAdd _) => true
  | CQueue _ => false
  | CHandleError _ | CByIndex _ _ _ | CListerGet _ _ _ | CTrackerAdd _ => true
  | CGetByKey _ | CReconcile _ | CPostReconcile _ _ _ _ | CCommit _ _ => false
  end.

Definition isTrackerAdd (c : Call) : bool :=
  match c with
  | CTrackerAdd _ => true
  | _ => false
  end.

(** [w'] is [w] after calls that all satisfy [P]: the heap is the same, the
    queue is changed by the queue calls among them, in order. *)
Definition extendsWith {V} (P : Call -> Prop) (w w' : World V) : Prop :=
  ∃ cs, heap w' = heap w ∧ calls w' = (calls w ++ cs)%list ∧
        wq w' = applyAll (queueCalls cs) (wq w) ∧ Forall P cs.

(** The APIBinding at [b] belongs to the logical cluster [clusterName]. *)
Definition inCluster (h : gmap loc APIBinding.Object) (clusterName : string)
    (b : loc) : bool :=
  match h !! b with
  | Some o => String.eqb (APIBinding.cluster (APIBinding.metaOf o)) clusterName
  | None => false
  end.

(** A key that keeps failing: one worker step of the generic controller,
    then the expiry of the first pending rate-limit delay, [rounds] times. *)
Fixpoint retryRounds {V} (split : string -> error + (string * string))
    (c : @Controller.controller V) (rounds : nat) : M (World V) unit :=
  match rounds with
  | O => ret tt
  | S rounds' =>
      Controller.processNextItem split c ;;
      modify (fun w => mkWorld (WorkQueue.expire 0 (wq w)) (heap w) (calls w)) ;;
      retryRounds split c rounds'
  end.

(** ** Further concrete controllers and worlds *)

Module MoreSamples.
Import WorkQueue.

(** A store whose lookups fail. *)
Definition brokenInformer : Controller.SharedIndexInformer :=
  {| Controller.GetIndexer := fun _ => (None, false, Some (ErrOther "cache unavailable")) |}.

Definition brokenStoreController : @Controller.controller nat :=
  Controller.New "*Counter" brokenInformer Samples.bumpReconciler Samples.twoRequeues.

(** A reconciler whose [PostReconcile] increments the object [prev] points
    to, as its [Reconcile] increments the copy. *)
Definition meddlingReconciler : @Controller.Reconciler nat :=
  {| Controller.Reconcile :=
       fun cur h => (match cur with Some l => alter S l h | None => h end, None);
     Controller.PostReconcile :=
       fun _ prev _ _ h => (match prev with Some l => alter S l h | None => h end, None) |}.

Definition meddlingController : @Controller.controller nat :=
  Controller.New "*Counter" Samples.fooInformer meddlingReconciler Samples.twoRequeues.

(** The ClusterRole [root|viewer], queued after [n] failures. *)
Definition viewerWorld (n : nat) : World nat :=
  mkWorld (Samples.queued "root|viewer" n) {[ 1%positive := 7%nat ]} [].

(** A replication controller whose reconcile and commit both fail. *)
Definition failingSync : @ReplicationClusterRole.controller nat :=
  {| ReplicationClusterRole.clusterRoleLister := Samples.foundLister;
     ReplicationClusterRole.reconcile :=
       fun _ h => (h, (false, Some (ErrOther "reconcile failed")));
     ReplicationClusterRole.commit :=
       fun _ _ h => (h, Some (ErrOther "patch failed")) |}.

(** A store with one ClusterRole and an empty queue. *)
Definition idleWorld : World nat :=
  mkWorld WorkQueue.empty {[ 1%positive := 7%nat ]} [].

(** A queue holding a key with one separator too many. *)
Definition brokenKeyWorld : World nat :=
  mkWorld (Samples.queued "root|a|b" 2) {[ 1%positive := 7%nat ]} [].

(** A binding of the ClusterRole [viewer]. *)
Definition viewerBinding : ReplicationClusterRole.ClusterRoleBinding :=
  {| ReplicationClusterRole.crbCluster := "root";
     ReplicationClusterRole.crbName := "viewers";
     ReplicationClusterRole.roleRef :=
       {| ReplicationClusterRole.APIGroup := "rbac.authorization.k8s.io";
          ReplicationClusterRole.Kind := "ClusterRole";
          ReplicationClusterRole.Name := "viewer" |} |}.

(** A replication controller whose reconcile always asks for a requeue. *)
Definition requeueing : @ReplicationClusterRole.controller nat :=
  {| ReplicationClusterRole.clusterRoleLister := Samples.foundLister;
     ReplicationClusterRole.reconcile := fun _ h => (h, (true, None));
     ReplicationClusterRole.commit := fun _ _ h => (h, None) |}.

(** A queue that was shut down while two keys were still queued. *)
Definition closingQueue : WorkQueue.t :=
  {| queue := ["root|a"; "root|b"]; dirty := {["root|a"; "root|b"]};
     processing := ∅; failures := ∅; waiting := []; shuttingDown := true |}.

Definition closingWorld : World nat := mkWorld closingQueue {[ 1%positive := 7%nat ]} [].

(** The objects of [Samples.objects] and a CRD whose schema does not exist. *)
Definition objectsWithOrphan : gmap loc APIBinding.Object :=
  <[ 9%positive :=
       APIBinding.CustomResourceDefinition
         (Samples.meta APIBinding.ShadowWorkspaceName "gadgets.example.io"
            {[ Samples.schemaClusterKey := "root:org";
               Samples.schemaNameKey := "gadgets" ]}) ]> Samples.objects.

Definition orphanWorld : World APIBinding.Object :=
  mkWorld WorkQueue.empty objectsWithOrphan [].

End MoreSamples.

(** * Properties *)

(** ** The queue keeps its consistency *)

Section QueueInvariant.
Import WorkQueue Workers.

Lemma Add_processing key q : processing (Add key q) = processing q.
Proof. unfold Add. repeat case_match; reflexivity. Qed.

Lemma Add_ok key q : queue_ok q -> queue_ok (Add key q).
Proof.
    intros [Hnd Hd Hp]. unfold Add.
    destruct (shuttingDown q); [by constructor|].
    destruct (decide (key ∈ dirty q)) as [Hin|Hnin]; [by constructor|].
    destruct (decide (key ∈ processing q)) as [Hpr|Hpr]; constructor; simpl.
    - done.
    - intros k Hk. apply elem_of_union_r. by apply Hd.
    - done.
    - apply NoDup_app. split_and!; [done| |apply NoDup_singleton].
      intros k Hk Hk'. apply list_elem_of_singleton in Hk' as ->. by apply Hnin, Hd.
    - intros k [Hk| ->%list_elem_of_singleton]%elem_of_app.
      + apply elem_of_union_r. by apply Hd.
      + apply elem_of_union_l. by apply elem_of_singleton.
    - intros k [Hk| ->%list_elem_of_singleton]%elem_of_app; [by apply Hp|done].
Qed.

Lemma Get_ok q key q' :
    queue_ok q -> Get q = GotItem key q' ->
    queue_ok q' ∧ key ∉ processing q ∧ key ∉ queue q' ∧
    processing q' = {[key]} ∪ processing q.
Proof.
    intros [Hnd Hd Hp]. unfold Get.
    destruct (queue q) as [|k rest] eqn:Hq; [by destruct (shuttingDown q)|].
    intros [= -> <-]. apply NoDup_cons in Hnd as [Hk Hrest].
    split_and!; simpl; [constructor; simpl| | |]; try done.
    - intros k Hin. apply elem_of_difference. split.
      + apply Hd. by right.
      + intros ->%elem_of_singleton. done.
    - intros k Hin [->%elem_of_singleton|Hpr]%elem_of_union; [done|].
      by apply (Hp k); [right|].
    - apply Hp. by left.
Qed.

Lemma Done_ok key q : queue_ok q -> key ∈ processing q -> queue_ok (Done key q).
Proof.
    intros [Hnd Hd Hp] Hpr. unfold Done.
    destruct (decide (key ∈ dirty q)) as [Hin|Hnin]; constructor; simpl; try done.
    - apply NoDup_app. split_and!; [done| |apply NoDup_singleton].
      intros k Hk ->%list_elem_of_singleton. by apply (Hp key).
    - intros k [Hk| ->%list_elem_of_singleton]%elem_of_app; [by apply Hd|done].
    - intros k [Hk| ->%list_elem_of_singleton]%elem_of_app.
      + intros [? _]%elem_of_difference. by apply (Hp k).
      + intros [_ Hne]%elem_of_difference. apply Hne. by apply elem_of_singleton.
    - intros k Hk [? _]%elem_of_difference. by apply (Hp k).
Qed.

Lemma Done_processing key q : processing (Done key q) = processing q ∖ {[key]}.
Proof. unfold Done. by case_decide. Qed.

Lemma AddRateLimited_ok key q : queue_ok q -> queue_ok (AddRateLimited key q).
Proof. intros [Hnd Hd Hp]. by constructor. Qed.

Lemma Forget_ok key q : queue_ok q -> queue_ok (Forget key q).
Proof. intros [Hnd Hd Hp]. by constructor. Qed.

Lemma ShutDown_ok q : queue_ok q -> queue_ok (ShutDown q).
Proof. intros [Hnd Hd Hp]. by constructor. Qed.

Lemma expire_ok i q : queue_ok q -> queue_ok (expire i q).
Proof.
    intros Hq. unfold expire. destruct (waiting q !! i); [|done].
    apply Add_ok. destruct Hq. by constructor.
Qed.

Lemma expire_processing i q : processing (expire i q) = processing q.
Proof. unfold expire. destruct (waiting q !! i); [|done]. by rewrite Add_processing. Qed.

Lemma empty_ok : queue_ok WorkQueue.empty.
Proof. constructor; simpl; [apply NoDup_nil_2| |]; intros k Hk; by apply elem_of_nil in Hk. Qed.

(** [holds] after one worker changed its state. *)
Lemma holds_insert_other q q' ws i j st key :
    holds {| sq := q'; workers := <[i := st]> ws |} j key -> i ≠ j ->
    holds {| sq := q; workers := ws |} j key.
Proof. unfold holds; simpl. intros H Hne. by rewrite !list_lookup_insert_ne in H. Qed.

Lemma holds_insert_same q ws i st key :
    holds {| sq := q; workers := <[i := st]> ws |} i key -> (i < length ws)%nat ->
    st = Reconciling key ∨ st = Finishing key.
Proof.
    unfold holds; simpl. intros H Hlt.
    rewrite !list_lookup_insert_eq in H by done.
    destruct H as [[= ->]|[= ->]]; auto.
Qed.

(** A worker that only moves from [Reconciling key] to [Finishing key]
    holds the same key before and after. *)
Lemma holds_finishing q q' ws i j key key' :
    ws !! i = Some (Reconciling key) ->
    holds {| sq := q'; workers := <[i := Finishing key]> ws |} j key' ->
    holds {| sq := q; workers := ws |} j key'.
Proof.
    intros Hi H. destruct (decide (i = j)) as [<-|Hne].
    - apply holds_insert_same in H; [|by eapply lookup_lt_Some].
      destruct H as [|[= ->]]; [done|]. by left.
    - by eapply holds_insert_other.
Qed.

Lemma inv_finishing s i key q' :
    inv s -> workers s !! i = Some (Reconciling key) ->
    queue_ok q' -> processing q' = processing (sq s) ->
    inv {| sq := q'; workers := <[i := Finishing key]> (workers s) |}.
Proof.
    intros [Hq Hpr Hex] Hi Hq' Heq. constructor; simpl.
    - done.
    - intros j k Hj. rewrite Heq. apply (Hpr j).
      destruct s; by eapply holds_finishing.
    - intros j1 j2 k H1 H2. destruct s. eapply Hex; by eapply holds_finishing.
Qed.

Lemma inv_same_workers s q' :
    inv s -> queue_ok q' -> processing q' = processing (sq s) ->
    inv {| sq := q'; workers := workers s |}.
Proof.
    intros [Hq Hpr Hex] Hq' Heq. constructor; simpl; [done| |].
    - intros j k Hj. rewrite Heq. by apply (Hpr j).
    - intros j1 j2 k H1 H2. by eapply Hex.
Qed.

(** Every step preserves the invariant. *)
Lemma step_inv s s' : step s s' -> inv s -> inv s'.
Proof.
    intros Hstep Hinv. destruct Hstep.
    - apply inv_same_workers; [done|apply Add_ok, Hinv|apply Add_processing].
    - apply inv_same_workers; [done|apply expire_ok, Hinv|apply expire_processing].
    - apply inv_same_workers; [done|apply ShutDown_ok, Hinv|done].
    - destruct Hinv as [Hq Hpr Hex].
      destruct (Get_ok _ _ _ Hq H0) as (Hq' & Hnp & Hnq & Heq).
      assert (Hlt : (i < length (workers s))%nat) by by eapply lookup_lt_Some.
      assert (Hold : ∀ j k, i ≠ j ->
                holds {| sq := q'; workers := <[i:=Reconciling key]> (workers s) |} j k ->
                holds s j k).
      { intros j k Hne Hj. destruct s. by eapply holds_insert_other. }
      assert (Hnew : ∀ k,
                holds {| sq := q'; workers := <[i:=Reconciling key]> (workers s) |} i k ->
                k = key).
      { intros k Hk. apply holds_insert_same in Hk; [|done].
        by destruct Hk as [[= ->]|[=]]. }
      constructor; simpl; [done| |].
      + intros j k Hj. rewrite Heq. destruct (decide (i = j)) as [<-|Hne].
        * apply Hnew in Hj as ->. apply elem_of_union_l. by apply elem_of_singleton.
        * apply elem_of_union_r. apply (Hpr j). by apply Hold.
      + intros j1 j2 k H1 H2.
        destruct (decide (i = j1)) as [<-|Hne1]; destruct (decide (i = j2)) as [<-|Hne2].
        * done.
        * apply Hnew in H1 as ->. apply Hold in H2; [|done].
          by apply Hpr in H2.
        * apply Hnew in H2 as ->. apply Hold in H1; [|done].
          by apply Hpr in H1.
        * eapply Hex; by apply Hold.
    - apply inv_finishing; [done|done|apply AddRateLimited_ok, Hinv|done].
    - apply inv_finishing; [done|done|apply Forget_ok, Hinv|done].
    - apply inv_finishing; [done|done|apply Add_ok, Hinv|apply Add_processing].
    - apply inv_finishing; [done|done|apply Hinv|done].
    - destruct Hinv as [Hq Hpr Hex].
      assert (Hlt : (i < length (workers s))%nat) by by eapply lookup_lt_Some.
      assert (Hi : holds s i key) by by right.
      assert (Hold : ∀ j k,
                holds {| sq := Done key (sq s); workers := <[i:=Idle]> (workers s) |} j k ->
                i ≠ j ∧ holds s j k).
      { intros j k Hj. destruct (decide (i = j)) as [<-|Hne].
        - apply holds_insert_same in Hj; [|done]. by destruct Hj.
        - split; [done|]. destruct s. by eapply holds_insert_other. }
      constructor; simpl.
      + apply Done_ok; [done|]. by apply (Hpr i).
      + intros j k [Hne Hj]%Hold. rewrite Done_processing.
        apply elem_of_difference. split; [by apply (Hpr j)|].
        intros ->%elem_of_singleton. apply Hne. by eapply Hex.
      + intros j1 j2 k [_ H1]%Hold [_ H2]%Hold. by eapply Hex.
Qed.

Lemma Start_inv q n : queue_ok q -> processing q = ∅ -> inv (Start q n).
Proof.
    intros Hq Hp.
    assert (Hidle : ∀ i k, ¬ holds (Start q n) i k).
    { intros i k [H|H]; simpl in H; apply lookup_replicate in H as [? _]; done. }
    constructor; [done| |]; intros; by edestruct Hidle.
Qed.

Lemma reachable_inv s s' : rtc step s s' -> inv s -> inv s'.
Proof. induction 1; eauto using step_inv. Qed.

End QueueInvariant.

(** ** The generic controller *)

Section GenericProps.
Import WorkQueue Controller.
Context {V : Type}.
Variable SplitMetaNamespaceKey : string -> error + (string * string).

Abbreviation controller := (@controller V).
Abbreviation processKey := (@processKey V SplitMetaNamespaceKey).
Abbreviation processNextItem := (@processNextItem V SplitMetaNamespaceKey).

Lemma handleError_below (c : controller) err key w :
    WorkQueue.NumRequeues key (wq w) < numRequeues c ->
    handleError c err key w =
      Ok tt (mkWorld (AddRateLimited key (wq w)) (heap w)
                     (calls w ++ [CQueue (QAddRateLimited key)])).
Proof.
    intros Hlt. unfold handleError, bind, queueNumRequeues.
    apply Z.ltb_lt in Hlt. by rewrite Hlt.
Qed.

Lemma handleError_reached (c : controller) err key w :
    numRequeues c <= WorkQueue.NumRequeues key (wq w) ->
    handleError c err key w =
      Ok tt (mkWorld (Forget key (wq w)) (heap w)
                     (calls w ++ [CQueue (QForget key); CHandleError err])).
Proof.
    intros Hge. unfold handleError, bind, queueNumRequeues.
    apply Z.ltb_ge in Hge. rewrite Hge. simpl.
    unfold HandleError, call, modify; simpl. by rewrite <- app_assoc.
Qed.

(** [handleError] always returns; it changes neither the heap nor the
    earlier part of the trace. *)
Lemma handleError_total (c : controller) err key w :
    ∃ q' cs, handleError c err key w = Ok tt (mkWorld q' (heap w) (calls w ++ cs)) ∧
             (cs = [CQueue (QAddRateLimited key)] ∨
              cs = [CQueue (QForget key); CHandleError err]).
Proof.
    destruct (Z.lt_ge_cases (WorkQueue.NumRequeues key (wq w)) (numRequeues c)) as [H|H].
    - rewrite handleError_below by done. eauto.
    - rewrite handleError_reached by done. eauto.
Qed.

Lemma processKey_bad_key (c : controller) key e w :
    SplitMetaNamespaceKey key = inl e -> processKey c key w = Ok true w.
Proof. intros H. unfold Controller.processKey. by rewrite H. Qed.

Lemma processKey_lookup_error (c : controller) key ns name obj ex e w :
    SplitMetaNamespaceKey key = inr (ns, name) ->
    indexer c key = (obj, ex, Some e) ->
    processKey c key w = (handleError c e key ;; ret true) (logged w [CGetByKey key]).
Proof.
    intros Hs Hi. unfold Controller.processKey. rewrite Hs.
    unfold bind at 1. simpl. by rewrite Hi.
Qed.

Lemma DeepCopy_snapshot (obj : option loc) (w : World V) :
    DeepCopy obj w =
      Ok (snapshotPair obj (heap w)).1.2
         (mkWorld (wq w) (snapshotPair obj (heap w)).2 (calls w)).
Proof.
    unfold DeepCopy, snapshotPair. destruct obj as [l|]; [|by destruct w].
    destruct (heap w !! l); by destruct w.
Qed.

(** Symbolic execution of the body of [processNextItem] when the key is
    well formed and the lookup succeeds. *)
Lemma processKey_run (c : controller) key ns name obj ex w :
    SplitMetaNamespaceKey key = inr (ns, name) ->
    indexer c key = (obj, ex, None) ->
    let '(prev, cur, h1) := snapshotPair obj (heap w) in
    let '(h2, rerr) := Reconcile (recon c) cur h1 in
    let '(h3, perr) := PostReconcile (recon c) name prev cur rerr h2 in
    let w1 := mkWorld (wq w) h3
                (calls w ++ [CGetByKey key; CReconcile cur;
                             CPostReconcile name prev cur rerr]) in
    processKey c key w =
      match perr, rerr with
      | Some p, _ => (handleError c p key ;; ret true) w1
      | None, Some r => (handleError c r key ;; ret true) w1
      | None, None => Ok true w1
      end.
Proof.
    intros Hs Hi. unfold Controller.processKey. rewrite Hs.
    unfold bind at 1. simpl. rewrite Hi.
    destruct (snapshotPair obj (heap w)) as [[prev cur] h1] eqn:Hsnap.
    destruct (Reconcile (recon c) cur h1) as [h2 rerr] eqn:Hr.
    destruct (PostReconcile (recon c) name prev cur rerr h2) as [h3 perr] eqn:Hp.
    assert (Hprev : prev = obj).
    { unfold snapshotPair in Hsnap. destruct obj as [l|]; [|by inversion Hsnap].
      destruct (heap w !! l); by inversion Hsnap. }
    subst prev.
    assert (Hcopy : ∀ w0 : World V, heap w0 = heap w ->
              DeepCopy obj w0 = Ok cur (mkWorld (wq w0) h1 (calls w0))).
    { intros w0 Hw0. rewrite DeepCopy_snapshot, Hw0, Hsnap. done. }
    destruct obj as [l|].
    - unfold bind at 1. unfold bind at 1. rewrite Hcopy by done.
      unfold ret at 1. unfold bind at 1. unfold call, modify. simpl.
      unfold bind at 1. unfold onHeap at 1. simpl. rewrite Hr.
      unfold bind at 1. simpl.
      unfold bind at 1. unfold onHeap at 1. simpl. rewrite Hp.
      rewrite <- !app_assoc. simpl.
      destruct perr as [p|]; [done|]. destruct rerr as [r|]; done.
    - assert (cur = None ∧ h1 = heap w) as [-> ->] by by inversion Hsnap.
      unfold bind at 1. unfold ret at 1. unfold bind at 1. unfold call, modify. simpl.
      unfold bind at 1. unfold onHeap at 1. simpl. rewrite Hr.
      unfold bind at 1. simpl.
      unfold bind at 1. unfold onHeap at 1. simpl. rewrite Hp.
      rewrite <- !app_assoc. simpl.
      destruct perr as [p|]; [done|]. destruct rerr as [r|]; done.
Qed.

Lemma processKey_outcome (c : controller) key ns name obj ex w :
  SplitMetaNamespaceKey key = inr (ns, name) ->
  indexer c key = (obj, ex, None) ->
  let '(h3, cs, err) := reconcileOutcome c key name obj (heap w) in
  processKey c key w =
    match err with
    | Some e => (handleError c e key ;; ret true) (mkWorld (wq w) h3 (calls w ++ cs))
    | None => Ok true (mkWorld (wq w) h3 (calls w ++ cs))
    end.
Proof.
  intros Hs Hi. pose proof (processKey_run c key ns name obj ex w Hs Hi) as Hrun.
  unfold reconcileOutcome.
  destruct (snapshotPair obj (heap w)) as [[prev cur] h1].
  destruct (Reconcile (recon c) cur h1) as [h2 rerr].
  destruct (PostReconcile (recon c) name prev cur rerr h2) as [h3 perr].
  rewrite Hrun. destruct perr, rerr; reflexivity.
Qed.

Lemma reconcileOutcome_calls (c : controller) key name obj h :
  queueCalls (reconcileOutcome c key name obj h).1.2 = [] ∧
  reported (reconcileOutcome c key name obj h).1.2 = [].
Proof.
  unfold reconcileOutcome.
  destruct (snapshotPair obj h) as [[prev cur] h1].
  destruct (Reconcile (recon c) cur h1) as [h2 rerr].
  destruct (PostReconcile (recon c) name prev cur rerr h2) as [h3 perr].
  done.
Qed.

Lemma processNextItem_dequeue (c : controller) w key q' :
  Get (wq w) = GotItem key q' ->
  processNextItem c w =
    defer (processKey c key) (queueDone key)
          (mkWorld q' (heap w) (calls w ++ [CQueue (QGet key)])).
Proof.
  intros Hget. unfold Controller.processNextItem, bind at 1, queueGet.
  by rewrite Hget.
Qed.

Lemma processNextItem_shutdown (c : controller) w :
  Get (wq w) = GotShutdown -> processNextItem c w = Ok false w.
Proof.
  intros Hget. unfold Controller.processNextItem, bind at 1, queueGet.
  by rewrite Hget.
Qed.

Lemma defer_Done_Ok {A} (body : M (World V) A) key w a w1 :
  body w = Ok a w1 ->
  defer body (queueDone key) w =
    Ok a (mkWorld (Done key (wq w1)) (heap w1) (calls w1 ++ [CQueue (QDone key)])).
Proof. intros H. unfold defer, bind. by rewrite H. Qed.

(** The body of [processNextItem] always returns [true]; what it appends to
    the trace holds at most one queue call, and the queue is changed by that
    call only. *)
Lemma processKey_shape (c : controller) key w :
  ∃ h' mid,
    processKey c key w =
      Ok true (mkWorld (applyAll (queueCalls mid) (wq w)) h' (calls w ++ mid)) ∧
    (queueCalls mid = [] ∨ queueCalls mid = [QAddRateLimited key] ∨
     queueCalls mid = [QForget key]).
Proof.
  destruct (SplitMetaNamespaceKey key) as [e|[ns name]] eqn:Hs.
  { exists (heap w), []. rewrite (processKey_bad_key c key e) by done.
    rewrite app_nil_r. destruct w; auto. }
  destruct (indexer c key) as [[obj ex] [e|]] eqn:Hi.
  - rewrite (processKey_lookup_error c key ns name obj ex e) by done.
    unfold bind at 1.
    destruct (Z.lt_ge_cases (WorkQueue.NumRequeues key (wq w)) (numRequeues c)) as [H|H].
    + exists (heap w), [CGetByKey key; CQueue (QAddRateLimited key)].
      unfold ret. rewrite handleError_below by done. simpl.
      rewrite <- app_assoc. auto.
    + exists (heap w), [CGetByKey key; CQueue (QForget key); CHandleError e].
      unfold ret. rewrite handleError_reached by done. simpl.
      rewrite <- app_assoc. auto.
  - pose proof (processKey_outcome c key ns name obj ex w Hs Hi) as Hrun.
    pose proof (reconcileOutcome_calls c key name obj (heap w)) as [Hq _].
    destruct (reconcileOutcome c key name obj (heap w)) as [[h3 cs] err].
    simpl in Hq. rewrite Hrun. destruct err as [e|].
    + unfold bind at 1.
      destruct (Z.lt_ge_cases (WorkQueue.NumRequeues key (wq w)) (numRequeues c)) as [H|H].
      * exists h3, (cs ++ [CQueue (QAddRateLimited key)])%list.
        rewrite handleError_below by done. simpl.
        unfold queueCalls in *. rewrite omap_app, Hq, <- app_assoc. auto.
      * exists h3, (cs ++ [CQueue (QForget key); CHandleError e])%list.
        rewrite handleError_reached by done. simpl.
        unfold queueCalls in *. rewrite omap_app, Hq, <- app_assoc. auto.
    + exists h3, cs. rewrite Hq. auto.
Qed.

(** A run of [processNextItem] that ends with an error of the processing. *)
Lemma processNextItem_error_run (c : controller) w key q' e :
  Get (wq w) = GotItem key q' ->
  processingError SplitMetaNamespaceKey c key (heap w) = Some e ->
  ∃ h' pre,
    queueCalls pre = [] ∧ reported pre = [] ∧
    (WorkQueue.NumRequeues key q' < numRequeues c ->
     processNextItem c w =
       Ok true (mkWorld (Done key (AddRateLimited key q')) h'
                  (calls w ++ [CQueue (QGet key)] ++ pre ++
                   [CQueue (QAddRateLimited key); CQueue (QDone key)]))) ∧
    (numRequeues c <= WorkQueue.NumRequeues key q' ->
     processNextItem c w =
       Ok true (mkWorld (Done key (Forget key q')) h'
                  (calls w ++ [CQueue (QGet key)] ++ pre ++
                   [CQueue (QForget key); CHandleError e; CQueue (QDone key)]))).
Proof.
  intros Hget Herr. unfold processingError in Herr.
  destruct (SplitMetaNamespaceKey key) as [?|[ns name]] eqn:Hs; [done|].
  destruct (indexer c key) as [[obj ex] [e'|]] eqn:Hi.
  - injection Herr as ->. exists (heap w), [CGetByKey key].
    split_and!; [done|done| |]; intros Hn;
      rewrite (processNextItem_dequeue c w key q') by done;
      erewrite defer_Done_Ok;
      [|rewrite (processKey_lookup_error c key ns name obj ex e) by done;
        unfold bind at 1;
        first [rewrite handleError_below by done|rewrite handleError_reached by done];
        reflexivity| |rewrite (processKey_lookup_error c key ns name obj ex e) by done;
        unfold bind at 1;
        first [rewrite handleError_below by done|rewrite handleError_reached by done];
        reflexivity];
      simpl; rewrite <- !app_assoc; reflexivity.
  - pose proof (processKey_outcome c key ns name obj ex
                  (mkWorld q' (heap w) (calls w ++ [CQueue (QGet key)])) Hs Hi) as Hrun.
    pose proof (reconcileOutcome_calls c key name obj (heap w)) as [Hq Hr].
    simpl in Hrun.
    destruct (reconcileOutcome c key name obj (heap w)) as [[h3 cs] err].
    simpl in *. subst err. exists h3, cs.
    split_and!; [done|done| |]; intros Hn;
      rewrite (processNextItem_dequeue c w key q') by done;
      erewrite defer_Done_Ok;
      [|rewrite Hrun; unfold bind at 1;
        first [rewrite handleError_below by done|rewrite handleError_reached by done];
        reflexivity| |rewrite Hrun; unfold bind at 1;
        first [rewrite handleError_below by done|rewrite handleError_reached by done];
        reflexivity];
      simpl; rewrite <- !app_assoc; reflexivity.
Qed.

End GenericProps.

(** ** The ClusterRole replication controller *)

Section ReplicationProps.
Import WorkQueue ReplicationClusterRole.
Context {V : Type}.
Variable SplitMetaClusterNamespaceKey : string -> error + (string * string * string).

Abbreviation rcontroller := (@ReplicationClusterRole.controller V).
Abbreviation process := (@ReplicationClusterRole.process V SplitMetaClusterNamespaceKey).
Abbreviation processNextWorkItem :=
  (@ReplicationClusterRole.processNextWorkItem V SplitMetaClusterNamespaceKey).

Lemma Done_failures key q : failures (Done key q) = failures q.
Proof. unfold Done. by case_decide. Qed.

Lemma NumRequeues_Done_Forget key q : WorkQueue.NumRequeues key (Done key (Forget key q)) = 0.
Proof.
  unfold WorkQueue.NumRequeues. rewrite Done_failures. simpl.
  by rewrite lookup_delete_eq.
Qed.

Lemma processNextWorkItem_dequeue (c : rcontroller) w key q' :
  Get (wq w) = GotItem key q' ->
  processNextWorkItem c w =
    defer
      (do (requeue, err) <- process c key;
       match err with
       | Some e =>
           HandleError (ErrWrap "controller failed to sync" e) ;;
           queueAddRateLimited key ;;
           ret true
       | None =>
           if (requeue : bool) then (queueAdd key ;; ret true)
           else (queueForget key ;; ret true)
       end)
      (queueDone key)
      (mkWorld q' (heap w) (calls w ++ [CQueue (QGet key)])).
Proof.
  intros Hget. unfold ReplicationClusterRole.processNextWorkItem, bind at 1, queueGet.
  by rewrite Hget.
Qed.

Lemma process_bad_key (c : rcontroller) key e w :
  SplitMetaClusterNamespaceKey key = inl e ->
  process c key w = Ok (false, None) (logged w [CHandleError e]).
Proof. intros Hs. unfold ReplicationClusterRole.process. by rewrite Hs. Qed.

Lemma process_lister_error (c : rcontroller) key parent ns name err w :
  SplitMetaClusterNamespaceKey key = inr (parent, ns, name) ->
  clusterRoleLister c parent name = inl err ->
  process c key w =
    Ok (false, if IsNotFound err then None else Some err)
       (logged w [CListerGet "clusterRole" parent name]).
Proof.
  intros Hs Hl. unfold ReplicationClusterRole.process. rewrite Hs.
  unfold bind at 1. simpl. rewrite Hl. by destruct (IsNotFound err).
Qed.

(** Symbolic execution of [process] when the ClusterRole is found. *)
Lemma process_run (c : rcontroller) key parent ns name p w :
  SplitMetaClusterNamespaceKey key = inr (parent, ns, name) ->
  clusterRoleLister c parent name = inr p ->
  let '(old, cr, h1) := snapshotPair (Some p) (heap w) in
  let '(h2, (requeue, rerr)) := reconcile c cr h1 in
  let '(h3, cerr) := commit c old cr h2 in
  process c key w =
    Ok (requeue, NewAggregate (appendErr (appendErr [] rerr) cerr))
       (mkWorld (wq w) h3
          (calls w ++ [CListerGet "clusterRole" parent name; CReconcile cr;
                       CCommit old cr])).
Proof.
  intros Hs Hl.
  destruct (snapshotPair (Some p) (heap w)) as [[old cr] h1] eqn:Hsnap.
  destruct (reconcile c cr h1) as [h2 [requeue rerr]] eqn:Hr.
  destruct (commit c old cr h2) as [h3 cerr] eqn:Hc.
  assert (old = Some p) as ->.
  { unfold snapshotPair in Hsnap. destruct (heap w !! p); by inversion Hsnap. }
  unfold ReplicationClusterRole.process. rewrite Hs.
  unfold bind at 1. simpl. rewrite Hl.
  unfold bind at 1. rewrite DeepCopy_snapshot. cbn [heap wq calls]. rewrite Hsnap. simpl.
  unfold bind at 1. simpl.
  unfold bind at 1. unfold onHeap at 1. simpl. rewrite Hr.
  unfold bind at 1. simpl.
  unfold bind at 1. unfold onHeap at 1. simpl. rewrite Hc.
  by rewrite <- !app_assoc.
Qed.

(** [process] always returns, and makes no queue call. *)
Lemma process_total (c : rcontroller) key w :
  ∃ r h' mid,
    process c key w = Ok r (mkWorld (wq w) h' (calls w ++ mid)) ∧
    queueCalls mid = [].
Proof.
  destruct (SplitMetaClusterNamespaceKey key) as [e|[[parent ns] name]] eqn:Hs.
  { rewrite (process_bad_key c key e) by done. by eexists _, _, _. }
  destruct (clusterRoleLister c parent name) as [err|p] eqn:Hl.
  { rewrite (process_lister_error c key parent ns name err) by done.
    by eexists _, _, _. }
  pose proof (process_run c key parent ns name p w Hs Hl) as Hrun.
  destruct (snapshotPair (Some p) (heap w)) as [[old cr] h1].
  destruct (reconcile c cr h1) as [h2 [requeue rerr]].
  destruct (commit c old cr h2) as [h3 cerr].
  rewrite Hrun. by eexists _, _, _.
Qed.

(** A run of [processNextWorkItem] in which [process] returns an error. *)
Lemma processNextWorkItem_error_run (c : rcontroller) w key q' requeue e w1 :
  Get (wq w) = GotItem key q' ->
  process c key (mkWorld q' (heap w) (calls w ++ [CQueue (QGet key)]))
    = Ok (requeue, Some e) w1 ->
  processNextWorkItem c w =
    Ok true (mkWorld (Done key (AddRateLimited key (wq w1))) (heap w1)
               (calls w1 ++ [CHandleError (ErrWrap "controller failed to sync" e);
                             CQueue (QAddRateLimited key); CQueue (QDone key)])).
Proof.
  intros Hget Hp. rewrite (processNextWorkItem_dequeue c w key q') by done.
  erewrite defer_Done_Ok.
  2:{ unfold bind at 1. rewrite Hp. reflexivity. }
  simpl. by rewrite <- !app_assoc.
Qed.

(** A run of [processNextWorkItem] in which [process] returns no error. *)
Lemma processNextWorkItem_success_run (c : rcontroller) w key q' requeue w1 :
  Get (wq w) = GotItem key q' ->
  process c key (mkWorld q' (heap w) (calls w ++ [CQueue (QGet key)]))
    = Ok (requeue, None) w1 ->
  processNextWorkItem c w =
    if requeue then
      Ok true (mkWorld (Done key (Add key (wq w1))) (heap w1)
                 (calls w1 ++ [CQueue (QAdd key); CQueue (QDone key)]))
    else
      Ok true (mkWorld (Done key (Forget key (wq w1))) (heap w1)
                 (calls w1 ++ [CQueue (QForget key); CQueue (QDone key)])).
Proof.
  intros Hget Hp. rewrite (processNextWorkItem_dequeue c w key q') by done.
  destruct requeue.
  - erewrite defer_Done_Ok.
    2:{ unfold bind at 1. rewrite Hp. reflexivity. }
    simpl. by rewrite <- !app_assoc.
  - erewrite defer_Done_Ok.
    2:{ unfold bind at 1. rewrite Hp. reflexivity. }
    simpl. by rewrite <- !app_assoc.
Qed.

End ReplicationProps.

(** ** The APIBinding controller: fan-out along the dependency chain *)

Section CascadeProps.
Import WorkQueue APIBinding.

Variable AnnotationSchemaClusterKey AnnotationSchemaNameKey : string.
Variable indexAPIBindingsByWorkspaceExport indexAPIExportsByAPIResourceSchema : string.
Variable ToClusterAwareKey : string -> string -> string.
Variable MetaNamespaceKeyFunc : Object -> error + string.

Abbreviation keyFunc := (DeletionHandlingMetaNamespaceKeyFunc MetaNamespaceKeyFunc).
Abbreviation enqueueAPIExport :=
  (APIBinding.enqueueAPIExport indexAPIBindingsByWorkspaceExport MetaNamespaceKeyFunc).
Abbreviation enqueueAPIResourceSchema :=
  (APIBinding.enqueueAPIResourceSchema indexAPIBindingsByWorkspaceExport
     indexAPIExportsByAPIResourceSchema MetaNamespaceKeyFunc).
Abbreviation enqueueCRD :=
  (APIBinding.enqueueCRD AnnotationSchemaClusterKey AnnotationSchemaNameKey
     indexAPIBindingsByWorkspaceExport indexAPIExportsByAPIResourceSchema
     ToClusterAwareKey MetaNamespaceKeyFunc).
Abbreviation crdEvent :=
  (APIBinding.crdEvent AnnotationSchemaClusterKey AnnotationSchemaNameKey
     indexAPIBindingsByWorkspaceExport indexAPIExportsByAPIResourceSchema
     ToClusterAwareKey MetaNamespaceKeyFunc).
Abbreviation crdDeleteFunc :=
  (APIBinding.crdDeleteFunc AnnotationSchemaClusterKey AnnotationSchemaNameKey
     indexAPIBindingsByWorkspaceExport indexAPIExportsByAPIResourceSchema
     ToClusterAwareKey MetaNamespaceKeyFunc).
Abbreviation bKey := (bindingKey MetaNamespaceKeyFunc).
Abbreviation bsOfExport :=
  (bindingsOfExport indexAPIBindingsByWorkspaceExport MetaNamespaceKeyFunc).
Abbreviation esOfSchema := (exportsOfSchema indexAPIExportsByAPIResourceSchema).
Abbreviation depsOfSchema :=
  (dependentsOfSchema indexAPIBindingsByWorkspaceExport
     indexAPIExportsByAPIResourceSchema MetaNamespaceKeyFunc).
Abbreviation resolve := (resolveSchema ToClusterAwareKey).

(** The world after [queue.Add] of each of [keys]. *)
Abbreviation QAdds keys := (map QAdd keys).

Lemma bind_Ok {W0 A B} (m : M W0 A) (k : A -> M W0 B) w a w' :
  m w = Ok a w' -> bind m k w = k a w'.
Proof. intros H. unfold bind. by rewrite H. Qed.

Lemma applyAll_app ops1 ops2 q :
  applyAll (ops1 ++ ops2) q = applyAll ops2 (applyAll ops1 q).
Proof. unfold applyAll. apply foldl_app. Qed.

Lemma queueCalls_app (cs1 cs2 : list Call) :
  queueCalls (cs1 ++ cs2) = (queueCalls cs1 ++ queueCalls cs2)%list.
Proof. unfold queueCalls. apply omap_app. Qed.

Lemma queueCalls_adds keys :
  queueCalls (map (fun k => CQueue (QAdd k)) keys) = QAdds keys.
Proof. induction keys as [|k keys IH]; [done|]. simpl. by rewrite <- IH. Qed.

Lemma Enqueue_ok c b v k suffix (w : W) :
  heap w !! b = Some v ->
  MetaNamespaceKeyFunc v = inr k ->
  Controller.Enqueue MetaNamespaceKeyFunc c (Some b) suffix w =
    Ok tt (mkWorld (Add k (wq w)) (heap w) (calls w ++ [CQueue (QAdd k)])).
Proof.
  intros Hb Hk. unfold Controller.Enqueue, bind, get. by rewrite Hb, Hk.
Qed.

(** The loop of [enqueueAPIExport] over well-typed bindings. *)
Lemma bindings_loop (c : reconciler) obj logSuffix h bs keys :
  isAPIExport (deref h obj) = true ->
  Forall2 (fun b k => bKey h b = Some k) bs keys ->
  ∀ w : W, heap w = h ->
    forRange bs (fun binding =>
      do w <- get;
      if negb (isAPIBinding (heap w !! binding)) then
        panic "APIBinding controller expected *APIBinding from enqueueAPIExport"
      else if negb (isAPIExport (deref (heap w) obj)) then
        panic "interface conversion: not *v1alpha1.APIExport"
      else
        Controller.Enqueue MetaNamespaceKeyFunc (ctl c) (Some binding)
          (" because of APIExport" ++ logSuffix)) w =
    Ok tt (mkWorld (applyAll (QAdds keys) (wq w)) h
             (calls w ++ map (fun k => CQueue (QAdd k)) keys)).
Proof.
  intros Hobj. induction 1 as [|b k bs keys Hb _ IH]; intros w Hw.
  - simpl. unfold ret. rewrite app_nil_r. destruct w; simpl in *; by subst.
  - simpl. unfold bind at 1. unfold bind at 1, get. rewrite Hw.
    unfold bindingKey in Hb.
    destruct (h !! b) as [[| | |m|]|] eqn:Hhb; try done.
    destruct (MetaNamespaceKeyFunc (APIBinding m)) as [|k'] eqn:Hk; [done|].
    injection Hb as ->. simpl. rewrite Hobj. simpl.
    rewrite (Enqueue_ok _ b (APIBinding m) k) by (by rewrite ?Hw).
    rewrite IH by done. simpl. by rewrite <- app_assoc.
Qed.

Lemma enqueueAPIExport_run (c : reconciler) e logSuffix (w : W) keys :
  bsOfExport c (heap w) e = Some keys ->
  ∃ cs,
    enqueueAPIExport c (IPtr e) logSuffix w =
      Ok tt (mkWorld (applyAll (QAdds keys) (wq w)) (heap w) (calls w ++ cs)) ∧
    queueCalls cs = QAdds keys.
Proof.
  unfold bindingsOfExport. intros H.
  destruct (heap w !! e) as [[| |m| |]|] eqn:He; try done.
  destruct (MetaNamespaceKeyFunc (APIExport m)) as [|ekey] eqn:Hk; [done|].
  destruct (apiBindingsIndexer c indexAPIBindingsByWorkspaceExport ekey)
    as [|bs] eqn:Hbs; [done|].
  apply mapM_Some in H.
  exists (CByIndex "apiBindings" indexAPIBindingsByWorkspaceExport ekey
            :: map (fun k => CQueue (QAdd k)) keys).
  split; [|simpl; apply queueCalls_adds].
  unfold APIBinding.enqueueAPIExport. unfold bind at 1, get. simpl.
  rewrite He, Hk. unfold bind at 1. simpl. rewrite Hbs.
  etransitivity.
  { apply (bindings_loop c (IPtr e) logSuffix (heap w) bs keys);
      [by simpl; rewrite He|done|done]. }
  simpl. by rewrite <- app_assoc.
Qed.

(** The loop of [enqueueAPIResourceSchema] over well-typed exports. *)
Lemma exports_loop (c : reconciler) obj logSuffix h es kss :
  isAPIResourceSchema (deref h obj) = true ->
  Forall2 (fun e ks => bsOfExport c h e = Some ks) es kss ->
  ∀ w : W, heap w = h ->
    ∃ cs,
      forRange es (fun export =>
        do w <- get;
        if negb (isAPIResourceSchema (deref (heap w) obj)) then
          panic "interface conversion: not *v1alpha1.APIResourceSchema"
        else
          enqueueAPIExport c (IPtr export)
            (" because of APIResourceSchema" ++ logSuffix)) w =
        Ok tt (mkWorld (applyAll (QAdds (concat kss)) (wq w)) h (calls w ++ cs)) ∧
      queueCalls cs = QAdds (concat kss).
Proof.
  intros Hobj. induction 1 as [|e ks es kss He _ IH]; intros w Hw.
  - exists []. simpl. unfold ret. rewrite app_nil_r.
    destruct w; simpl in *; by subst.
  - rewrite <- Hw in He.
    destruct (enqueueAPIExport_run c e (" because of APIResourceSchema" ++ logSuffix)
                w ks He) as (cs1 & Hrun1 & Hq1).
    destruct (IH (mkWorld (applyAll (QAdds ks) (wq w)) (heap w) (calls w ++ cs1)) Hw)
      as (cs2 & Hrun2 & Hq2).
    exists (cs1 ++ cs2)%list. split.
    + rewrite concat_cons, map_app, applyAll_app, app_assoc.
      cbn [forRange]. erewrite bind_Ok; [exact Hrun2|].
      unfold bind, get. rewrite <- Hw in Hobj. rewrite Hobj. exact Hrun1.
    + by rewrite queueCalls_app, Hq1, Hq2, concat_cons, map_app.
Qed.

Lemma enqueueAPIResourceSchema_run (c : reconciler) s logSuffix (w : W) keys :
  depsOfSchema c (heap w) s = Some keys ->
  ∃ cs,
    enqueueAPIResourceSchema c (IPtr s) logSuffix w =
      Ok tt (mkWorld (applyAll (QAdds keys) (wq w)) (heap w) (calls w ++ cs)) ∧
    queueCalls cs = QAdds keys.
Proof.
  unfold dependentsOfSchema, exportsOfSchema. intros H.
  destruct (heap w !! s) as [[|m| | |]|] eqn:Hs; try done.
  destruct (MetaNamespaceKeyFunc (APIResourceSchema m)) as [|skey] eqn:Hk; [done|].
  set (w0 := logged w [CByIndex "apiExports" indexAPIExportsByAPIResourceSchema skey]).
  assert (Hstart : ∀ k : error + list loc -> M W unit,
            enqueueAPIResourceSchema c (IPtr s) logSuffix w =
            (do apiExports <-
                match apiExportsIndexer c indexAPIExportsByAPIResourceSchema skey with
                | inl err => ret (inl err)
                | inr [] =>
                    call (CByIndex "temporaryRemoteShardApiExports"
                            indexAPIExportsByAPIResourceSchema skey) ;;
                    ret (temporaryRemoteShardApiExportsIndexer c
                           indexAPIExportsByAPIResourceSchema skey)
                | inr (e :: es) => ret (inr (e :: es))
                end;
             match apiExports with
             | inl err => HandleError err
             | inr apiExports =>
                 forRange apiExports (fun export =>
                   do w <- get;
                   if negb (isAPIResourceSchema (deref (heap w) (IPtr s))) then
                     panic "interface conversion: not *v1alpha1.APIResourceSchema"
                   else
                     enqueueAPIExport c (IPtr export)
                       (" because of APIResourceSchema" ++ logSuffix))
             end) w0).
  { intros _. unfold APIBinding.enqueueAPIResourceSchema. unfold bind at 1, get.
    simpl. rewrite Hs, Hk. unfold bind at 1. simpl.
    by destruct (apiExportsIndexer c indexAPIExportsByAPIResourceSchema skey) as [|[|]]. }
  rewrite (Hstart (fun _ => ret tt)). clear Hstart.
  destruct (apiExportsIndexer c indexAPIExportsByAPIResourceSchema skey)
    as [|[|e es]] eqn:Hes; [done| |].
  - destruct (temporaryRemoteShardApiExportsIndexer c
                indexAPIExportsByAPIResourceSchema skey) as [|res] eqn:Hres; [done|].
    destruct (mapM (bsOfExport c (heap w)) res) as [kss|] eqn:Hm; [|done].
    injection H as <-. apply mapM_Some in Hm.
    destruct (exports_loop c (IPtr s) logSuffix (heap w) res kss
                ltac:(by simpl; rewrite Hs) Hm
                (logged w0 [CByIndex "temporaryRemoteShardApiExports"
                              indexAPIExportsByAPIResourceSchema skey]) eq_refl)
      as (cs & Hrun & Hq).
    eexists. split.
    + erewrite bind_Ok; [|unfold bind, call, modify, ret; reflexivity].
      etransitivity; [exact Hrun|]. simpl. by rewrite <- !app_assoc.
    + rewrite !queueCalls_app. simpl. exact Hq.
  - destruct (mapM (bsOfExport c (heap w)) (e :: es)) as [kss|] eqn:Hm; [|done].
    injection H as <-. apply mapM_Some in Hm.
    destruct (exports_loop c (IPtr s) logSuffix (heap w) (e :: es) kss
                ltac:(by simpl; rewrite Hs) Hm w0 eq_refl)
      as (cs & Hrun & Hq).
    eexists. split.
    + erewrite bind_Ok; [|unfold ret; reflexivity].
      etransitivity; [exact Hrun|]. simpl. by rewrite <- !app_assoc.
    + rewrite !queueCalls_app. simpl. exact Hq.
Qed.

Lemma getAPIResourceSchema_resolve (c : reconciler) clusterName name (w : W) :
  ∃ cs,
    getAPIResourceSchema ToClusterAwareKey c clusterName name w =
      Ok (resolve c clusterName name) (logged w cs) ∧
    queueCalls cs = [].
Proof.
  unfold getAPIResourceSchema, resolveSchema. unfold bind at 1. simpl.
  destruct (apiResourceSchemaLister c (ToClusterAwareKey clusterName name)) as [err|s].
  - destruct (IsNotFound err).
    + unfold bind at 1. simpl. unfold ret.
      exists [CListerGet "apiResourceSchema" clusterName name;
              CListerGet "temporaryRemoteShardApiResourceSchema" clusterName name].
      unfold logged. simpl. by rewrite <- app_assoc.
    + by exists [CListerGet "apiResourceSchema" clusterName name].
  - by exists [CListerGet "apiResourceSchema" clusterName name].
Qed.

(** [enqueueCRD] on a CRD with both annotations whose schema resolves. *)
Lemma enqueueCRD_run (c : reconciler) obj crd (w : W) s keys :
  deref (heap w) obj = Some (CustomResourceDefinition crd) ->
  annotation crd AnnotationSchemaClusterKey ≠ "" ->
  annotation crd AnnotationSchemaNameKey ≠ "" ->
  resolve c (annotation crd AnnotationSchemaClusterKey)
                  (annotation crd AnnotationSchemaNameKey) = inr s ->
  depsOfSchema c (heap w) s = Some keys ->
  ∃ cs,
    enqueueCRD c obj w =
      Ok tt (mkWorld (applyAll (QAdds keys) (wq w)) (heap w) (calls w ++ cs)) ∧
    queueCalls cs = QAdds keys.
Proof.
  intros Hobj Hck Hnk Hres Hdep.
  unfold APIBinding.enqueueCRD. unfold bind at 1, get. rewrite Hobj.
  apply String.eqb_neq in Hck, Hnk. rewrite Hck, Hnk. simpl.
  unfold bind at 1.
  destruct (getAPIResourceSchema_resolve c
              (annotation crd AnnotationSchemaClusterKey)
              (annotation crd AnnotationSchemaNameKey) w) as (cs0 & -> & Hq0).
  rewrite Hres.
  destruct (enqueueAPIResourceSchema_run c s " because of CRD" (logged w cs0) keys Hdep)
    as (cs1 & -> & Hq1).
  exists (cs0 ++ cs1)%list. simpl. split; [by rewrite <- app_assoc|].
  by rewrite queueCalls_app, Hq0, Hq1.
Qed.


(** A CRD event whose object passes the filter ends in [enqueueCRD] of that
    object; a delete notes the name in the tracker first. *)
Lemma crdEvent_passes (c : reconciler) ev (w : W) crd :
  deref (heap w) (eventObject ev) = Some (CustomResourceDefinition crd) ->
  cluster crd = ShadowWorkspaceName ->
  ∃ cs, (cs = [] ∨ cs = [CTrackerAdd (name crd)]) ∧
        crdEvent c ev w = enqueueCRD c (eventObject ev) (logged w cs).
Proof.
  intros Hobj Hcl.
  assert (Hf : FilterFunc (heap w) (eventObject ev) = true).
  { unfold FilterFunc. rewrite Hobj. by apply String.eqb_eq. }
  assert (Hw : logged w [] = w).
  { unfold logged. rewrite app_nil_r. by destruct w. }
  destruct ev as [obj|oldObj newObj|obj]; simpl in *;
    unfold APIBinding.crdEvent; unfold bind at 1, get.
  - rewrite Hf. exists []. rewrite Hw. auto.
  - rewrite Hf. simpl. exists []. rewrite Hw.
    destruct (FilterFunc (heap w) oldObj); auto.
  - rewrite Hf. unfold APIBinding.crdDeleteFunc. unfold bind at 1, get.
    rewrite Hobj. unfold bind at 1. simpl.
    exists [CTrackerAdd (name crd)]. auto.
Qed.


(** *** Events that are filtered out *)




(** *** Which index is consulted *)

Abbreviation local_only cs := (Forall (fun c => isRemoteExportLookup c = false) cs).

Lemma extendsBy_trans {V} (w w1 w2 : World V) cs1 cs2 :
  extendsBy w w1 cs1 -> extendsBy w1 w2 cs2 -> extendsBy w w2 (cs1 ++ cs2).
Proof.
  intros [Hh1 Hc1] [Hh2 Hc2]. split; [congruence|].
  by rewrite Hc2, Hc1, <- app_assoc.
Qed.

Lemma forRange_trace {A} (body : A -> M W unit) xs :
  (∀ x w w', body x w = Ok tt w' -> ∃ cs, extendsBy w w' cs ∧ local_only cs) ->
  ∀ w w', forRange xs body w = Ok tt w' -> ∃ cs, extendsBy w w' cs ∧ local_only cs.
Proof.
  intros Hbody. induction xs as [|x xs IH]; intros w w' Hrun.
  - injection Hrun as <-. exists []. split; [|done].
    split; [done|by rewrite app_nil_r].
  - cbn [forRange] in Hrun. unfold bind at 1 in Hrun.
    destruct (body x w) as [[] w1| |] eqn:Hx; [|done|done].
    destruct (Hbody x w w1 Hx) as (cs1 & He1 & Hp1).
    destruct (IH w1 w' Hrun) as (cs2 & He2 & Hp2).
    exists (cs1 ++ cs2)%list. split; [by eapply extendsBy_trans|].
    by apply Forall_app.
Qed.

Lemma Enqueue_trace c obj suffix (w w' : W) :
  Controller.Enqueue MetaNamespaceKeyFunc c obj suffix w = Ok tt w' ->
  ∃ cs, extendsBy w w' cs ∧ local_only cs.
Proof.
  unfold Controller.Enqueue, bind, get. destruct obj as [b|]; [|done].
  destruct (heap w !! b) as [v|]; [|done].
  destruct (MetaNamespaceKeyFunc v) as [err|k]; intros [= <-].
  - exists [CHandleError err]. by repeat constructor.
  - exists [CQueue (QAdd k)]. by repeat constructor.
Qed.

Lemma enqueueAPIExport_trace (c : reconciler) obj logSuffix (w w' : W) :
  enqueueAPIExport c obj logSuffix w = Ok tt w' ->
  ∃ cs, extendsBy w w' cs ∧ local_only cs.
Proof.
  unfold APIBinding.enqueueAPIExport. unfold bind at 1, get.
  destruct (keyFunc obj (heap w)) as [err|key].
  { intros [= <-]. exists [CHandleError err]. by repeat constructor. }
  unfold bind at 1. simpl.
  destruct (apiBindingsIndexer c indexAPIBindingsByWorkspaceExport key) as [err|bs].
  { intros [= <-]. eexists [_; _]. split; [split; [done|]|].
    - simpl. by rewrite <- app_assoc.
    - by repeat constructor. }
  intros Hloop. apply forRange_trace in Hloop.
  - destruct Hloop as (cs & He & Hp).
    exists (CByIndex "apiBindings" indexAPIBindingsByWorkspaceExport key :: cs).
    split; [|by constructor].
    destruct He as [Hh Hc]. split; [done|]. simpl in Hc.
    by rewrite Hc, <- app_assoc.
  - intros b w1 w2. unfold bind at 1, get.
    destruct (negb (isAPIBinding (heap w1 !! b))); [done|].
    destruct (negb (isAPIExport (deref (heap w1) obj))); [done|].
    apply Enqueue_trace.
Qed.

(** The remote-shard index is looked up only when the local index returned
    an empty list. *)
Lemma enqueueAPIResourceSchema_trace (c : reconciler) obj logSuffix key (w w' : W) :
  keyFunc obj (heap w) = inr key ->
  enqueueAPIResourceSchema c obj logSuffix w = Ok tt w' ->
  ∃ cs, extendsBy w w' cs ∧
        (apiExportsIndexer c indexAPIExportsByAPIResourceSchema key ≠ inr [] ->
         local_only cs).
Proof.
  intros Hk. unfold APIBinding.enqueueAPIResourceSchema. unfold bind at 1, get.
  rewrite Hk. unfold bind at 1. simpl.
  destruct (apiExportsIndexer c indexAPIExportsByAPIResourceSchema key)
    as [err|[|e es]] eqn:Hes.
  - intros [= <-]. eexists [_; _]. split; [split; [done|]|].
    + simpl. by rewrite <- app_assoc.
    + intros _. by repeat constructor.
  - unfold bind at 1. unfold bind at 1. simpl.
    destruct (temporaryRemoteShardApiExportsIndexer c
                indexAPIExportsByAPIResourceSchema key) as [err|res].
    + intros [= <-]. eexists [_; _; _]. split; [split; [done|]|done].
      simpl. by rewrite <- !app_assoc.
    + intros Hloop. apply forRange_trace in Hloop.
      * destruct Hloop as (cs & [Hh Hc] & Hp). simpl in Hc.
        eexists (_ :: _ :: cs). split; [split; [done|]|done].
        rewrite Hc, <- !app_assoc. reflexivity.
      * intros x w1 w2. unfold bind at 1. simpl.
        destruct (negb (isAPIResourceSchema (deref (heap w1) obj))); [done|].
        apply enqueueAPIExport_trace.
  - unfold bind at 1. unfold ret at 1.
    intros Hloop. apply forRange_trace in Hloop.
    + destruct Hloop as (cs & [Hh Hc] & Hp). simpl in Hc.
      eexists (_ :: cs). split; [split; [done|]|].
      * rewrite Hc, <- !app_assoc. reflexivity.
      * intros _. by constructor.
    + intros x w1 w2. unfold bind at 1. simpl.
      destruct (negb (isAPIResourceSchema (deref (heap w1) obj))); [done|].
      apply enqueueAPIExport_trace.
Qed.

(** With a non-empty local result, the outcome does not depend on the
    remote-shard index. *)
Lemma enqueueAPIResourceSchema_ignores_remote (c : reconciler) remote obj
    logSuffix key e es (w : W) :
  keyFunc obj (heap w) = inr key ->
  apiExportsIndexer c indexAPIExportsByAPIResourceSchema key = inr (e :: es) ->
  enqueueAPIResourceSchema (withRemoteExports c remote) obj logSuffix w =
  enqueueAPIResourceSchema c obj logSuffix w.
Proof.
  intros Hk Hes. unfold APIBinding.enqueueAPIResourceSchema, bind, get.
  change (apiExportsIndexer (withRemoteExports c remote)) with (apiExportsIndexer c).
  rewrite Hk. cbn beta iota. rewrite Hes. reflexivity.
Qed.

End CascadeProps.

(** ** Snapshots and their copies *)

Section SnapshotProps.
Import WorkQueue.
Context {V : Type}.

Lemma fresh_not_allocated (h : gmap loc V) l v :
  h !! l = Some v -> fresh (dom h) ≠ l.
Proof.
  intros Hl Heq. apply (is_fresh (dom h)). rewrite Heq.
  apply elem_of_dom. eauto.
Qed.

Lemma snapshotPair_present (h : gmap loc V) l v :
  h !! l = Some v ->
  snapshotPair (Some l) h = (Some l, Some (fresh (dom h)), <[fresh (dom h) := v]> h).
Proof. intros Hl. unfold snapshotPair. by rewrite Hl. Qed.

(** [DeepCopy] of an allocated object: a new address with the same contents;
    nothing else changes. *)
Lemma DeepCopy_present (w : World V) l v :
  heap w !! l = Some v ->
  ∃ cur w1,
    DeepCopy (Some l) w = Ok (Some cur) w1 ∧
    cur ≠ l ∧
    heap w1 !! cur = Some v ∧ heap w1 !! l = Some v ∧
    (∀ l', l' ≠ cur -> heap w1 !! l' = heap w !! l') ∧
    wq w1 = wq w ∧ calls w1 = calls w.
Proof.
  intros Hl. pose proof (fresh_not_allocated _ _ _ Hl) as Hne.
  exists (fresh (dom (heap w))),
         (mkWorld (wq w) (<[fresh (dom (heap w)) := v]> (heap w)) (calls w)).
  split_and!; try done.
  - unfold DeepCopy. by rewrite Hl.
  - simpl. apply lookup_insert_eq.
  - simpl. by rewrite lookup_insert_ne.
  - intros l' Hl'. simpl. by rewrite lookup_insert_ne.
Qed.

Lemma handleError_heap (c : @Controller.controller V) e key (w : World V) :
  ∃ w' cs, Controller.handleError c e key w = Ok tt w' ∧
           heap w' = heap w ∧ calls w' = (calls w ++ cs)%list.
Proof.
  destruct (handleError_total c e key w) as (q' & cs & -> & _).
  by eexists _, _.
Qed.

Section Generic.
Variable SplitMetaNamespaceKey : string -> error + (string * string).

(** The generic processing step on an object present in the store.
    [Reconcile] is called on the copy, in a heap where copy and snapshot
    hold the same contents at different addresses; if it writes only through
    the pointer it is handed, the snapshot is intact when [PostReconcile] is
    called; the step ends with the heap [PostReconcile] leaves. *)
Lemma processKey_snapshot_frame (c : @Controller.controller V) key ns name l ex v w :
  SplitMetaNamespaceKey key = inr (ns, name) ->
  Controller.indexer c key = (Some l, ex, None) ->
  heap w !! l = Some v ->
  let cur := fresh (dom (heap w)) in
  let h1 := <[cur := v]> (heap w) in
  let h2 := (Controller.Reconcile (Controller.recon c) (Some cur) h1).1 in
  let rerr := (Controller.Reconcile (Controller.recon c) (Some cur) h1).2 in
  let h3 := (Controller.PostReconcile (Controller.recon c) name (Some l) (Some cur)
               rerr h2).1 in
  cur ≠ l ∧ h1 !! cur = Some v ∧ h1 !! l = Some v ∧
  (writesOnly (Controller.Reconcile (Controller.recon c) (Some cur)) (Some cur) ->
   h2 !! l = Some v) ∧
  ∃ rest w',
    Controller.processKey SplitMetaNamespaceKey c key w = Ok true w' ∧
    calls w' = (calls w ++ [CGetByKey key; CReconcile (Some cur);
                            CPostReconcile name (Some l) (Some cur) rerr] ++ rest)%list ∧
    heap w' = h3.
Proof.
  intros Hs Hi Hl cur h1 h2 rerr h3.
  pose proof (processKey_run SplitMetaNamespaceKey c key ns name (Some l) ex w Hs Hi) as Hrun.
  rewrite (snapshotPair_present _ _ _ Hl) in Hrun. fold cur h1 in Hrun.
  pose proof (fresh_not_allocated _ _ _ Hl) as Hne. fold cur in Hne.
  assert (Hl1 : h1 !! l = Some v) by (subst h1; by rewrite lookup_insert_ne).
  split; [done|]. split; [apply lookup_insert_eq|]. split; [done|].
  split.
  { intros Hrec. subst h2. rewrite (Hrec h1 l) by congruence. done. }
  subst h3 rerr h2.
  destruct (Controller.Reconcile (Controller.recon c) (Some cur) h1)
    as [h2 rerr] eqn:Hr.
  cbn [fst snd] in *.
  destruct (Controller.PostReconcile (Controller.recon c) name (Some l) (Some cur) rerr h2)
    as [h3 perr] eqn:Hp.
  cbn [fst snd] in *.
  set (w1 := mkWorld (wq w) h3
               (calls w ++ [CGetByKey key; CReconcile (Some cur);
                            CPostReconcile name (Some l) (Some cur) rerr])) in *.
  assert (Herr : ∀ e, ∃ rest w',
            (Controller.handleError c e key ;; ret true) w1 = Ok true w' ∧
            calls w' = (calls w ++ [CGetByKey key; CReconcile (Some cur);
                          CPostReconcile name (Some l) (Some cur) rerr] ++ rest)%list ∧
            heap w' = h3).
  { intros e. destruct (handleError_heap c e key w1) as (w' & cs & He & Hh & Hc).
    exists cs, w'. unfold bind. rewrite He. split_and!; [done| |by rewrite Hh].
    rewrite Hc. simpl. by rewrite <- app_assoc. }
  cbv zeta in Hrun. fold w1 in Hrun. rewrite Hrun.
  destruct perr as [p|]; [apply Herr|].
  destruct rerr as [r|]; [apply Herr|].
  by exists [], w1.
Qed.

End Generic.

Section Replication.
Variable SplitMetaClusterNamespaceKey : string -> error + (string * string * string).

(** [process] on a ClusterRole found by the lister.  [reconcile] is called
    on the copy; if it writes only through the pointer it is handed, the
    snapshot is intact when [commit] is called; [process] ends with the heap
    [commit] leaves. *)
Lemma process_snapshot_frame (c : @ReplicationClusterRole.controller V)
    key parent ns name p v w :
  SplitMetaClusterNamespaceKey key = inr (parent, ns, name) ->
  ReplicationClusterRole.clusterRoleLister c parent name = inr p ->
  heap w !! p = Some v ->
  let cr := fresh (dom (heap w)) in
  let h1 := <[cr := v]> (heap w) in
  let h2 := (ReplicationClusterRole.reconcile c (Some cr) h1).1 in
  let h3 := (ReplicationClusterRole.commit c (Some p) (Some cr) h2).1 in
  cr ≠ p ∧ h1 !! cr = Some v ∧ h1 !! p = Some v ∧
  (writesOnly (ReplicationClusterRole.reconcile c (Some cr)) (Some cr) ->
   h2 !! p = Some v) ∧
  ∃ r w',
    ReplicationClusterRole.process SplitMetaClusterNamespaceKey c key w = Ok r w' ∧
    calls w' = (calls w ++ [CListerGet "clusterRole" parent name;
                            CReconcile (Some cr); CCommit (Some p) (Some cr)])%list ∧
    heap w' = h3.
Proof.
  intros Hs Hlist Hl cr h1 h2 h3.
  pose proof (process_run SplitMetaClusterNamespaceKey c key parent ns name p w Hs Hlist)
    as Hrun.
  rewrite (snapshotPair_present _ _ _ Hl) in Hrun. fold cr h1 in Hrun.
  pose proof (fresh_not_allocated _ _ _ Hl) as Hne. fold cr in Hne.
  assert (Hl1 : h1 !! p = Some v) by (subst h1; by rewrite lookup_insert_ne).
  split; [done|]. split; [apply lookup_insert_eq|]. split; [done|].
  split.
  { intros Hrec. subst h2. rewrite (Hrec h1 p) by congruence. done. }
  subst h3 h2.
  destruct (ReplicationClusterRole.reconcile c (Some cr) h1)
    as [h2 [requeue rerr]] eqn:Hr.
  cbn [fst snd] in *.
  destruct (ReplicationClusterRole.commit c (Some p) (Some cr) h2) as [h3 cerr] eqn:Hc.
  cbn [fst snd] in *.
  eexists _, _. split; [exact Hrun|]. by split.
Qed.

End Replication.

End SnapshotProps.

(** The sample reconcilers write only through the pointer they are handed. *)
Lemma bump_writesOnly (cur : option loc) :
  writesOnly (fun h : gmap loc nat =>
                (match cur with Some l => alter S l h | None => h end, @None error)) cur.
Proof.
  intros h l Hne. simpl. destruct cur as [l0|]; [|done].
  apply lookup_alter_ne. congruence.
Qed.

(** ** ClusterRoleBinding events *)

Section BindingEventProps.
Import ReplicationClusterRole.
Context {V : Type}.
Variable GroupName : string.
Variable MetaClusterNamespaceKeyFunc : Iface -> gmap loc V -> error + string.


End BindingEventProps.

(** ** Every run between [Get] and [Done] *)

Section RunShapes.
Import WorkQueue Workers.
Context {V : Type}.

Lemma processNextItem_shape (split : string -> error + (string * string))
    (c : @Controller.controller V) (w : World V) key q' :
  Get (wq w) = GotItem key q' ->
  ∃ h' mid,
    Controller.processNextItem split c w =
      Ok true (mkWorld (Done key (applyAll (queueCalls mid) q')) h'
                 (calls w ++ [CQueue (QGet key)] ++ mid ++ [CQueue (QDone key)])) ∧
    betweenGetAndDone key (queueCalls mid).
Proof.
  intros Hget. rewrite (processNextItem_dequeue split c w key q') by done.
  destruct (processKey_shape split c key
              (mkWorld q' (heap w) (calls w ++ [CQueue (QGet key)])))
    as (h' & mid & Hrun & Hmid).
  exists h', mid. split.
  - erewrite defer_Done_Ok by exact Hrun. simpl. by rewrite <- !app_assoc.
  - unfold betweenGetAndDone. tauto.
Qed.

Lemma processNextWorkItem_shape
    (split : string -> error + (string * string * string))
    (c : @ReplicationClusterRole.controller V) (w : World V) key q' :
  Get (wq w) = GotItem key q' ->
  ∃ h' mid,
    ReplicationClusterRole.processNextWorkItem split c w =
      Ok true (mkWorld (Done key (applyAll (queueCalls mid) q')) h'
                 (calls w ++ [CQueue (QGet key)] ++ mid ++ [CQueue (QDone key)])) ∧
    betweenGetAndDone key (queueCalls mid).
Proof.
  intros Hget.
  destruct (process_total split c key
              (mkWorld q' (heap w) (calls w ++ [CQueue (QGet key)])))
    as ([requeue err] & h' & mid & Hrun & Hmid).
  simpl in Hrun. unfold betweenGetAndDone. destruct err as [e|].
  - rewrite (processNextWorkItem_error_run split c w key q' requeue e _ Hget Hrun).
    exists h', (mid ++ [CHandleError (ErrWrap "controller failed to sync" e);
                        CQueue (QAddRateLimited key)])%list.
    rewrite queueCalls_app, Hmid. simpl. split; [|tauto].
    by rewrite <- !app_assoc.
  - rewrite (processNextWorkItem_success_run split c w key q' requeue _ Hget Hrun).
    destruct requeue.
    + exists h', (mid ++ [CQueue (QAdd key)])%list.
      rewrite queueCalls_app, Hmid. simpl. split; [|tauto].
      by rewrite <- !app_assoc.
    + exists h', (mid ++ [CQueue (QForget key)])%list.
      rewrite queueCalls_app, Hmid. simpl. split; [|tauto].
      by rewrite <- !app_assoc.
Qed.

End RunShapes.

(** * The claims *)

(** C1, as amended.  In the generic controller, a key whose processing ends
    with an error (of the lookup, of Reconcile or of PostReconcile) is
    re-added rate-limited exactly when the queue's retry count for it is
    below [numRequeues]; once the bound is reached the key's counter is reset
    by [Forget], the error is reported to the error sink exactly once, and
    the controller adds the key no more.  The replication controller has no
    bound: whenever [process] returns an error, the error is reported and the
    key is re-added rate-limited, whatever its retry count. *)
Theorem retry_policy :
  (∀ (V : Type) (split : string -> error + (string * string))
     (c : @Controller.controller V) (w : World V) key q' e,
     WorkQueue.Get (wq w) = WorkQueue.GotItem key q' ->
     processingError split c key (heap w) = Some e ->
     ∃ h' pre,
       queueCalls pre = [] ∧ reported pre = [] ∧
       (WorkQueue.NumRequeues key q' < Controller.numRequeues c ->
        Controller.processNextItem split c w =
          Ok true (mkWorld (WorkQueue.Done key (WorkQueue.AddRateLimited key q')) h'
                     (calls w ++ [CQueue (WorkQueue.QGet key)] ++ pre ++
                      [CQueue (WorkQueue.QAddRateLimited key);
                       CQueue (WorkQueue.QDone key)]))) ∧
       (Controller.numRequeues c <= WorkQueue.NumRequeues key q' ->
        Controller.processNextItem split c w =
          Ok true (mkWorld (WorkQueue.Done key (WorkQueue.Forget key q')) h'
                     (calls w ++ [CQueue (WorkQueue.QGet key)] ++ pre ++
                      [CQueue (WorkQueue.QForget key); CHandleError e;
                       CQueue (WorkQueue.QDone key)])) ∧
        WorkQueue.NumRequeues key (WorkQueue.Done key (WorkQueue.Forget key q')) = 0))
  ∧
  (∀ (V : Type) (split : string -> error + (string * string * string))
     (c : @ReplicationClusterRole.controller V) (w : World V) key q' requeue e w1,
     WorkQueue.Get (wq w) = WorkQueue.GotItem key q' ->
     ReplicationClusterRole.process split c key
       (mkWorld q' (heap w) (calls w ++ [CQueue (WorkQueue.QGet key)]))
       = Ok (requeue, Some e) w1 ->
     ReplicationClusterRole.processNextWorkItem split c w =
       Ok true (mkWorld (WorkQueue.Done key (WorkQueue.AddRateLimited key (wq w1)))
                  (heap w1)
                  (calls w1 ++ [CHandleError (ErrWrap "controller failed to sync" e);
                                CQueue (WorkQueue.QAddRateLimited key);
                                CQueue (WorkQueue.QDone key)]))).
Proof.
  split.
  - intros V split c w key q' e Hget Herr.
    destruct (processNextItem_error_run split c w key q' e Hget Herr)
      as (h' & pre & Hq & Hr & Hlow & Hhigh).
    exists h', pre. split_and!; [done|done|done|].
    intros Hge. split; [by apply Hhigh|apply NumRequeues_Done_Forget].
  - intros V split c w key q' requeue e w1 Hget Hp.
    by apply processNextWorkItem_error_run with (q' := q') (requeue := requeue).
Qed.

Lemma retry_policy_witness :
  (WorkQueue.Get (wq (mkWorld (Samples.queued "root:foo" 5) (∅ : gmap loc nat) []))
     = WorkQueue.GotItem "root:foo" (Samples.dequeued "root:foo" 5) ∧
   processingError Samples.splitKey Samples.failingController "root:foo" ∅
     = Some (ErrOther "status update failed") ∧
   ∃ h' pre,
     queueCalls pre = [] ∧ reported pre = [] ∧
     (WorkQueue.NumRequeues "root:foo" (Samples.dequeued "root:foo" 5)
        < Controller.numRequeues Samples.failingController ->
      Controller.processNextItem Samples.splitKey Samples.failingController
        (mkWorld (Samples.queued "root:foo" 5) ∅ []) =
        Ok true (mkWorld (WorkQueue.Done "root:foo"
                            (WorkQueue.AddRateLimited "root:foo"
                               (Samples.dequeued "root:foo" 5))) h'
                   ([] ++ [CQueue (WorkQueue.QGet "root:foo")] ++ pre ++
                    [CQueue (WorkQueue.QAddRateLimited "root:foo");
                     CQueue (WorkQueue.QDone "root:foo")]))) ∧
     (Controller.numRequeues Samples.failingController
        <= WorkQueue.NumRequeues "root:foo" (Samples.dequeued "root:foo" 5) ->
      Controller.processNextItem Samples.splitKey Samples.failingController
        (mkWorld (Samples.queued "root:foo" 5) ∅ []) =
        Ok true (mkWorld (WorkQueue.Done "root:foo"
                            (WorkQueue.Forget "root:foo"
                               (Samples.dequeued "root:foo" 5))) h'
                   ([] ++ [CQueue (WorkQueue.QGet "root:foo")] ++ pre ++
                    [CQueue (WorkQueue.QForget "root:foo");
                     CHandleError (ErrOther "status update failed");
                     CQueue (WorkQueue.QDone "root:foo")])) ∧
      WorkQueue.NumRequeues "root:foo"
        (WorkQueue.Done "root:foo"
           (WorkQueue.Forget "root:foo" (Samples.dequeued "root:foo" 5))) = 0))
  ∧
  (WorkQueue.Get (wq (mkWorld (Samples.queued "root|viewer" 3) (∅ : gmap loc nat) []))
     = WorkQueue.GotItem "root|viewer" (Samples.dequeued "root|viewer" 3) ∧
   ReplicationClusterRole.processNextWorkItem Samples.splitClusterKey
     (Samples.replication Samples.brokenLister)
     (mkWorld (Samples.queued "root|viewer" 3) ∅ []) =
     Ok true (mkWorld (WorkQueue.Done "root|viewer"
                         (WorkQueue.AddRateLimited "root|viewer"
                            (Samples.dequeued "root|viewer" 3)))
                ∅
                ([CQueue (WorkQueue.QGet "root|viewer");
                  CListerGet "clusterRole" "root" "viewer"] ++
                 [CHandleError (ErrWrap "controller failed to sync"
                                  (ErrOther "connection refused"));
                  CQueue (WorkQueue.QAddRateLimited "root|viewer");
                  CQueue (WorkQueue.QDone "root|viewer")]))).
Proof.
  split.
  - split; [reflexivity|]. split; [reflexivity|].
    apply (proj1 retry_policy nat Samples.splitKey Samples.failingController
             (mkWorld (Samples.queued "root:foo" 5) ∅ []) "root:foo"
             (Samples.dequeued "root:foo" 5) (ErrOther "status update failed"));
      reflexivity.
  - split; [reflexivity|].
    apply (proj2 retry_policy nat Samples.splitClusterKey
             (Samples.replication Samples.brokenLister)
             (mkWorld (Samples.queued "root|viewer" 3) ∅ []) "root|viewer"
             (Samples.dequeued "root|viewer" 3) false (ErrOther "connection refused")
             (mkWorld (Samples.dequeued "root|viewer" 3) ∅
                [CQueue (WorkQueue.QGet "root|viewer");
                 CListerGet "clusterRole" "root" "viewer"]));
      reflexivity.
Defined.

(** C1 as stated fails on the replication controller: a key that has
    already been retried 100 times, far beyond any configured bound, and
    whose processing fails again is re-added rate-limited, its counter is
    not reset. *)
Lemma retry_without_bound :
  WorkQueue.NumRequeues "root|viewer" (Samples.queued "root|viewer" 100) = 100 ∧
  ∃ w',
    ReplicationClusterRole.processNextWorkItem Samples.splitClusterKey
      (Samples.replication Samples.brokenLister)
      (mkWorld (Samples.queued "root|viewer" 100) ∅ []) = Ok true w' ∧
    calls w' =
      [CQueue (WorkQueue.QGet "root|viewer");
       CListerGet "clusterRole" "root" "viewer";
       CHandleError (ErrWrap "controller failed to sync" (ErrOther "connection refused"));
       CQueue (WorkQueue.QAddRateLimited "root|viewer");
       CQueue (WorkQueue.QDone "root|viewer")] ∧
    WorkQueue.NumRequeues "root|viewer" (wq w') = 101.
Proof.
  split; [reflexivity|]. eexists. split; [reflexivity|]. split; reflexivity.
Qed.

(** C2.  Whatever the number of workers, at most one worker holds a given
    key between its [Get] and its [Done]: a key handed out by [Get] is not
    handed out again before [Done] is called for it.  Each run of
    [processNextItem] and of [processNextWorkItem] that dequeues a key calls
    [Done] for that key exactly once, as its last action, on success and on
    error alike.  (The queue is the one of section 4.1 of the specification.) *)
Theorem one_worker_per_key :
  (∀ (V : Type) (split : string -> error + (string * string))
     (c : @Controller.controller V) (w : World V) key q',
     WorkQueue.Get (wq w) = WorkQueue.GotItem key q' ->
     ∃ h' mid,
       Controller.processNextItem split c w =
         Ok true (mkWorld (WorkQueue.Done key (applyAll (queueCalls mid) q')) h'
                    (calls w ++ [CQueue (WorkQueue.QGet key)] ++ mid ++
                     [CQueue (WorkQueue.QDone key)])) ∧
       Workers.betweenGetAndDone key (queueCalls mid))
  ∧
  (∀ (V : Type) (split : string -> error + (string * string * string))
     (c : @ReplicationClusterRole.controller V) (w : World V) key q',
     WorkQueue.Get (wq w) = WorkQueue.GotItem key q' ->
     ∃ h' mid,
       ReplicationClusterRole.processNextWorkItem split c w =
         Ok true (mkWorld (WorkQueue.Done key (applyAll (queueCalls mid) q')) h'
                    (calls w ++ [CQueue (WorkQueue.QGet key)] ++ mid ++
                     [CQueue (WorkQueue.QDone key)])) ∧
       Workers.betweenGetAndDone key (queueCalls mid))
  ∧
  (∀ (q : WorkQueue.t) (numWorkers : nat) (s : Workers.System),
     Workers.queue_ok q -> WorkQueue.processing q = ∅ ->
     rtc Workers.step (Workers.Start q numWorkers) s ->
     (∀ i j key, Workers.holds s i key -> Workers.holds s j key -> i = j) ∧
     (∀ i key, Workers.holds s i key ->
        ∀ q', WorkQueue.Get (Workers.sq s) ≠ WorkQueue.GotItem key q')).
Proof.
  split_and!.
  - intros. by apply processNextItem_shape.
  - intros. by apply processNextWorkItem_shape.
  - intros q n s Hq Hp Hreach.
    assert (Hinv : Workers.inv s).
    { eapply reachable_inv; [done|]. by apply Start_inv. }
    destruct Hinv as [Hqs Hpr Hex]. split; [done|].
    intros i key Hi q' Hget.
    apply Hpr in Hi. apply (Workers.queue_not_processing _ Hqs key); [|done].
    unfold WorkQueue.Get in Hget.
    destruct (WorkQueue.queue (Workers.sq s)) as [|k rest];
      [by destruct (WorkQueue.shuttingDown (Workers.sq s))|].
    injection Hget as -> _. by left.
Qed.

Lemma one_worker_per_key_witness :
  (WorkQueue.Get (wq (Samples.fooWorld 0))
     = WorkQueue.GotItem "root:foo" (Samples.dequeued "root:foo" 0) ∧
   ∃ h' mid,
     Controller.processNextItem Samples.splitKey Samples.bumpController
       (Samples.fooWorld 0) =
       Ok true (mkWorld (WorkQueue.Done "root:foo"
                           (applyAll (queueCalls mid) (Samples.dequeued "root:foo" 0))) h'
                  ([] ++ [CQueue (WorkQueue.QGet "root:foo")] ++ mid ++
                   [CQueue (WorkQueue.QDone "root:foo")])) ∧
     Workers.betweenGetAndDone "root:foo" (queueCalls mid))
  ∧
  (WorkQueue.Get (wq (Samples.fooWorld 0))
     = WorkQueue.GotItem "root:foo" (Samples.dequeued "root:foo" 0) ∧
   ∃ h' mid,
     ReplicationClusterRole.processNextWorkItem Samples.splitClusterKey
       (Samples.replication Samples.foundLister) (Samples.fooWorld 0) =
       Ok true (mkWorld (WorkQueue.Done "root:foo"
                           (applyAll (queueCalls mid) (Samples.dequeued "root:foo" 0))) h'
                  ([] ++ [CQueue (WorkQueue.QGet "root:foo")] ++ mid ++
                   [CQueue (WorkQueue.QDone "root:foo")])) ∧
     Workers.betweenGetAndDone "root:foo" (queueCalls mid))
  ∧
  (Workers.queue_ok (Samples.queued "root:foo" 0) ∧
   WorkQueue.processing (Samples.queued "root:foo" 0) = ∅ ∧
   rtc Workers.step (Workers.Start (Samples.queued "root:foo" 0) 2)
     {| Workers.sq := Samples.dequeued "root:foo" 0;
        Workers.workers := [Workers.Idle; Workers.Reconciling "root:foo"] |} ∧
   (∀ i j key,
      Workers.holds {| Workers.sq := Samples.dequeued "root:foo" 0;
                       Workers.workers := [Workers.Idle; Workers.Reconciling "root:foo"] |}
                    i key ->
      Workers.holds {| Workers.sq := Samples.dequeued "root:foo" 0;
                       Workers.workers := [Workers.Idle; Workers.Reconciling "root:foo"] |}
                    j key -> i = j) ∧
   (∀ i key,
      Workers.holds {| Workers.sq := Samples.dequeued "root:foo" 0;
                       Workers.workers := [Workers.Idle; Workers.Reconciling "root:foo"] |}
                    i key ->
      ∀ q', WorkQueue.Get (Samples.dequeued "root:foo" 0) ≠ WorkQueue.GotItem key q')).
Proof.
  assert (Hok : Workers.queue_ok (Samples.queued "root:foo" 0)).
  { constructor; simpl.
    - apply NoDup_singleton.
    - intros k ->%list_elem_of_singleton. by apply elem_of_singleton.
    - intros k _. apply not_elem_of_empty. }
  assert (Hstep : rtc Workers.step (Workers.Start (Samples.queued "root:foo" 0) 2)
            {| Workers.sq := Samples.dequeued "root:foo" 0;
               Workers.workers := [Workers.Idle; Workers.Reconciling "root:foo"] |}).
  { apply rtc_once.
    apply (Workers.step_get (Workers.Start (Samples.queued "root:foo" 0) 2) 1
             "root:foo" (Samples.dequeued "root:foo" 0)); reflexivity. }
  split_and!.
  - reflexivity.
  - apply (proj1 one_worker_per_key nat Samples.splitKey Samples.bumpController
             (Samples.fooWorld 0) "root:foo" (Samples.dequeued "root:foo" 0)).
    reflexivity.
  - reflexivity.
  - apply (proj1 (proj2 one_worker_per_key) nat Samples.splitClusterKey
             (Samples.replication Samples.foundLister)
             (Samples.fooWorld 0) "root:foo" (Samples.dequeued "root:foo" 0)).
    reflexivity.
  - exact Hok.
  - reflexivity.
  - exact Hstep.
  - apply (proj2 (proj2 one_worker_per_key) (Samples.queued "root:foo" 0) 2%nat _
             Hok eq_refl Hstep).
  - apply (proj2 (proj2 one_worker_per_key) (Samples.queued "root:foo" 0) 2%nat _
             Hok eq_refl Hstep).
Defined.

(** C3, as amended.  For every dequeued key that is well formed and whose
    lookup succeeds, PostReconcile is invoked after Reconcile whether or not
    Reconcile returned an error, and is handed that error.  The error passed
    to the retry policy is the one PostReconcile returns when it returns one,
    and the one of Reconcile otherwise: the controller itself does not
    combine the two. *)
Theorem post_reconcile_always_runs :
  ∀ (V : Type) (split : string -> error + (string * string))
    (c : @Controller.controller V) key ns name obj ex (w : World V),
    split key = inr (ns, name) ->
    Controller.indexer c key = (obj, ex, None) ->
    let '(prev, cur, h1) := snapshotPair obj (heap w) in
    let '(h2, rerr) := Controller.Reconcile (Controller.recon c) cur h1 in
    let '(h3, perr) :=
      Controller.PostReconcile (Controller.recon c) name prev cur rerr h2 in
    let w1 := mkWorld (wq w) h3
                (calls w ++ [CGetByKey key; CReconcile cur;
                             CPostReconcile name prev cur rerr]) in
    Controller.processKey split c key w =
      match perr, rerr with
      | Some p, _ => (Controller.handleError c p key ;; ret true) w1
      | None, Some r => (Controller.handleError c r key ;; ret true) w1
      | None, None => Ok true w1
      end.
Proof.
  intros V split c key ns name obj ex w Hs Hi.
  exact (processKey_run split c key ns name obj ex w Hs Hi).
Qed.

Lemma post_reconcile_always_runs_witness :
  Samples.splitKey "root:foo" = inr ("", "root:foo") ∧
  Controller.indexer Samples.failingController "root:foo" = (None, false, None) ∧
  Controller.processKey Samples.splitKey Samples.failingController "root:foo"
    (mkWorld (Samples.dequeued "root:foo" 5) (∅ : gmap loc nat) []) =
    (Controller.handleError Samples.failingController
       (ErrOther "status update failed") "root:foo" ;; ret true)
      (mkWorld (Samples.dequeued "root:foo" 5) ∅
         [CGetByKey "root:foo"; CReconcile None;
          CPostReconcile "root:foo" None None (Some (ErrOther "reconcile failed"))]).
Proof.
  split; [reflexivity|]. split; [reflexivity|].
  apply (post_reconcile_always_runs nat Samples.splitKey Samples.failingController
           "root:foo" "" "root:foo" None false
           (mkWorld (Samples.dequeued "root:foo" 5) ∅ [])); reflexivity.
Defined.

(** C3 as stated fails: Reconcile fails with one error, PostReconcile with
    another; the error that reaches the retry policy, and from there the
    error sink, is the second alone. *)
Lemma post_error_replaces_reconcile_error :
  ∃ w',
    Controller.processNextItem Samples.splitKey Samples.failingController
      (mkWorld (Samples.queued "root:foo" 5) (∅ : gmap loc nat) []) = Ok true w' ∧
    calls w' =
      [CQueue (WorkQueue.QGet "root:foo"); CGetByKey "root:foo"; CReconcile None;
       CPostReconcile "root:foo" None None (Some (ErrOther "reconcile failed"));
       CQueue (WorkQueue.QForget "root:foo");
       CHandleError (ErrOther "status update failed");
       CQueue (WorkQueue.QDone "root:foo")] ∧
    ¬ carries (ErrOther "status update failed") (ErrOther "reconcile failed").
Proof.
  eexists. split; [reflexivity|]. split; [reflexivity|].
  intros H. inversion H.
Qed.

(** C4, on the code.  [New] sets the retry bound to 5 whatever
    [options.NumRequeues] is; with [NumRequeues: 2] the bound is 5, not 2. *)
Theorem New_ignores_NumRequeues :
  (∀ (V : Type) typeName (informer : Controller.SharedIndexInformer)
     (recon : @Controller.Reconciler V) (options : Controller.Options),
     Controller.numRequeues (Controller.New typeName informer recon options) = 5)
  ∧ Controller.NumRequeues Samples.twoRequeues = 2
  ∧ Controller.numRequeues
      (Controller.New "*Counter" Samples.emptyInformer Samples.failingReconciler
         Samples.twoRequeues) = 5.
Proof.
  split_and!; [|reflexivity|reflexivity].
  intros V typeName informer recon options. unfold Controller.New. simpl.
  by destruct (Controller.NumRequeues options =? 0)%Z.
Qed.



(** C6.  In the replication controller, for every dequeued key whose
    ClusterRole lookup returns NotFound, processing completes without error:
    neither the reconcile nor the commit logic is invoked, nothing is
    reported, the key is not re-added; the key's failure counter is reset by
    [Forget], and [Done] follows. *)
Theorem not_found_is_forgotten :
  ∀ (V : Type) (split : string -> error + (string * string * string))
    (c : @ReplicationClusterRole.controller V) (w : World V)
    key q' parent ns name err,
    WorkQueue.Get (wq w) = WorkQueue.GotItem key q' ->
    split key = inr (parent, ns, name) ->
    ReplicationClusterRole.clusterRoleLister c parent name = inl err ->
    IsNotFound err = true ->
    ReplicationClusterRole.process split c key
      (mkWorld q' (heap w) (calls w ++ [CQueue (WorkQueue.QGet key)])) =
      Ok (false, None)
         (mkWorld q' (heap w)
            (calls w ++ [CQueue (WorkQueue.QGet key);
                         CListerGet "clusterRole" parent name])) ∧
    ReplicationClusterRole.processNextWorkItem split c w =
      Ok true (mkWorld (WorkQueue.Done key (WorkQueue.Forget key q')) (heap w)
                 (calls w ++ [CQueue (WorkQueue.QGet key);
                              CListerGet "clusterRole" parent name;
                              CQueue (WorkQueue.QForget key);
                              CQueue (WorkQueue.QDone key)])) ∧
    WorkQueue.NumRequeues key (WorkQueue.Done key (WorkQueue.Forget key q')) = 0.
Proof.
  intros V split c w key q' parent ns name err Hget Hs Hl Hnf.
  assert (Hp : ReplicationClusterRole.process split c key
                 (mkWorld q' (heap w) (calls w ++ [CQueue (WorkQueue.QGet key)])) =
               Ok (false, None)
                  (mkWorld q' (heap w)
                     (calls w ++ [CQueue (WorkQueue.QGet key);
                                  CListerGet "clusterRole" parent name]))).
  { rewrite (process_lister_error split c key parent ns name err) by done.
    rewrite Hnf. unfold logged. simpl. by rewrite <- app_assoc. }
  split_and!; [done| |apply NumRequeues_Done_Forget].
  rewrite (processNextWorkItem_success_run split c w key q' false _ Hget Hp).
  simpl. by rewrite <- app_assoc.
Qed.

Lemma not_found_is_forgotten_witness :
  WorkQueue.Get (wq (mkWorld (Samples.queued "root|viewer" 3) (∅ : gmap loc nat) []))
    = WorkQueue.GotItem "root|viewer" (Samples.dequeued "root|viewer" 3) ∧
  Samples.splitClusterKey "root|viewer" = inr ("root", "", "viewer") ∧
  ReplicationClusterRole.clusterRoleLister (Samples.replication Samples.goneLister)
    "root" "viewer" = inl (ErrNotFound "clusterrole not found") ∧
  IsNotFound (ErrNotFound "clusterrole not found") = true ∧
  ReplicationClusterRole.processNextWorkItem Samples.splitClusterKey
    (Samples.replication Samples.goneLister)
    (mkWorld (Samples.queued "root|viewer" 3) ∅ []) =
    Ok true (mkWorld (WorkQueue.Done "root|viewer"
                        (WorkQueue.Forget "root|viewer"
                           (Samples.dequeued "root|viewer" 3))) ∅
               ([] ++ [CQueue (WorkQueue.QGet "root|viewer");
                       CListerGet "clusterRole" "root" "viewer";
                       CQueue (WorkQueue.QForget "root|viewer");
                       CQueue (WorkQueue.QDone "root|viewer")])).
Proof.
  split; [reflexivity|]. split; [reflexivity|]. split; [reflexivity|].
  split; [reflexivity|].
  apply (not_found_is_forgotten nat Samples.splitClusterKey
           (Samples.replication Samples.goneLister)
           (mkWorld (Samples.queued "root|viewer" 3) ∅ []) "root|viewer"
           (Samples.dequeued "root|viewer" 3) "root" "" "viewer"
           (ErrNotFound "clusterrole not found")); reflexivity.
Defined.

(** C7, as amended.  For every add, update or delete event on a CRD of the
    shadow workspace that carries both schema annotations, when the schema
    named by the annotations resolves and the lookups of the chain succeed,
    the controller calls [queue.Add] for the key of every APIBinding that
    the bindings-by-export index lists for an APIExport that references the
    schema, where the APIExports are those of the local index, or those of
    the remote-shard index when the local index has none; nothing else is
    added. *)
Theorem crd_change_reaches_bindings :
  ∀ (schemaCluster schemaName byExport bySchema : string)
    (toKey : string -> string -> string)
    (keyOf : APIBinding.Object -> error + string)
    (c : APIBinding.reconciler) (ev : APIBinding.Event) crd s keys
    (w : World APIBinding.Object),
    APIBinding.deref (heap w) (eventObject ev)
      = Some (APIBinding.CustomResourceDefinition crd) ->
    APIBinding.cluster crd = APIBinding.ShadowWorkspaceName ->
    APIBinding.annotation crd schemaCluster ≠ "" ->
    APIBinding.annotation crd schemaName ≠ "" ->
    resolveSchema toKey c (APIBinding.annotation crd schemaCluster)
      (APIBinding.annotation crd schemaName) = inr s ->
    dependentsOfSchema byExport bySchema keyOf c (heap w) s = Some keys ->
    ∃ cs,
      APIBinding.crdEvent schemaCluster schemaName byExport bySchema toKey keyOf c ev w =
        Ok tt (mkWorld (applyAll (map WorkQueue.QAdd keys) (wq w)) (heap w)
                 (calls w ++ cs)) ∧
      queueCalls cs = map WorkQueue.QAdd keys.
Proof.
  intros ck nk idxB idxE toKey keyOf c ev crd s keys w Hobj Hcl Hck Hnk Hres Hdep.
  destruct (crdEvent_passes ck nk idxB idxE toKey keyOf c ev w crd Hobj Hcl)
    as (cs0 & Hcs0 & ->).
  destruct (enqueueCRD_run ck nk idxB idxE toKey keyOf c (eventObject ev) crd
              (logged w cs0) s keys Hobj Hck Hnk Hres Hdep) as (cs1 & -> & Hq1).
  exists (cs0 ++ cs1)%list. simpl. split; [by rewrite <- app_assoc|].
  rewrite queueCalls_app, Hq1. by destruct Hcs0 as [->| ->].
Qed.

Lemma crd_change_reaches_bindings_witness :
  APIBinding.deref (heap Samples.bindingWorld)
    (eventObject (APIBinding.EvDelete (APIBinding.IPtr 1%positive)))
    = Some (APIBinding.CustomResourceDefinition
              (Samples.meta APIBinding.ShadowWorkspaceName "widgets.example.io"
                 {[ Samples.schemaClusterKey := "root:org";
                    Samples.schemaNameKey := "widgets" ]})) ∧
  resolveSchema Samples.toKey Samples.bindingReconciler "root:org" "widgets"
    = inr 2%positive ∧
  dependentsOfSchema Samples.byExport Samples.bySchema Samples.keyOf
    Samples.bindingReconciler (heap Samples.bindingWorld) 2%positive
    = Some ["root:ws1|b1"] ∧
  ∃ cs,
    APIBinding.crdEvent Samples.schemaClusterKey Samples.schemaNameKey
      Samples.byExport Samples.bySchema Samples.toKey Samples.keyOf
      Samples.bindingReconciler (APIBinding.EvDelete (APIBinding.IPtr 1%positive))
      Samples.bindingWorld =
      Ok tt (mkWorld (applyAll (map WorkQueue.QAdd ["root:ws1|b1"])
                        (wq Samples.bindingWorld))
               (heap Samples.bindingWorld) (calls Samples.bindingWorld ++ cs)) ∧
    queueCalls cs = map WorkQueue.QAdd ["root:ws1|b1"].
Proof.
  split; [reflexivity|]. split; [reflexivity|]. split; [reflexivity|].
  apply (crd_change_reaches_bindings Samples.schemaClusterKey Samples.schemaNameKey
           Samples.byExport Samples.bySchema Samples.toKey Samples.keyOf
           Samples.bindingReconciler (APIBinding.EvDelete (APIBinding.IPtr 1%positive))
           (Samples.meta APIBinding.ShadowWorkspaceName "widgets.example.io"
              {[ Samples.schemaClusterKey := "root:org";
                 Samples.schemaNameKey := "widgets" ]})
           2%positive ["root:ws1|b1"] Samples.bindingWorld);
    [reflexivity|reflexivity|by vm_compute|by vm_compute|reflexivity|reflexivity].
Defined.

(** C7 as stated fails: the schema [root:org|widgets] is referenced by a
    local APIExport, bound by [b1], and by a remote-shard APIExport, bound by
    [b2]; a change of the schema's CRD enqueues [b1] only. *)
Lemma remote_dependents_are_missed :
  APIBinding.temporaryRemoteShardApiExportsIndexer Samples.bindingReconciler
    Samples.bySchema "root:org|widgets" = inr [4%positive] ∧
  bindingsOfExport Samples.byExport Samples.keyOf Samples.bindingReconciler
    Samples.objects 4%positive = Some ["root:ws2|b2"] ∧
  ∃ w',
    APIBinding.crdEvent Samples.schemaClusterKey Samples.schemaNameKey
      Samples.byExport Samples.bySchema Samples.toKey Samples.keyOf
      Samples.bindingReconciler
      (APIBinding.EvUpdate (APIBinding.IPtr 1%positive) (APIBinding.IPtr 1%positive))
      Samples.bindingWorld = Ok tt w' ∧
    calls w' =
      [CListerGet "apiResourceSchema" "root:org" "widgets";
       CByIndex "apiExports" Samples.bySchema "root:org|widgets";
       CByIndex "apiBindings" Samples.byExport "root:org|local-export";
       CQueue (WorkQueue.QAdd "root:ws1|b1")] ∧
    CQueue (WorkQueue.QAdd "root:ws2|b2") ∉ calls w'.
Proof.
  split; [reflexivity|]. split; [reflexivity|].
  eexists. split; [vm_compute; reflexivity|]. split; [reflexivity|].
  simpl. intros Hin. repeat (apply elem_of_cons in Hin as [Hin|Hin]; [discriminate|]).
  by apply elem_of_nil in Hin.
Qed.




(** C9, as amended.  For every key whose object is present in the store,
    the copy handed to the reconciler is a new object with the contents of
    the snapshot: [DeepCopy] returns an address different from the
    snapshot's and leaves every other object as it was.  The step calls
    Reconcile (in the replication controller, [reconcile]) on the copy
    alone, in a heap where the snapshot holds its contents: when that method
    writes only through the pointer it is handed, the snapshot still holds
    them at the moment PostReconcile (in the replication controller,
    [commit]) is called.  That second method is handed the snapshot itself
    beside the copy, and the heap it leaves is the heap the step ends with:
    the step makes no write of its own, and does not undo one made through
    [prev]. *)
Theorem reconcile_is_handed_a_copy :
  (∀ (V : Type) (w : World V) l v,
     heap w !! l = Some v ->
     ∃ cur w1,
       DeepCopy (Some l) w = Ok (Some cur) w1 ∧
       cur ≠ l ∧
       heap w1 !! cur = Some v ∧ heap w1 !! l = Some v ∧
       (∀ l', l' ≠ cur -> heap w1 !! l' = heap w !! l') ∧
       wq w1 = wq w ∧ calls w1 = calls w)
  ∧
  (∀ (V : Type) (split : string -> error + (string * string))
     (c : @Controller.controller V) key ns name l ex v (w : World V),
     split key = inr (ns, name) ->
     Controller.indexer c key = (Some l, ex, None) ->
     heap w !! l = Some v ->
     let cur := fresh (dom (heap w)) in
     let h1 := <[cur := v]> (heap w) in
     let h2 := (Controller.Reconcile (Controller.recon c) (Some cur) h1).1 in
     let rerr := (Controller.Reconcile (Controller.recon c) (Some cur) h1).2 in
     let h3 := (Controller.PostReconcile (Controller.recon c) name (Some l) (Some cur)
                  rerr h2).1 in
     cur ≠ l ∧ h1 !! cur = Some v ∧ h1 !! l = Some v ∧
     (writesOnly (Controller.Reconcile (Controller.recon c) (Some cur)) (Some cur) ->
      h2 !! l = Some v) ∧
     ∃ rest w',
       Controller.processKey split c key w = Ok true w' ∧
       calls w' = (calls w ++ [CGetByKey key; CReconcile (Some cur);
                               CPostReconcile name (Some l) (Some cur) rerr] ++ rest)%list ∧
       heap w' = h3)
  ∧
  (∀ (V : Type) (split : string -> error + (string * string * string))
     (c : @ReplicationClusterRole.controller V) key parent ns name p v (w : World V),
     split key = inr (parent, ns, name) ->
     ReplicationClusterRole.clusterRoleLister c parent name = inr p ->
     heap w !! p = Some v ->
     let cr := fresh (dom (heap w)) in
     let h1 := <[cr := v]> (heap w) in
     let h2 := (ReplicationClusterRole.reconcile c (Some cr) h1).1 in
     let h3 := (ReplicationClusterRole.commit c (Some p) (Some cr) h2).1 in
     cr ≠ p ∧ h1 !! cr = Some v ∧ h1 !! p = Some v ∧
     (writesOnly (ReplicationClusterRole.reconcile c (Some cr)) (Some cr) ->
      h2 !! p = Some v) ∧
     ∃ r w',
       ReplicationClusterRole.process split c key w = Ok r w' ∧
       calls w' = (calls w ++ [CListerGet "clusterRole" parent name;
                               CReconcile (Some cr); CCommit (Some p) (Some cr)])%list ∧
       heap w' = h3).
Proof.
  split_and!.
  - intros V w l v. apply DeepCopy_present.
  - intros V split c key ns name l ex v w.
    apply processKey_snapshot_frame.
  - intros V split c key parent ns name p v w.
    apply process_snapshot_frame.
Qed.

Lemma reconcile_is_handed_a_copy_witness :
  (heap (Samples.fooWorld 0) !! 1%positive = Some 7%nat ∧
   ∃ cur w1,
     DeepCopy (Some 1%positive) (Samples.fooWorld 0) = Ok (Some cur) w1 ∧
     cur ≠ 1%positive ∧
     heap w1 !! cur = Some 7%nat ∧ heap w1 !! 1%positive = Some 7%nat ∧
     (∀ l', l' ≠ cur -> heap w1 !! l' = heap (Samples.fooWorld 0) !! l') ∧
     wq w1 = wq (Samples.fooWorld 0) ∧ calls w1 = calls (Samples.fooWorld 0))
  ∧
  (Samples.splitKey "root:foo" = inr ("", "root:foo") ∧
   Controller.indexer Samples.bumpController "root:foo" = (Some 1%positive, true, None) ∧
   let cur := fresh (dom (heap (Samples.fooWorld 0))) in
   let h1 := <[cur := 7%nat]> (heap (Samples.fooWorld 0)) in
   let h2 := (Controller.Reconcile (Controller.recon Samples.bumpController)
                (Some cur) h1).1 in
   let rerr := (Controller.Reconcile (Controller.recon Samples.bumpController)
                  (Some cur) h1).2 in
   let h3 := (Controller.PostReconcile (Controller.recon Samples.bumpController)
                "root:foo" (Some 1%positive) (Some cur) rerr h2).1 in
   cur ≠ 1%positive ∧ h1 !! cur = Some 7%nat ∧ h1 !! 1%positive = Some 7%nat ∧
   (writesOnly (Controller.Reconcile (Controller.recon Samples.bumpController)
                  (Some cur)) (Some cur) ->
    h2 !! 1%positive = Some 7%nat) ∧
   ∃ rest w',
     Controller.processKey Samples.splitKey Samples.bumpController "root:foo"
       (Samples.fooWorld 0) = Ok true w' ∧
     calls w' =
       (calls (Samples.fooWorld 0) ++
        [CGetByKey "root:foo"; CReconcile (Some cur);
         CPostReconcile "root:foo" (Some 1%positive) (Some cur) rerr] ++ rest)%list ∧
     heap w' = h3)
  ∧
  (∀ cur, writesOnly
            (Controller.Reconcile (Controller.recon Samples.bumpController) cur) cur)
  ∧
  (Samples.splitClusterKey "root|viewer" = inr ("root", "", "viewer") ∧
   ReplicationClusterRole.clusterRoleLister (Samples.replication Samples.foundLister)
     "root" "viewer" = inr 1%positive ∧
   let cr := fresh (dom (heap (MoreSamples.viewerWorld 0))) in
   let h1 := <[cr := 7%nat]> (heap (MoreSamples.viewerWorld 0)) in
   let h2 := (ReplicationClusterRole.reconcile
                (Samples.replication Samples.foundLister) (Some cr) h1).1 in
   let h3 := (ReplicationClusterRole.commit
                (Samples.replication Samples.foundLister) (Some 1%positive) (Some cr)
                h2).1 in
   cr ≠ 1%positive ∧ h1 !! cr = Some 7%nat ∧ h1 !! 1%positive = Some 7%nat ∧
   (writesOnly (ReplicationClusterRole.reconcile
                  (Samples.replication Samples.foundLister) (Some cr)) (Some cr) ->
    h2 !! 1%positive = Some 7%nat) ∧
   ∃ r w',
     ReplicationClusterRole.process Samples.splitClusterKey
       (Samples.replication Samples.foundLister) "root|viewer"
       (MoreSamples.viewerWorld 0) = Ok r w' ∧
     calls w' =
       (calls (MoreSamples.viewerWorld 0) ++
        [CListerGet "clusterRole" "root" "viewer"; CReconcile (Some cr);
         CCommit (Some 1%positive) (Some cr)])%list ∧
     heap w' = h3).
Proof.
  split_and!.
  - reflexivity.
  - apply (proj1 reconcile_is_handed_a_copy nat (Samples.fooWorld 0) 1%positive 7%nat).
    reflexivity.
  - reflexivity.
  - reflexivity.
  - apply (proj1 (proj2 reconcile_is_handed_a_copy) nat Samples.splitKey
             Samples.bumpController "root:foo" "" "root:foo" 1%positive true 7%nat
             (Samples.fooWorld 0)); reflexivity.
  - intros cur. exact (bump_writesOnly cur).
  - reflexivity.
  - reflexivity.
  - apply (proj2 (proj2 reconcile_is_handed_a_copy) nat Samples.splitClusterKey
             (Samples.replication Samples.foundLister) "root|viewer" "root" "" "viewer"
             1%positive 7%nat (MoreSamples.viewerWorld 0)); reflexivity.
Defined.

(** C9 as stated fails for a reconciler whose PostReconcile writes through
    [prev]: its Reconcile touches the copy alone, and yet the snapshot, 7
    in the store before the step, is 8 after it. *)
Lemma post_reconcile_can_write_to_snapshot :
  Samples.splitKey "root:foo" = inr ("", "root:foo") ∧
  Controller.indexer MoreSamples.meddlingController "root:foo"
    = (Some 1%positive, true, None) ∧
  heap (Samples.fooWorld 0) !! 1%positive = Some 7%nat ∧
  (∀ cur, writesOnly
            (Controller.Reconcile (Controller.recon MoreSamples.meddlingController) cur)
            cur) ∧
  ∃ w',
    Controller.processKey Samples.splitKey MoreSamples.meddlingController "root:foo"
      (Samples.fooWorld 0) = Ok true w' ∧
    calls w' =
      [CGetByKey "root:foo"; CReconcile (Some 2%positive);
       CPostReconcile "root:foo" (Some 1%positive) (Some 2%positive) None] ∧
    heap w' !! 1%positive = Some 8%nat.
Proof.
  split; [reflexivity|]. split; [reflexivity|]. split; [reflexivity|].
  split; [intros cur; exact (bump_writesOnly cur)|].
  eexists. split; [vm_compute; reflexivity|]. by split.
Qed.

(** C10.  For every APIResourceSchema event, the remote-shard APIExport
    index is consulted only when the local APIExport index returns an empty
    list for the schema's key: with any other local result no lookup in the
    remote-shard index appears among the calls made, and with a non-empty
    local result the outcome is the same whatever the remote-shard index
    holds, so APIBindings of remote-shard APIExports are not enqueued. *)
Theorem remote_index_only_when_local_empty :
  ∀ (byExport bySchema : string) (keyOf : APIBinding.Object -> error + string)
    (c : APIBinding.reconciler) obj logSuffix key (w : World APIBinding.Object),
    APIBinding.DeletionHandlingMetaNamespaceKeyFunc keyOf obj (heap w) = inr key ->
    (∀ w',
       APIBinding.enqueueAPIResourceSchema byExport bySchema keyOf c obj logSuffix w
         = Ok tt w' ->
       ∃ cs, extendsBy w w' cs ∧
             (APIBinding.apiExportsIndexer c bySchema key ≠ inr [] ->
              Forall (fun call => isRemoteExportLookup call = false) cs))
    ∧
    (∀ e es remote,
       APIBinding.apiExportsIndexer c bySchema key = inr (e :: es) ->
       APIBinding.enqueueAPIResourceSchema byExport bySchema keyOf
         (withRemoteExports c remote) obj logSuffix w =
       APIBinding.enqueueAPIResourceSchema byExport bySchema keyOf c obj logSuffix w).
Proof.
  intros idxB idxE keyOf c obj logSuffix key w Hk. split.
  - intros w' Hrun. by eapply enqueueAPIResourceSchema_trace.
  - intros e es remote Hes. by eapply enqueueAPIResourceSchema_ignores_remote.
Qed.

Lemma remote_index_only_when_local_empty_witness :
  APIBinding.DeletionHandlingMetaNamespaceKeyFunc Samples.keyOf
    (APIBinding.IPtr 2%positive) (heap Samples.bindingWorld) = inr "root:org|widgets" ∧
  APIBinding.apiExportsIndexer Samples.bindingReconciler Samples.bySchema
    "root:org|widgets" = inr [3%positive] ∧
  (∃ w',
     APIBinding.enqueueAPIResourceSchema Samples.byExport Samples.bySchema Samples.keyOf
       Samples.bindingReconciler (APIBinding.IPtr 2%positive) "" Samples.bindingWorld
       = Ok tt w' ∧
     queueCalls (calls w') = [WorkQueue.QAdd "root:ws1|b1"]) ∧
  (∀ w',
     APIBinding.enqueueAPIResourceSchema Samples.byExport Samples.bySchema Samples.keyOf
       Samples.bindingReconciler (APIBinding.IPtr 2%positive) "" Samples.bindingWorld
       = Ok tt w' ->
     ∃ cs, extendsBy Samples.bindingWorld w' cs ∧
           (APIBinding.apiExportsIndexer Samples.bindingReconciler Samples.bySchema
              "root:org|widgets" ≠ inr [] ->
            Forall (fun call => isRemoteExportLookup call = false) cs)) ∧
  (∀ e es remote,
     APIBinding.apiExportsIndexer Samples.bindingReconciler Samples.bySchema
       "root:org|widgets" = inr (e :: es) ->
     APIBinding.enqueueAPIResourceSchema Samples.byExport Samples.bySchema Samples.keyOf
       (withRemoteExports Samples.bindingReconciler remote)
       (APIBinding.IPtr 2%positive) "" Samples.bindingWorld =
     APIBinding.enqueueAPIResourceSchema Samples.byExport Samples.bySchema Samples.keyOf
       Samples.bindingReconciler (APIBinding.IPtr 2%positive) "" Samples.bindingWorld).
Proof.
  split; [reflexivity|]. split; [reflexivity|].
  split; [eexists; split; [vm_compute; reflexivity|reflexivity]|].
  apply (remote_index_only_when_local_empty Samples.byExport Samples.bySchema
           Samples.keyOf Samples.bindingReconciler (APIBinding.IPtr 2%positive) ""
           "root:org|widgets" Samples.bindingWorld).
  reflexivity.
Defined.

(** * Further properties of the controllers *)

(** ** What [Get] leaves in the queue *)

Lemma Get_item q key q' :
  WorkQueue.Get q = WorkQueue.GotItem key q' ->
  WorkQueue.queue q = key :: WorkQueue.queue q' ∧
  WorkQueue.failures q' = WorkQueue.failures q ∧
  WorkQueue.waiting q' = WorkQueue.waiting q ∧
  WorkQueue.shuttingDown q' = WorkQueue.shuttingDown q ∧
  key ∉ WorkQueue.dirty q' ∧ key ∈ WorkQueue.processing q'.
Proof.
  unfold WorkQueue.Get. destruct (WorkQueue.queue q) as [|k rest];
    [by destruct (WorkQueue.shuttingDown q)|].
  intros [= -> <-]. simpl. split_and!; try done.
  - intros [_ Hne]%elem_of_difference. apply Hne. by apply elem_of_singleton.
  - apply elem_of_union_l. by apply elem_of_singleton.
Qed.

Lemma NumRequeues_Get q key q' k :
  WorkQueue.Get q = WorkQueue.GotItem key q' ->
  WorkQueue.NumRequeues k q' = WorkQueue.NumRequeues k q.
Proof.
  intros (_ & Hf & _)%Get_item. unfold WorkQueue.NumRequeues. by rewrite Hf.
Qed.

Lemma NumRequeues_Done key q k :
  WorkQueue.NumRequeues k (WorkQueue.Done key q) = WorkQueue.NumRequeues k q.
Proof. unfold WorkQueue.NumRequeues. by rewrite Done_failures. Qed.

(** ** The generic controller: keys that are not retried *)

(** X1.  A dequeued key that [SplitMetaNamespaceKey] rejects is dropped: the
    store is not consulted, the reconciler is not called, the key is neither
    re-added nor forgotten nor reported; only the deferred [Done] runs, and
    the key's retry count stays what it was. *)
Theorem malformed_key_is_dropped :
  ∀ (V : Type) (split : string -> error + (string * string))
    (c : @Controller.controller V) (w : World V) key q' e,
    WorkQueue.Get (wq w) = WorkQueue.GotItem key q' ->
    split key = inl e ->
    Controller.processNextItem split c w =
      Ok true (mkWorld (WorkQueue.Done key q') (heap w)
                 (calls w ++ [CQueue (WorkQueue.QGet key);
                              CQueue (WorkQueue.QDone key)])) ∧
    WorkQueue.NumRequeues key (WorkQueue.Done key q') =
      WorkQueue.NumRequeues key (wq w).
Proof.
  intros V split c w key q' e Hget Hs. split.
  - rewrite (processNextItem_dequeue split c w key q') by done.
    erewrite defer_Done_Ok
      by (by rewrite (processKey_bad_key split c key e)).
    simpl. by rewrite <- app_assoc.
  - by rewrite NumRequeues_Done, (NumRequeues_Get _ _ _ _ Hget).
Qed.

(** X2.  In the generic controller a processing step that ends without
    error makes no queue call between [Get] and [Done] and reports nothing:
    in particular it does not call [Forget], so the retry count the key has
    accumulated in earlier failures is left as it is. *)
Theorem success_keeps_retry_count :
  ∀ (V : Type) (split : string -> error + (string * string))
    (c : @Controller.controller V) (w : World V) key q' ns name,
    WorkQueue.Get (wq w) = WorkQueue.GotItem key q' ->
    split key = inr (ns, name) ->
    processingError split c key (heap w) = None ->
    ∃ h' pre,
      queueCalls pre = [] ∧ reported pre = [] ∧
      Controller.processNextItem split c w =
        Ok true (mkWorld (WorkQueue.Done key q') h'
                   (calls w ++ [CQueue (WorkQueue.QGet key)] ++ pre ++
                    [CQueue (WorkQueue.QDone key)])) ∧
      WorkQueue.NumRequeues key (WorkQueue.Done key q') =
        WorkQueue.NumRequeues key (wq w).
Proof.
  intros V split c w key q' ns name Hget Hs Herr.
  unfold processingError in Herr. rewrite Hs in Herr.
  destruct (Controller.indexer c key) as [[obj ex] [e|]] eqn:Hi; [done|].
  pose proof (processKey_outcome split c key ns name obj ex
                (mkWorld q' (heap w) (calls w ++ [CQueue (WorkQueue.QGet key)])) Hs Hi)
    as Hrun.
  pose proof (reconcileOutcome_calls c key name obj (heap w)) as [Hq Hr].
  simpl in Hrun.
  destruct (reconcileOutcome c key name obj (heap w)) as [[h3 cs] err].
  simpl in *. subst err. exists h3, cs. split_and!; [done|done| |].
  - rewrite (processNextItem_dequeue split c w key q') by done.
    erewrite defer_Done_Ok by exact Hrun. simpl. by rewrite <- !app_assoc.
  - by rewrite NumRequeues_Done, (NumRequeues_Get _ _ _ _ Hget).
Qed.

(** X3.  When the store lookup of a dequeued key fails, the generic
    controller calls neither Reconcile nor PostReconcile and leaves the heap
    alone: after [GetByKey] the only calls are those of the retry policy for
    the lookup's error, and the deferred [Done]. *)
Theorem lookup_error_skips_reconciler :
  ∀ (V : Type) (split : string -> error + (string * string))
    (c : @Controller.controller V) (w : World V) key q' ns name obj ex e,
    WorkQueue.Get (wq w) = WorkQueue.GotItem key q' ->
    split key = inr (ns, name) ->
    Controller.indexer c key = (obj, ex, Some e) ->
    ∃ q'' policy,
      Controller.processNextItem split c w =
        Ok true (mkWorld q'' (heap w)
                   (calls w ++ [CQueue (WorkQueue.QGet key); CGetByKey key] ++
                    policy ++ [CQueue (WorkQueue.QDone key)])) ∧
      (policy = [CQueue (WorkQueue.QAddRateLimited key)] ∨
       policy = [CQueue (WorkQueue.QForget key); CHandleError e]).
Proof.
  intros V split c w key q' ns name obj ex e Hget Hs Hi.
  rewrite (processNextItem_dequeue split c w key q') by done.
  destruct (handleError_total c e key
              (logged (mkWorld q' (heap w) (calls w ++ [CQueue (WorkQueue.QGet key)]))
                      [CGetByKey key])) as (q'' & cs & He & Hcs).
  eexists _, cs. split; [|exact Hcs].
  erewrite defer_Done_Ok.
  2:{ rewrite (processKey_lookup_error split c key ns name obj ex e) by done.
      unfold bind. rewrite He. reflexivity. }
  simpl. by rewrite <- !app_assoc.
Qed.

(** ** The generic controller: a key that keeps failing *)

Lemma reported_app (cs1 cs2 : list Call) :
  reported (cs1 ++ cs2) = (reported cs1 ++ reported cs2)%list.
Proof. unfold reported. apply omap_app. Qed.

Lemma Get_single q key :
  WorkQueue.queue q = [key] ->
  WorkQueue.Get q =
    WorkQueue.GotItem key
      {| WorkQueue.queue := [];
         WorkQueue.dirty := WorkQueue.dirty q ∖ {[key]};
         WorkQueue.processing := {[key]} ∪ WorkQueue.processing q;
         WorkQueue.failures := WorkQueue.failures q;
         WorkQueue.waiting := WorkQueue.waiting q;
         WorkQueue.shuttingDown := WorkQueue.shuttingDown q |}.
Proof. intros Hq. unfold WorkQueue.Get. by rewrite Hq. Qed.

(** The queue after a failed attempt on [key] and the expiry of its delay. *)
Lemma expire_after_retry q key :
  WorkQueue.queue q = [] -> WorkQueue.waiting q = [] ->
  WorkQueue.shuttingDown q = false -> key ∉ WorkQueue.dirty q ->
  let q2 := WorkQueue.expire 0
              (WorkQueue.Done key (WorkQueue.AddRateLimited key q)) in
  WorkQueue.queue q2 = [key] ∧ WorkQueue.waiting q2 = [] ∧
  WorkQueue.shuttingDown q2 = false ∧
  WorkQueue.NumRequeues key q2 = WorkQueue.NumRequeues key q + 1.
Proof.
  intros Hq Hw Hs Hd. simpl.
  unfold WorkQueue.Done. simpl. rewrite decide_False by done.
  unfold WorkQueue.expire. simpl. rewrite Hw. simpl.
  unfold WorkQueue.Add. simpl. rewrite Hs.
  rewrite decide_False by done.
  rewrite decide_False.
  2:{ intros [_ Hne]%elem_of_difference. apply Hne. by apply elem_of_singleton. }
  simpl. rewrite Hq. split_and!; try done.
  unfold WorkQueue.NumRequeues. simpl. rewrite lookup_insert_eq. simpl. lia.
Qed.

(** The queue after the attempt that exhausts the retries of [key]. *)
Lemma expire_after_forget q key :
  WorkQueue.queue q = [] -> WorkQueue.waiting q = [] -> key ∉ WorkQueue.dirty q ->
  let q2 := WorkQueue.expire 0 (WorkQueue.Done key (WorkQueue.Forget key q)) in
  WorkQueue.queue q2 = [] ∧ WorkQueue.waiting q2 = [] ∧
  WorkQueue.NumRequeues key q2 = 0.
Proof.
  intros Hq Hw Hd. simpl.
  unfold WorkQueue.Done. simpl. rewrite decide_False by done.
  unfold WorkQueue.expire. simpl. rewrite Hw. simpl. split_and!; try done.
  unfold WorkQueue.NumRequeues. simpl. by rewrite lookup_delete_eq.
Qed.

Section BoundedRetry.
Context {V : Type}.
Variable split : string -> error + (string * string).
Variable c : @Controller.controller V.
Variable key : string.
Variable e : error.
Hypothesis always_fails : ∀ h, processingError split c key h = Some e.

Lemma retryRounds_run (m : nat) :
  ∀ (i : nat) (w : World V),
    Controller.numRequeues c = Z.of_nat (i + m) ->
    WorkQueue.queue (wq w) = [key] ->
    WorkQueue.waiting (wq w) = [] ->
    WorkQueue.shuttingDown (wq w) = false ->
    WorkQueue.NumRequeues key (wq w) = Z.of_nat i ->
    ∃ w' cs,
      retryRounds split c (S m) w = Ok tt w' ∧
      calls w' = (calls w ++ cs)%list ∧
      queueCalls cs =
        (concat (replicate m [WorkQueue.QGet key; WorkQueue.QAddRateLimited key;
                              WorkQueue.QDone key]) ++
         [WorkQueue.QGet key; WorkQueue.QForget key; WorkQueue.QDone key])%list ∧
      reported cs = [e] ∧
      WorkQueue.queue (wq w') = [] ∧ WorkQueue.waiting (wq w') = [] ∧
      WorkQueue.NumRequeues key (wq w') = 0.
Proof.
  induction m as [|m IH]; intros i w Hn Hq Hw Hs Hc.
  - pose proof (Get_single _ _ Hq) as Hget.
    destruct (processNextItem_error_run split c w key _ e Hget (always_fails _))
      as (h' & pre & Hqp & Hrp & _ & Hhigh).
    cbn [retryRounds]. erewrite bind_Ok.
    2:{ apply Hhigh. rewrite (NumRequeues_Get _ _ _ _ Hget). lia. }
    unfold bind, modify, ret. cbn [wq heap calls].
    eexists _, _. split; [reflexivity|]. cbn [wq heap calls].
    split; [reflexivity|].
    rewrite !queueCalls_app, !reported_app, Hqp, Hrp. simpl.
    split; [done|]. split; [done|].
    apply expire_after_forget; simpl; try done.
    intros [_ Hne]%elem_of_difference. apply Hne. by apply elem_of_singleton.
  - pose proof (Get_single _ _ Hq) as Hget.
    destruct (processNextItem_error_run split c w key _ e Hget (always_fails _))
      as (h' & pre & Hqp & Hrp & Hlow & _).
    set (q' := {| WorkQueue.queue := [];
                  WorkQueue.dirty := WorkQueue.dirty (wq w) ∖ {[key]};
                  WorkQueue.processing := {[key]} ∪ WorkQueue.processing (wq w);
                  WorkQueue.failures := WorkQueue.failures (wq w);
                  WorkQueue.waiting := WorkQueue.waiting (wq w);
                  WorkQueue.shuttingDown := WorkQueue.shuttingDown (wq w) |}) in *.
    assert (Hq' : WorkQueue.NumRequeues key q' = Z.of_nat i)
      by (by rewrite (NumRequeues_Get _ _ _ _ Hget)).
    destruct (expire_after_retry q' key) as (Hq2 & Hw2 & Hs2 & Hc2); try done.
    { intros [_ Hne]%elem_of_difference. apply Hne. by apply elem_of_singleton. }
    set (w1 := mkWorld
                 (WorkQueue.expire 0
                    (WorkQueue.Done key (WorkQueue.AddRateLimited key q'))) h'
                 (calls w ++ [CQueue (WorkQueue.QGet key)] ++ pre ++
                  [CQueue (WorkQueue.QAddRateLimited key);
                   CQueue (WorkQueue.QDone key)])).
    destruct (IH (S i) w1) as (w' & cs & Hrun & Hcalls & Hqc & Hrep & Hfin);
      [lia|done|done|done|simpl; lia|].
    exists w', ([CQueue (WorkQueue.QGet key)] ++ pre ++
                [CQueue (WorkQueue.QAddRateLimited key);
                 CQueue (WorkQueue.QDone key)] ++ cs)%list.
    split_and!.
    + change (retryRounds split c (S (S m)) w)
        with ((Controller.processNextItem split c ;;
               modify (fun w => mkWorld (WorkQueue.expire 0 (wq w)) (heap w) (calls w)) ;;
               retryRounds split c (S m)) w).
      erewrite bind_Ok; [|apply Hlow; lia]. exact Hrun.
    + rewrite Hcalls. unfold w1. cbn [calls]. rewrite <- ?app_assoc. simpl.
      by rewrite <- ?app_assoc.
    + rewrite !queueCalls_app, Hqp, Hqc. reflexivity.
    + rewrite !reported_app, Hrp, Hrep. reflexivity.
    + apply Hfin.
    + apply Hfin.
    + apply Hfin.
Qed.

End BoundedRetry.

(** X4.  With a retry bound of [n], a key whose processing fails every time
    is attempted [n + 1] times: the first [n] attempts re-add it
    rate-limited, the last one forgets it and reports the error, once;
    afterwards the key is neither queued nor waiting and its retry count is
    back to zero. *)
Theorem failing_key_is_retried_then_dropped :
  ∀ (V : Type) (split : string -> error + (string * string))
    (c : @Controller.controller V) key e (n : nat) (w : World V),
    (∀ h, processingError split c key h = Some e) ->
    Controller.numRequeues c = Z.of_nat n ->
    WorkQueue.queue (wq w) = [key] ->
    WorkQueue.waiting (wq w) = [] ->
    WorkQueue.shuttingDown (wq w) = false ->
    WorkQueue.NumRequeues key (wq w) = 0 ->
    ∃ w' cs,
      retryRounds split c (S n) w = Ok tt w' ∧
      calls w' = (calls w ++ cs)%list ∧
      queueCalls cs =
        (concat (replicate n [WorkQueue.QGet key; WorkQueue.QAddRateLimited key;
                              WorkQueue.QDone key]) ++
         [WorkQueue.QGet key; WorkQueue.QForget key; WorkQueue.QDone key])%list ∧
      reported cs = [e] ∧
      WorkQueue.queue (wq w') = [] ∧ WorkQueue.waiting (wq w') = [] ∧
      WorkQueue.NumRequeues key (wq w') = 0.
Proof.
  intros V split c key e n w Hfail Hn Hq Hw Hs Hc.
  by apply (retryRounds_run split c key e Hfail n 0%nat w).
Qed.

(** ** The replication controller: outcomes of a processing step *)

Lemma Add_failures key q : WorkQueue.failures (WorkQueue.Add key q) = WorkQueue.failures q.
Proof. unfold WorkQueue.Add. repeat case_match; reflexivity. Qed.

Lemma NumRequeues_AddRateLimited key q :
  WorkQueue.NumRequeues key (WorkQueue.AddRateLimited key q)
    = WorkQueue.NumRequeues key q + 1.
Proof.
  unfold WorkQueue.NumRequeues. simpl. rewrite lookup_insert_eq. simpl. lia.
Qed.

(** [process] leaves the queue alone. *)
Lemma process_keeps_queue {V} (split : string -> error + (string * string * string))
    (c : @ReplicationClusterRole.controller V) key (w : World V) r w1 :
  ReplicationClusterRole.process split c key w = Ok r w1 -> wq w1 = wq w.
Proof.
  intros Hp. destruct (process_total split c key w) as (r' & h' & mid & Hrun & _).
  rewrite Hrun in Hp. by injection Hp as _ <-.
Qed.

(** X5.  [process] on a ClusterRole that the lister finds: the commit runs
    whether or not the reconcile failed, on the heap the reconcile left; the
    error returned is nil exactly when both succeeded, and otherwise one
    aggregate that carries every error the two returned. *)
Theorem process_aggregates_errors :
  ∀ (V : Type) (split : string -> error + (string * string * string))
    (c : @ReplicationClusterRole.controller V) key parent ns name p (w : World V),
    split key = inr (parent, ns, name) ->
    ReplicationClusterRole.clusterRoleLister c parent name = inr p ->
    let '(old, cr, h1) := snapshotPair (Some p) (heap w) in
    let '(h2, (requeue, rerr)) := ReplicationClusterRole.reconcile c cr h1 in
    let '(h3, cerr) := ReplicationClusterRole.commit c old cr h2 in
    ∃ res,
      ReplicationClusterRole.process split c key w =
        Ok (requeue, res)
           (mkWorld (wq w) h3
              (calls w ++ [CListerGet "clusterRole" parent name; CReconcile cr;
                           CCommit old cr])) ∧
      (res = None ↔ rerr = None ∧ cerr = None) ∧
      (∀ e, rerr = Some e ∨ cerr = Some e -> ∃ agg, res = Some agg ∧ carries agg e).
Proof.
  intros V split c key parent ns name p w Hs Hl.
  pose proof (process_run split c key parent ns name p w Hs Hl) as Hrun.
  destruct (snapshotPair (Some p) (heap w)) as [[old cr] h1].
  destruct (ReplicationClusterRole.reconcile c cr h1) as [h2 [requeue rerr]].
  destruct (ReplicationClusterRole.commit c old cr h2) as [h3 cerr].
  eexists. split; [exact Hrun|].
  destruct rerr as [r|], cerr as [k|]; simpl; split.
  - split; [done|]. by intros [? ?].
  - intros e [[= ->]|[= ->]]; eexists; (split; [reflexivity|]).
    + by eapply carries_aggregate; [left|constructor].
    + by eapply carries_aggregate; [right; left|constructor].
  - split; [done|]. by intros [? ?].
  - intros e [[= ->]|[=]]; eexists; (split; [reflexivity|]).
    by eapply carries_aggregate; [left|constructor].
  - split; [done|]. by intros [? ?].
  - intros e [[=]|[= ->]]; eexists; (split; [reflexivity|]).
    by eapply carries_aggregate; [left|constructor].
  - done.
  - by intros e [[=]|[=]].
Qed.

(** X6.  In the replication controller a dequeued key that cannot be split
    is reported to the error sink as it is, once, and then forgotten: the
    lister, the reconcile and the commit are not called, the key is not
    re-added, and its retry count is reset. *)
Theorem unsplittable_key_is_forgotten :
  ∀ (V : Type) (split : string -> error + (string * string * string))
    (c : @ReplicationClusterRole.controller V) (w : World V) key q' e,
    WorkQueue.Get (wq w) = WorkQueue.GotItem key q' ->
    split key = inl e ->
    ReplicationClusterRole.processNextWorkItem split c w =
      Ok true (mkWorld (WorkQueue.Done key (WorkQueue.Forget key q')) (heap w)
                 (calls w ++ [CQueue (WorkQueue.QGet key); CHandleError e;
                              CQueue (WorkQueue.QForget key);
                              CQueue (WorkQueue.QDone key)])) ∧
    WorkQueue.NumRequeues key (WorkQueue.Done key (WorkQueue.Forget key q')) = 0.
Proof.
  intros V split c w key q' e Hget Hs. split; [|apply NumRequeues_Done_Forget].
  erewrite (processNextWorkItem_success_run split c w key q' false) by
    (first [exact Hget | by apply process_bad_key]).
  simpl. by rewrite <- !app_assoc.
Qed.

(** X7.  How one step of the replication controller moves the retry count
    of the key it dequeued: an error of [process] adds one, a success
    without requeue resets it to zero, a requeue leaves it as it is. *)
Theorem replication_retry_count :
  ∀ (V : Type) (split : string -> error + (string * string * string))
    (c : @ReplicationClusterRole.controller V) (w : World V) key q',
    WorkQueue.Get (wq w) = WorkQueue.GotItem key q' ->
    ∃ requeue err w1 w',
      ReplicationClusterRole.process split c key
        (mkWorld q' (heap w) (calls w ++ [CQueue (WorkQueue.QGet key)]))
        = Ok (requeue, err) w1 ∧
      ReplicationClusterRole.processNextWorkItem split c w = Ok true w' ∧
      WorkQueue.NumRequeues key (wq w') =
        match err with
        | Some _ => WorkQueue.NumRequeues key (wq w) + 1
        | None => if requeue then WorkQueue.NumRequeues key (wq w) else 0
        end.
Proof.
  intros V split c w key q' Hget.
  destruct (process_total split c key
              (mkWorld q' (heap w) (calls w ++ [CQueue (WorkQueue.QGet key)])))
    as ([requeue err] & h' & mid & Hrun & _).
  simpl in Hrun. exists requeue, err. eexists. destruct err as [e|].
  - eexists. split; [exact Hrun|]. split.
    + by eapply processNextWorkItem_error_run.
    + simpl. rewrite NumRequeues_Done, NumRequeues_AddRateLimited.
      by rewrite (NumRequeues_Get _ _ _ _ Hget).
  - destruct requeue.
    + eexists. split; [exact Hrun|]. split.
      * by rewrite (processNextWorkItem_success_run split c w key q' true _ Hget Hrun).
      * simpl. rewrite NumRequeues_Done. unfold WorkQueue.NumRequeues.
        rewrite Add_failures. by destruct (Get_item _ _ _ Hget) as (_ & -> & _).
    + eexists. split; [exact Hrun|]. split.
      * by rewrite (processNextWorkItem_success_run split c w key q' false _ Hget Hrun).
      * simpl. apply NumRequeues_Done_Forget.
Qed.

(** X8.  When the reconcile of the replication controller asks for a
    requeue without error and the queue is not shutting down, the key is
    back in the queue when the step returns, behind the keys that were
    queued after it. *)
Theorem requeue_returns_key_to_queue :
  ∀ (V : Type) (split : string -> error + (string * string * string))
    (c : @ReplicationClusterRole.controller V) (w : World V) key q' w1,
    WorkQueue.Get (wq w) = WorkQueue.GotItem key q' ->
    ReplicationClusterRole.process split c key
      (mkWorld q' (heap w) (calls w ++ [CQueue (WorkQueue.QGet key)]))
      = Ok (true, None) w1 ->
    WorkQueue.shuttingDown (wq w) = false ->
    ∃ w',
      ReplicationClusterRole.processNextWorkItem split c w = Ok true w' ∧
      WorkQueue.queue (wq w) = key :: WorkQueue.queue q' ∧
      WorkQueue.queue (wq w') = (WorkQueue.queue q' ++ [key])%list.
Proof.
  intros V split c w key q' w1 Hget Hp Hs.
  pose proof (process_keeps_queue _ _ _ _ _ _ Hp) as Hq. simpl in Hq.
  destruct (Get_item _ _ _ Hget) as (Hqueue & _ & _ & Hsd & Hd & Hpr).
  eexists. split; [|split; [exact Hqueue|]].
  - by rewrite (processNextWorkItem_success_run split c w key q' true _ Hget Hp).
  - simpl. rewrite Hq. unfold WorkQueue.Add. rewrite Hsd, Hs.
    rewrite decide_False by done. rewrite decide_True by done.
    unfold WorkQueue.Done. simpl. rewrite decide_True; [done|].
    apply elem_of_union_l. by apply elem_of_singleton.
Qed.

(** X9.  [enqueueClusterRoleBinding] on a ClusterRoleBinding, or on the
    tombstone of one.  When the RoleRef names a ClusterRole of the rbac
    group, the lister finds that ClusterRole and the key function gives its
    key, the handler makes the lookup and then exactly one [Add], of that
    key.  In every run that returns the heap is untouched, and a queue call
    is made only under those conditions.  The handler panics exactly when
    the object is a nil binding pointer (bare or in a tombstone), before it
    has made any call; on every other object it returns. *)
Theorem binding_event_enqueues_its_role :
  ∀ (V : Type) (GroupName : string)
    (keyOf : ReplicationClusterRole.Iface -> gmap loc V -> error + string)
    (c : @ReplicationClusterRole.controller V) obj (w : World V),
    (∀ crb p key,
       obj = ReplicationClusterRole.IClusterRoleBinding (Some crb) ∨
       (∃ k, obj = ReplicationClusterRole.ITombstone k
                     (ReplicationClusterRole.IClusterRoleBinding (Some crb))) ->
       ReplicationClusterRole.Kind (ReplicationClusterRole.roleRef crb) = "ClusterRole" ->
       ReplicationClusterRole.APIGroup (ReplicationClusterRole.roleRef crb) = GroupName ->
       ReplicationClusterRole.clusterRoleLister c
         (ReplicationClusterRole.crbCluster crb)
         (ReplicationClusterRole.Name (ReplicationClusterRole.roleRef crb)) = inr p ->
       keyOf (ReplicationClusterRole.IClusterRole p) (heap w) = inr key ->
       ReplicationClusterRole.enqueueClusterRoleBinding GroupName keyOf c obj w =
         Ok tt (mkWorld (WorkQueue.Add key (wq w)) (heap w)
                  (calls w ++
                   [CListerGet "clusterRole" (ReplicationClusterRole.crbCluster crb)
                      (ReplicationClusterRole.Name (ReplicationClusterRole.roleRef crb));
                    CQueue (WorkQueue.QAdd key)])))
    ∧
    (∀ w',
       ReplicationClusterRole.enqueueClusterRoleBinding GroupName keyOf c obj w
         = Ok tt w' ->
       ∃ cs,
         heap w' = heap w ∧ calls w' = (calls w ++ cs)%list ∧
         ((queueCalls cs = [] ∧ wq w' = wq w) ∨
          (∃ crb p key,
             (obj = ReplicationClusterRole.IClusterRoleBinding (Some crb) ∨
              ∃ k, obj = ReplicationClusterRole.ITombstone k
                           (ReplicationClusterRole.IClusterRoleBinding (Some crb))) ∧
             ReplicationClusterRole.Kind (ReplicationClusterRole.roleRef crb)
               = "ClusterRole" ∧
             ReplicationClusterRole.APIGroup (ReplicationClusterRole.roleRef crb)
               = GroupName ∧
             ReplicationClusterRole.clusterRoleLister c
               (ReplicationClusterRole.crbCluster crb)
               (ReplicationClusterRole.Name (ReplicationClusterRole.roleRef crb))
               = inr p ∧
             keyOf (ReplicationClusterRole.IClusterRole p) (heap w) = inr key ∧
             queueCalls cs = [WorkQueue.QAdd key] ∧
             wq w' = WorkQueue.Add key (wq w))))
    ∧
    (obj = ReplicationClusterRole.IClusterRoleBinding None ∨
     (∃ k, obj = ReplicationClusterRole.ITombstone k
                   (ReplicationClusterRole.IClusterRoleBinding None)) ->
     ReplicationClusterRole.enqueueClusterRoleBinding GroupName keyOf c obj w =
       Panic "invalid memory address or nil pointer dereference" w)
    ∧
    (¬ (obj = ReplicationClusterRole.IClusterRoleBinding None ∨
        (∃ k, obj = ReplicationClusterRole.ITombstone k
                      (ReplicationClusterRole.IClusterRoleBinding None))) ->
     ∃ w', ReplicationClusterRole.enqueueClusterRoleBinding GroupName keyOf c obj w
             = Ok tt w').
Proof.
  intros V GroupName keyOf c obj w.
  assert (Hmain : ∀ crb, ∃ w' cs,
      ReplicationClusterRole.enqueueClusterRoleBinding GroupName keyOf c
        (ReplicationClusterRole.IClusterRoleBinding (Some crb)) w = Ok tt w' ∧
      heap w' = heap w ∧ calls w' = (calls w ++ cs)%list ∧
      ((queueCalls cs = [] ∧ wq w' = wq w) ∨
       (∃ p key,
          ReplicationClusterRole.Kind (ReplicationClusterRole.roleRef crb)
            = "ClusterRole" ∧
          ReplicationClusterRole.APIGroup (ReplicationClusterRole.roleRef crb)
            = GroupName ∧
          ReplicationClusterRole.clusterRoleLister c
            (ReplicationClusterRole.crbCluster crb)
            (ReplicationClusterRole.Name (ReplicationClusterRole.roleRef crb)) = inr p ∧
          keyOf (ReplicationClusterRole.IClusterRole p) (heap w) = inr key ∧
          queueCalls cs = [WorkQueue.QAdd key] ∧
          wq w' = WorkQueue.Add key (wq w)))).
  { intros crb. unfold ReplicationClusterRole.enqueueClusterRoleBinding.
    destruct (String.eqb_spec
                (ReplicationClusterRole.Kind (ReplicationClusterRole.roleRef crb))
                "ClusterRole") as [Hk|Hk]; simpl;
      [|exists w, []; split_and!; [done|done|by rewrite app_nil_r|by left]].
    destruct (String.eqb_spec
                (ReplicationClusterRole.APIGroup (ReplicationClusterRole.roleRef crb))
                GroupName) as [Hg|Hg]; simpl;
      [|exists w, []; split_and!; [done|done|by rewrite app_nil_r|by left]].
    unfold bind at 1. simpl.
    destruct (ReplicationClusterRole.clusterRoleLister c _ _) as [err|p] eqn:Hl.
    - eexists _, [_; _].
      split_and!; [reflexivity|done|simpl; by rewrite <- app_assoc|left; done].
    - unfold ReplicationClusterRole.enqueueClusterRole, bind, get. simpl.
      destruct (keyOf (ReplicationClusterRole.IClusterRole p) (heap w))
        as [err|key] eqn:Hkey.
      + eexists _, [_; _].
        split_and!; [reflexivity|done|simpl; by rewrite <- app_assoc|left; done].
      + eexists _, [_; _].
        split_and!; [reflexivity|done|simpl; by rewrite <- app_assoc|].
        right. by exists p, key. }
  assert (Hsame : ∀ k o,
      ReplicationClusterRole.enqueueClusterRoleBinding GroupName keyOf c
        (ReplicationClusterRole.ITombstone k
           (ReplicationClusterRole.IClusterRoleBinding o)) w =
      ReplicationClusterRole.enqueueClusterRoleBinding GroupName keyOf c
        (ReplicationClusterRole.IClusterRoleBinding o) w) by done.
  split_and!.
  - intros crb p key Hobj Hk Hg Hl Hkey.
    assert (Hrun : ReplicationClusterRole.enqueueClusterRoleBinding GroupName keyOf c
                     (ReplicationClusterRole.IClusterRoleBinding (Some crb)) w =
                   Ok tt (mkWorld (WorkQueue.Add key (wq w)) (heap w)
                     (calls w ++
                      [CListerGet "clusterRole" (ReplicationClusterRole.crbCluster crb)
                         (ReplicationClusterRole.Name
                            (ReplicationClusterRole.roleRef crb));
                       CQueue (WorkQueue.QAdd key)]))).
    { unfold ReplicationClusterRole.enqueueClusterRoleBinding.
      rewrite Hk, Hg, !String.eqb_refl. simpl.
      unfold bind at 1. simpl. rewrite Hl.
      unfold ReplicationClusterRole.enqueueClusterRole, bind, get. simpl.
      rewrite Hkey. unfold queueAdd, bind, call, modify. simpl.
      by rewrite <- app_assoc. }
    destruct Hobj as [->|[k ->]]; [exact Hrun|by rewrite Hsame].
  - intros w' Hrun.
    destruct obj as [p|[crb|]|k [p|[crb|]|k' o'|typ]|typ];
      try (injection Hrun as <-; exists [CHandleError (ErrOther "unexpected type")];
           split_and!; [done|done|by left]);
      try discriminate Hrun.
    + destruct (Hmain crb) as (w1 & cs & Hrun1 & Hh & Hc & Hq).
      rewrite Hrun1 in Hrun. injection Hrun as <-.
      exists cs. split_and!; [done|done|].
      destruct Hq as [Hq|(p & key & Hq)]; [by left|].
      right. exists crb, p, key. split; [by left|done].
    + rewrite Hsame in Hrun.
      destruct (Hmain crb) as (w1 & cs & Hrun1 & Hh & Hc & Hq).
      rewrite Hrun1 in Hrun. injection Hrun as <-.
      exists cs. split_and!; [done|done|].
      destruct Hq as [Hq|(p & key & Hq)]; [by left|].
      right. exists crb, p, key. split; [right; by exists k|done].
  - by intros [->|[k ->]].
  - intros Hnil.
    destruct obj as [p|[crb|]|k [p|[crb|]|k' o'|typ]|typ];
      try (eexists; reflexivity).
    + destruct (Hmain crb) as (w1 & cs & Hrun1 & _). by exists w1.
    + destruct Hnil. by left.
    + rewrite Hsame. destruct (Hmain crb) as (w1 & cs & Hrun1 & _). by exists w1.
    + destruct Hnil. right. by exists k.
Qed.

(** ** The worker loop of the replication controller *)

Lemma gotKeys_app (cs1 cs2 : list Call) :
  gotKeys (cs1 ++ cs2) = (gotKeys cs1 ++ gotKeys cs2)%list.
Proof. unfold gotKeys. by rewrite queueCalls_app, omap_app. Qed.

Lemma doneKeys_app (cs1 cs2 : list Call) :
  doneKeys (cs1 ++ cs2) = (doneKeys cs1 ++ doneKeys cs2)%list.
Proof. unfold doneKeys. by rewrite queueCalls_app, omap_app. Qed.

Lemma processNextWorkItem_shutdown {V}
    (split : string -> error + (string * string * string))
    (c : @ReplicationClusterRole.controller V) (w : World V) :
  WorkQueue.Get (wq w) = WorkQueue.GotShutdown ->
  ReplicationClusterRole.processNextWorkItem split c w = Ok false w.
Proof.
  intros Hget. unfold ReplicationClusterRole.processNextWorkItem, bind at 1, queueGet.
  by rewrite Hget.
Qed.

(** Once the queue is shutting down, a worker step takes the head of the
    queue and puts nothing back. *)
Lemma step_while_shutting_down q' key ops :
  WorkQueue.shuttingDown q' = true -> key ∉ WorkQueue.dirty q' ->
  Workers.betweenGetAndDone key ops ->
  WorkQueue.queue (WorkQueue.Done key (applyAll ops q')) = WorkQueue.queue q' ∧
  WorkQueue.shuttingDown (WorkQueue.Done key (applyAll ops q')) = true.
Proof.
  intros Hs Hd Hops.
  assert (Hdone : ∀ q, WorkQueue.shuttingDown q = true -> key ∉ WorkQueue.dirty q ->
            WorkQueue.queue (WorkQueue.Done key q) = WorkQueue.queue q ∧
            WorkQueue.shuttingDown (WorkQueue.Done key q) = true).
  { intros q Hsq Hdq. unfold WorkQueue.Done. by rewrite decide_False. }
  destruct Hops as [-> | [-> | [-> | ->]]]; simpl.
  - by apply Hdone.
  - by apply (Hdone (WorkQueue.AddRateLimited key q')).
  - by apply (Hdone (WorkQueue.Forget key q')).
  - unfold WorkQueue.Add. rewrite Hs. by apply Hdone.
Qed.

Lemma startWorker_drains {V} (split : string -> error + (string * string * string))
    (c : @ReplicationClusterRole.controller V) (keys : list string) :
  ∀ w : World V,
    WorkQueue.shuttingDown (wq w) = true ->
    WorkQueue.queue (wq w) = keys ->
    ∃ w' cs,
      ReplicationWorker.startWorker split (S (length keys)) c w = Ok (Some tt) w' ∧
      calls w' = (calls w ++ cs)%list ∧
      gotKeys cs = keys ∧ doneKeys cs = keys ∧
      WorkQueue.queue (wq w') = [].
Proof.
  induction keys as [|key rest IH]; intros w Hs Hq.
  - exists w, []. split_and!; try done; [|by rewrite app_nil_r].
    cbn [length ReplicationWorker.startWorker].
    erewrite bind_Ok.
    2:{ apply processNextWorkItem_shutdown. unfold WorkQueue.Get. by rewrite Hq, Hs. }
    reflexivity.
  - assert (Hget : ∃ q', WorkQueue.Get (wq w) = WorkQueue.GotItem key q').
    { unfold WorkQueue.Get. rewrite Hq. eauto. }
    destruct Hget as [q' Hget].
    destruct (Get_item _ _ _ Hget) as (Hqueue & _ & _ & Hsd & Hd & _).
    rewrite Hq in Hqueue. injection Hqueue as Hrest.
    destruct (processNextWorkItem_shape split c w key q' Hget)
      as (h' & mid & Hrun & Hmid).
    destruct (step_while_shutting_down q' key (queueCalls mid)) as [Hq1 Hs1];
      [congruence|done|done|].
    destruct (IH (mkWorld (WorkQueue.Done key (applyAll (queueCalls mid) q')) h'
                    (calls w ++ [CQueue (WorkQueue.QGet key)] ++ mid ++
                     [CQueue (WorkQueue.QDone key)])))
      as (w' & cs & Hloop & Hcalls & Hgot & Hdone & Hempty); [done|simpl; congruence|].
    exists w', ([CQueue (WorkQueue.QGet key)] ++ mid ++
                [CQueue (WorkQueue.QDone key)] ++ cs)%list.
    assert (Hmidkeys : gotKeys mid = [] ∧ doneKeys mid = []).
    { unfold gotKeys, doneKeys.
      destruct Hmid as [-> | [-> | [-> | ->]]]; done. }
    destruct Hmidkeys as [Hg Hdn].
    split_and!.
    + change (ReplicationWorker.startWorker split (S (length (key :: rest))) c w)
        with ((do continue <- ReplicationClusterRole.processNextWorkItem split c;
               if (continue : bool)
               then ReplicationWorker.startWorker split (S (length rest)) c
               else ret (Some tt)) w).
      erewrite bind_Ok; [|exact Hrun]. exact Hloop.
    + rewrite Hcalls. cbn [calls]. rewrite <- ?app_assoc. simpl.
      by rewrite <- ?app_assoc.
    + rewrite !gotKeys_app, Hg, Hgot. reflexivity.
    + rewrite !doneKeys_app, Hdn, Hdone. reflexivity.
    + done.
Qed.

(** X10.  After the queue has been shut down, the worker loop of the
    replication controller ends: it hands every key still queued to
    [processNextWorkItem], once and in queue order, calls [Done] for each,
    leaves the queue empty and returns, whatever the outcome of the
    individual steps. *)
Theorem worker_drains_queue_after_shutdown :
  ∀ (V : Type) (split : string -> error + (string * string * string))
    (c : @ReplicationClusterRole.controller V) (w : World V),
    WorkQueue.shuttingDown (wq w) = true ->
    ∃ w' cs,
      ReplicationWorker.startWorker split (S (length (WorkQueue.queue (wq w)))) c w
        = Ok (Some tt) w' ∧
      calls w' = (calls w ++ cs)%list ∧
      gotKeys cs = WorkQueue.queue (wq w) ∧
      doneKeys cs = WorkQueue.queue (wq w) ∧
      WorkQueue.queue (wq w') = [].
Proof. intros V split c w Hs. by apply startWorker_drains. Qed.

(** ** The APIBinding controller: tombstones *)

(** X11.  [enqueueAPIExport] on the tombstone of a deleted APIExport
    ([cache.DeletedFinalStateUnknown]): the key stored in the tombstone is
    looked up in the bindings index; when the index lists no binding the
    function returns quietly, and when it lists a binding the function
    panics on its unchecked conversion of the event's object to an
    APIExport, before anything is enqueued. *)
Theorem export_tombstone_panics_when_bound :
  ∀ (byExport : string) (keyOf : APIBinding.Object -> error + string)
    (c : APIBinding.reconciler) key o logSuffix (w : World APIBinding.Object),
    (APIBinding.apiBindingsIndexer c byExport key = inr [] ->
     APIBinding.enqueueAPIExport byExport keyOf c (APIBinding.ITombstone key o)
       logSuffix w = Ok tt (logged w [CByIndex "apiBindings" byExport key]))
    ∧
    (∀ b bs m,
       APIBinding.apiBindingsIndexer c byExport key = inr (b :: bs) ->
       heap w !! b = Some (APIBinding.APIBinding m) ->
       APIBinding.enqueueAPIExport byExport keyOf c (APIBinding.ITombstone key o)
         logSuffix w =
         Panic "interface conversion: not *v1alpha1.APIExport"
           (logged w [CByIndex "apiBindings" byExport key])).
Proof.
  intros idxB keyOf c key o logSuffix w. split.
  - intros Hb. unfold APIBinding.enqueueAPIExport. unfold bind at 1, get. simpl.
    unfold bind at 1. simpl. by rewrite Hb.
  - intros b bs m Hb Hh. unfold APIBinding.enqueueAPIExport. unfold bind at 1, get.
    simpl. unfold bind at 1. simpl. rewrite Hb. simpl.
    unfold bind at 1. unfold bind at 1, get. simpl. by rewrite Hh.
Qed.

(** X12.  [enqueueAPIResourceSchema] on the tombstone of a deleted
    APIResourceSchema: when neither APIExport index lists an export for the
    tombstone's key the function returns after the two lookups; when the
    index consulted lists an export the function panics on its unchecked
    conversion of the event's object to an APIResourceSchema, before any
    APIExport is followed. *)
Theorem schema_tombstone_panics_when_exported :
  ∀ (byExport bySchema : string) (keyOf : APIBinding.Object -> error + string)
    (c : APIBinding.reconciler) key o logSuffix (w : World APIBinding.Object),
    (exportsOfSchema bySchema c key = inr [] ->
     APIBinding.enqueueAPIResourceSchema byExport bySchema keyOf c
       (APIBinding.ITombstone key o) logSuffix w =
       Ok tt (logged w [CByIndex "apiExports" bySchema key;
                        CByIndex "temporaryRemoteShardApiExports" bySchema key]))
    ∧
    (∀ e es,
       exportsOfSchema bySchema c key = inr (e :: es) ->
       APIBinding.enqueueAPIResourceSchema byExport bySchema keyOf c
         (APIBinding.ITombstone key o) logSuffix w =
         Panic "interface conversion: not *v1alpha1.APIResourceSchema"
           (logged w
              (CByIndex "apiExports" bySchema key ::
               match APIBinding.apiExportsIndexer c bySchema key with
               | inr [] => [CByIndex "temporaryRemoteShardApiExports" bySchema key]
               | _ => []
               end))).
Proof.
  intros idxB idxE keyOf c key o logSuffix w. unfold exportsOfSchema. split.
  - intros Hes. unfold APIBinding.enqueueAPIResourceSchema. unfold bind at 1, get.
    simpl. unfold bind at 1. simpl.
    destruct (APIBinding.apiExportsIndexer c idxE key) as [err|[|e es]]; [done| |done].
    unfold bind at 1. unfold bind at 1. simpl. rewrite Hes.
    simpl. unfold ret, logged. simpl. by rewrite <- app_assoc.
  - intros e es Hes. unfold APIBinding.enqueueAPIResourceSchema. unfold bind at 1, get.
    simpl. unfold bind at 1. simpl.
    destruct (APIBinding.apiExportsIndexer c idxE key) as [err|[|e' es']]; [done| |].
    + unfold bind at 1. unfold bind at 1. simpl. rewrite Hes.
      simpl. unfold logged. simpl. by rewrite <- app_assoc.
    + injection Hes as -> ->. reflexivity.
Qed.

(** ** The APIBinding controller: what the event handlers do *)

Section HandlerTraces.
Import APIBinding.

Variable P : Call -> Prop.
Hypothesis P_add : ∀ key, P (CQueue (WorkQueue.QAdd key)).
Hypothesis P_error : ∀ err, P (CHandleError err).
Hypothesis P_index : ∀ indexer index key, P (CByIndex indexer index key).
Hypothesis P_lister : ∀ lister clusterName name, P (CListerGet lister clusterName name).

Variable schemaCluster schemaName byExport bySchema : string.
Variable toKey : string -> string -> string.
Variable keyOf : Object -> error + string.
Variable c : reconciler.

Lemma extendsWith_refl {V} (w : World V) : extendsWith P w w.
Proof. exists []. by rewrite app_nil_r. Qed.

Lemma extendsWith_trans {V} (w1 w2 w3 : World V) :
  extendsWith P w1 w2 -> extendsWith P w2 w3 -> extendsWith P w1 w3.
Proof.
  intros (cs1 & Hh1 & Hc1 & Hq1 & Hp1) (cs2 & Hh2 & Hc2 & Hq2 & Hp2).
  exists (cs1 ++ cs2)%list. split_and!.
  - congruence.
  - by rewrite Hc2, Hc1, <- app_assoc.
  - by rewrite Hq2, Hq1, queueCalls_app, applyAll_app.
  - by apply Forall_app.
Qed.

(** One call that is not a queue call. *)
Lemma extendsWith_logged {V} (w : World V) call :
  queueCalls [call] = [] -> P call -> extendsWith P w (logged w [call]).
Proof.
  intros Hq Hp. exists [call]. split_and!; try done.
  - by rewrite Hq.
  - by constructor.
Qed.

Lemma extendsWith_error {V} (w : World V) err :
  extendsWith P w (mkWorld (wq w) (heap w) (calls w ++ [CHandleError err])).
Proof. by apply (extendsWith_logged w (CHandleError err)). Qed.

Lemma forRange_extendsWith {A} (body : A -> M W unit) xs :
  (∀ x w w', body x w = Ok tt w' -> extendsWith P w w') ->
  ∀ w w', forRange xs body w = Ok tt w' -> extendsWith P w w'.
Proof.
  intros Hbody. induction xs as [|x xs IH]; intros w w' Hrun.
  - injection Hrun as <-. apply extendsWith_refl.
  - cbn [forRange] in Hrun. unfold bind at 1 in Hrun.
    destruct (body x w) as [[] w1| |] eqn:Hx; [|done|done].
    eapply extendsWith_trans; [by eapply Hbody|by apply IH].
Qed.

Lemma Enqueue_extendsWith ctl obj suffix (w w' : W) :
  Controller.Enqueue keyOf ctl obj suffix w = Ok tt w' -> extendsWith P w w'.
Proof.
  unfold Controller.Enqueue, bind, get. destruct obj as [b|]; [|done].
  destruct (heap w !! b) as [v|]; [|done].
  destruct (keyOf v) as [err|key]; intros [= <-].
  - apply extendsWith_error.
  - exists [CQueue (WorkQueue.QAdd key)]. split_and!; try done. by constructor.
Qed.

Lemma enqueueAPIExport_extendsWith obj logSuffix (w w' : W) :
  enqueueAPIExport byExport keyOf c obj logSuffix w = Ok tt w' -> extendsWith P w w'.
Proof.
  unfold enqueueAPIExport. unfold bind at 1, get.
  destruct (DeletionHandlingMetaNamespaceKeyFunc keyOf obj (heap w)) as [err|key].
  { intros [= <-]. apply extendsWith_error. }
  unfold bind at 1. simpl.
  destruct (apiBindingsIndexer c byExport key) as [err|bs].
  { intros [= <-].
    eapply extendsWith_trans;
      [apply (extendsWith_logged w (CByIndex "apiBindings" byExport key)); done|].
    apply (extendsWith_error (logged w [CByIndex "apiBindings" byExport key])). }
  intros Hloop.
  eapply extendsWith_trans;
    [apply (extendsWith_logged w (CByIndex "apiBindings" byExport key)); done|].
  eapply forRange_extendsWith; [|exact Hloop].
  intros b w1 w2. unfold bind at 1, get.
  destruct (negb (isAPIBinding (heap w1 !! b))); [done|].
  destruct (negb (isAPIExport (deref (heap w1) obj))); [done|].
  apply Enqueue_extendsWith.
Qed.

Lemma enqueueAPIResourceSchema_extendsWith obj logSuffix (w w' : W) :
  enqueueAPIResourceSchema byExport bySchema keyOf c obj logSuffix w = Ok tt w' ->
  extendsWith P w w'.
Proof.
  unfold enqueueAPIResourceSchema. unfold bind at 1, get.
  destruct (DeletionHandlingMetaNamespaceKeyFunc keyOf obj (heap w)) as [err|key].
  { intros [= <-]. apply extendsWith_error. }
  unfold bind at 1. simpl.
  assert (Hfirst : extendsWith P w (logged w [CByIndex "apiExports" bySchema key]))
    by (by apply extendsWith_logged).
  assert (Hloop : ∀ es (w1 w2 : W),
            forRange es (fun export =>
              do w <- get;
              if negb (isAPIResourceSchema (deref (heap w) obj)) then
                panic "interface conversion: not *v1alpha1.APIResourceSchema"
              else
                enqueueAPIExport byExport keyOf c (IPtr export)
                  (" because of APIResourceSchema" ++ logSuffix)) w1 = Ok tt w2 ->
            extendsWith P w1 w2).
  { intros es w1 w2. apply forRange_extendsWith.
    intros x w3 w4. unfold bind at 1, get.
    destruct (negb (isAPIResourceSchema (deref (heap w3) obj))); [done|].
    apply enqueueAPIExport_extendsWith. }
  destruct (apiExportsIndexer c bySchema key) as [err|[|e es]].
  - intros [= <-]. eapply extendsWith_trans; [exact Hfirst|].
    apply (extendsWith_error (logged w [CByIndex "apiExports" bySchema key])).
  - unfold bind at 1. unfold bind at 1. simpl.
    set (w1 := mkWorld _ _ _).
    assert (Hsecond : extendsWith P (logged w [CByIndex "apiExports" bySchema key]) w1)
      by exact (extendsWith_logged (logged w [CByIndex "apiExports" bySchema key])
                  (CByIndex "temporaryRemoteShardApiExports" bySchema key)
                  eq_refl (P_index _ _ _)).
    destruct (temporaryRemoteShardApiExportsIndexer c bySchema key) as [err|res].
    + intros [= <-].
      eapply extendsWith_trans; [exact Hfirst|].
      eapply extendsWith_trans; [exact Hsecond|apply (extendsWith_error w1)].
    + intros Hrun.
      eapply extendsWith_trans; [exact Hfirst|].
      eapply extendsWith_trans; [exact Hsecond|by eapply Hloop].
  - unfold bind at 1. unfold ret at 1. intros Hrun.
    eapply extendsWith_trans; [exact Hfirst|by eapply Hloop].
Qed.

Lemma getAPIResourceSchema_extendsWith clusterName name (w : W) :
  ∃ w', getAPIResourceSchema toKey c clusterName name w
          = Ok (resolveSchema toKey c clusterName name) w' ∧
        extendsWith P w w' ∧ wq w' = wq w.
Proof.
  unfold getAPIResourceSchema, resolveSchema. unfold bind at 1. simpl.
  assert (Hfirst : extendsWith P w
            (logged w [CListerGet "apiResourceSchema" clusterName name]))
    by (by apply extendsWith_logged).
  destruct (apiResourceSchemaLister c (toKey clusterName name)) as [err|s].
  - destruct (IsNotFound err).
    + unfold bind at 1. simpl. unfold ret. eexists. split; [reflexivity|]. split; [|done].
      eapply extendsWith_trans; [exact Hfirst|].
      exact (extendsWith_logged
               (logged w [CListerGet "apiResourceSchema" clusterName name])
               (CListerGet "temporaryRemoteShardApiResourceSchema" clusterName name)
               eq_refl (P_lister _ _ _)).
    + eexists. split; [reflexivity|]. by split.
  - eexists. split; [reflexivity|]. by split.
Qed.

Lemma enqueueCRD_extendsWith obj (w w' : W) :
  enqueueCRD schemaCluster schemaName byExport bySchema toKey keyOf c obj w = Ok tt w' ->
  extendsWith P w w'.
Proof.
  unfold enqueueCRD. unfold bind at 1, get.
  destruct (deref (heap w) obj) as [[crd| | | |]|];
    try (intros [= <-]; apply extendsWith_error).
  destruct (_ || _); [intros [= <-]; apply extendsWith_refl|].
  unfold bind at 1.
  destruct (getAPIResourceSchema_extendsWith
              (annotation crd schemaCluster) (annotation crd schemaName) w)
    as (w1 & -> & Hw1 & _).
  destruct (resolveSchema toKey c _ _) as [err|s].
  - intros [= <-]. eapply extendsWith_trans; [exact Hw1|apply (extendsWith_error w1)].
  - intros Hrun. eapply extendsWith_trans; [exact Hw1|].
    by eapply enqueueAPIResourceSchema_extendsWith.
Qed.

(** [crdDeleteFunc] notes the name of the deleted object, then runs
    [enqueueCRD]. *)
Lemma crdDeleteFunc_tracks obj o (w w' : W) :
  deref (heap w) obj = Some o ->
  crdDeleteFunc schemaCluster schemaName byExport bySchema toKey keyOf c obj w
    = Ok tt w' ->
  extendsWith P (logged w [CTrackerAdd (name (metaOf o))]) w'.
Proof.
  intros Hobj. unfold crdDeleteFunc. unfold bind at 1, get. rewrite Hobj.
  unfold bind at 1. simpl. apply enqueueCRD_extendsWith.
Qed.

Hypothesis P_tracker : ∀ name, P (CTrackerAdd name).

Lemma crdDeleteFunc_extendsWith obj (w w' : W) :
  crdDeleteFunc schemaCluster schemaName byExport bySchema toKey keyOf c obj w
    = Ok tt w' ->
  extendsWith P w w'.
Proof.
  destruct (deref (heap w) obj) as [o|] eqn:Hobj.
  - intros Hrun. eapply extendsWith_trans; [|by eapply crdDeleteFunc_tracks].
    by apply extendsWith_logged.
  - unfold crdDeleteFunc. unfold bind at 1, get. rewrite Hobj.
    intros [= <-]. apply extendsWith_error.
Qed.

Lemma crdEvent_extendsWith ev (w w' : W) :
  crdEvent schemaCluster schemaName byExport bySchema toKey keyOf c ev w = Ok tt w' ->
  extendsWith P w w'.
Proof.
  unfold crdEvent. unfold bind at 1, get.
  destruct ev as [obj|oldObj newObj|obj].
  - destruct (FilterFunc (heap w) obj); [apply enqueueCRD_extendsWith|].
    intros [= <-]. apply extendsWith_refl.
  - simpl. destruct (FilterFunc (heap w) newObj), (FilterFunc (heap w) oldObj); simpl.
    + apply enqueueCRD_extendsWith.
    + apply enqueueCRD_extendsWith.
    + apply crdDeleteFunc_extendsWith.
    + intros [= <-]. apply extendsWith_refl.
  - destruct (FilterFunc (heap w) obj); [apply crdDeleteFunc_extendsWith|].
    intros [= <-]. apply extendsWith_refl.
Qed.

End HandlerTraces.

(** X13.  Whatever the caches hold, the event handlers of the APIBinding
    controller (for CRDs, APIResourceSchemas and APIExports) that return
    leave the heap as it is and touch the queue only through [Add]: beside
    [queue.Add] they make cache lookups, error reports and notes in the
    deleted-CRD tracker, and never a [Get], [Done], [Forget] or
    [AddRateLimited], nor a call of the reconciler. *)
Theorem event_handlers_only_add :
  ∀ (schemaCluster schemaName byExport bySchema : string)
    (toKey : string -> string -> string)
    (keyOf : APIBinding.Object -> error + string) (c : APIBinding.reconciler),
    (∀ ev (w w' : World APIBinding.Object),
       APIBinding.crdEvent schemaCluster schemaName byExport bySchema toKey keyOf c ev w
         = Ok tt w' ->
       extendsWith (fun call => handlerCall call = true) w w')
    ∧
    (∀ obj logSuffix (w w' : World APIBinding.Object),
       APIBinding.enqueueAPIResourceSchema byExport bySchema keyOf c obj logSuffix w
         = Ok tt w' ->
       extendsWith (fun call => handlerCall call = true) w w')
    ∧
    (∀ obj logSuffix (w w' : World APIBinding.Object),
       APIBinding.enqueueAPIExport byExport keyOf c obj logSuffix w = Ok tt w' ->
       extendsWith (fun call => handlerCall call = true) w w').
Proof.
  intros ck nk idxB idxE toKey keyOf c. split_and!.
  - intros ev w w'. by apply crdEvent_extendsWith.
  - intros obj logSuffix w w'. by apply enqueueAPIResourceSchema_extendsWith.
  - intros obj logSuffix w w'. by apply enqueueAPIExport_extendsWith.
Qed.

(** X14.  [enqueueCRD] never writes to the deleted-CRD tracker.  The delete
    handler of the CRD informer notes the name of the deleted object in the
    tracker as its first action, before any lookup and whatever the
    annotations of the CRD are, and notes nothing else afterwards. *)
Theorem deleted_crd_is_tracked_first :
  ∀ (schemaCluster schemaName byExport bySchema : string)
    (toKey : string -> string -> string)
    (keyOf : APIBinding.Object -> error + string) (c : APIBinding.reconciler) obj,
    (∀ (w w' : World APIBinding.Object),
       APIBinding.enqueueCRD schemaCluster schemaName byExport bySchema toKey keyOf c
         obj w = Ok tt w' ->
       extendsWith (fun call => isTrackerAdd call = false) w w')
    ∧
    (∀ o (w w' : World APIBinding.Object),
       APIBinding.deref (heap w) obj = Some o ->
       APIBinding.crdDeleteFunc schemaCluster schemaName byExport bySchema toKey keyOf
         c obj w = Ok tt w' ->
       extendsWith (fun call => isTrackerAdd call = false)
         (logged w [CTrackerAdd (APIBinding.name (APIBinding.metaOf o))]) w').
Proof.
  intros ck nk idxB idxE toKey keyOf c obj. split.
  - intros w w'. by apply enqueueCRD_extendsWith.
  - intros o w w'. by apply crdDeleteFunc_tracks.
Qed.

(** X15.  When the APIResourceSchema named by the annotations of a CRD
    cannot be resolved, [enqueueCRD] reports the error of the lookup to the
    error sink and returns: beside the lister lookups it makes no call, so
    no index is consulted and nothing is enqueued. *)
Theorem unresolved_schema_enqueues_nothing :
  ∀ (schemaCluster schemaName byExport bySchema : string)
    (toKey : string -> string -> string)
    (keyOf : APIBinding.Object -> error + string) (c : APIBinding.reconciler)
    obj crd err (w : World APIBinding.Object),
    APIBinding.deref (heap w) obj = Some (APIBinding.CustomResourceDefinition crd) ->
    APIBinding.annotation crd schemaCluster ≠ "" ->
    APIBinding.annotation crd schemaName ≠ "" ->
    resolveSchema toKey c (APIBinding.annotation crd schemaCluster)
      (APIBinding.annotation crd schemaName) = inl err ->
    ∃ cs,
      APIBinding.enqueueCRD schemaCluster schemaName byExport bySchema toKey keyOf c
        obj w = Ok tt (logged w (cs ++ [CHandleError err])) ∧
      Forall (fun call => ∃ lister clusterName name,
                            call = CListerGet lister clusterName name) cs.
Proof.
  intros ck nk idxB idxE toKey keyOf c obj crd err w Hobj Hck Hnk Hres.
  unfold APIBinding.enqueueCRD. unfold bind at 1, get. rewrite Hobj.
  apply String.eqb_neq in Hck, Hnk. rewrite Hck, Hnk. simpl.
  unfold bind at 1.
  destruct (getAPIResourceSchema_extendsWith
              (fun call => ∃ lister clusterName name,
                             call = CListerGet lister clusterName name)
              ltac:(intros; by eexists _, _, _) toKey c
              (APIBinding.annotation crd ck) (APIBinding.annotation crd nk) w)
    as (w1 & -> & (cs & Hh & Hc & _ & Hp) & Hq).
  rewrite Hres. exists cs. split; [|done].
  unfold HandleError, call, modify, logged. simpl.
  by rewrite Hh, Hc, Hq, <- app_assoc.
Qed.

(** ** Listing the bindings of a logical cluster *)

Lemma listAPIBindingsLoop_filter clusterName (all : list loc) :
  ∀ (ret_ : list loc) (w : World APIBinding.Object),
    Forall (fun b => is_Some (heap w !! b)) all ->
    APIBindingClosures.listAPIBindingsLoop clusterName all ret_ w =
      Ok (ret_ ++ List.filter (inCluster (heap w) clusterName) all)%list w.
Proof.
  induction all as [|b rest IH]; intros ret_ w Hall.
  - simpl. by rewrite app_nil_r.
  - apply Forall_cons in Hall as [[o Ho] Hrest].
    cbn [APIBindingClosures.listAPIBindingsLoop List.filter].
    unfold bind at 1, get. unfold inCluster at 1. rewrite Ho.
    destruct (String.eqb _ clusterName); simpl.
    + rewrite IH by done. by rewrite <- app_assoc.
    + by rewrite IH.
Qed.

(** X16.  [listAPIBindings] returns an error of the lister as it is; on
    success it returns exactly the listed bindings whose logical cluster is
    the requested one, in the order of the list, and changes nothing. *)
Theorem listAPIBindings_filters_by_cluster :
  (∀ err clusterName (w : World APIBinding.Object),
     APIBindingClosures.listAPIBindings (inl err) clusterName w = Ok (inl err) w)
  ∧
  (∀ (all : list loc) clusterName (w : World APIBinding.Object),
     Forall (fun b => is_Some (heap w !! b)) all ->
     APIBindingClosures.listAPIBindings (inr all) clusterName w =
       Ok (inr (List.filter (inCluster (heap w) clusterName) all)) w).
Proof.
  split; [done|]. intros all clusterName w Hall.
  unfold APIBindingClosures.listAPIBindings, bind.
  by rewrite listAPIBindingsLoop_filter.
Qed.

(** ** Delivering an event twice *)

Lemma Add_noop key q :
  WorkQueue.shuttingDown q = true ∨ key ∈ WorkQueue.dirty q -> WorkQueue.Add key q = q.
Proof.
  unfold WorkQueue.Add. intros [Hs|Hd]; [by rewrite Hs|].
  destruct (WorkQueue.shuttingDown q); [done|]. by rewrite decide_True.
Qed.

Lemma Add_shuttingDown key q :
  WorkQueue.shuttingDown (WorkQueue.Add key q) = WorkQueue.shuttingDown q.
Proof. unfold WorkQueue.Add. repeat case_match; simpl; congruence. Qed.

Lemma Add_dirty_mono key k q :
  k ∈ WorkQueue.dirty q -> k ∈ WorkQueue.dirty (WorkQueue.Add key q).
Proof.
  intros Hk. unfold WorkQueue.Add. repeat case_match; simpl; try done;
    by apply elem_of_union_r.
Qed.

Lemma Add_dirty key q :
  WorkQueue.shuttingDown q = false -> key ∈ WorkQueue.dirty (WorkQueue.Add key q).
Proof.
  intros Hs. unfold WorkQueue.Add. rewrite Hs.
  repeat case_match; simpl; try done; apply elem_of_union_l; by apply elem_of_singleton.
Qed.

Lemma adds_dirty_mono keys :
  ∀ q k, k ∈ WorkQueue.dirty q ->
         k ∈ WorkQueue.dirty (applyAll (map WorkQueue.QAdd keys) q).
Proof.
  induction keys as [|key keys IH]; intros q k Hk; [done|].
  simpl. apply IH. by apply Add_dirty_mono.
Qed.

Lemma adds_shuttingDown keys :
  ∀ q, WorkQueue.shuttingDown (applyAll (map WorkQueue.QAdd keys) q)
       = WorkQueue.shuttingDown q.
Proof.
  induction keys as [|key keys IH]; intros q; [done|].
  simpl. by rewrite IH, Add_shuttingDown.
Qed.

Lemma adds_dirty keys :
  ∀ q, WorkQueue.shuttingDown q = false ->
       Forall (fun k => k ∈ WorkQueue.dirty (applyAll (map WorkQueue.QAdd keys) q)) keys.
Proof.
  induction keys as [|key keys IH]; intros q Hs; [done|].
  simpl. constructor.
  - apply adds_dirty_mono. by apply Add_dirty.
  - apply IH. by rewrite Add_shuttingDown.
Qed.

Lemma adds_noop keys :
  ∀ q, WorkQueue.shuttingDown q = true ∨
       Forall (fun k => k ∈ WorkQueue.dirty q) keys ->
       applyAll (map WorkQueue.QAdd keys) q = q.
Proof.
  induction keys as [|key keys IH]; intros q Hq; [done|].
  simpl. rewrite Add_noop.
  - apply IH. destruct Hq as [Hs|Hd]; [by left|right].
    by apply Forall_cons in Hd as [_ Hd].
  - destruct Hq as [Hs|Hd]; [by left|right].
    by apply Forall_cons in Hd as [Hd _].
Qed.

Lemma adds_twice keys q :
  applyAll (map WorkQueue.QAdd keys) (applyAll (map WorkQueue.QAdd keys) q)
    = applyAll (map WorkQueue.QAdd keys) q.
Proof.
  apply adds_noop. destruct (WorkQueue.shuttingDown q) eqn:Hs.
  - left. by rewrite adds_shuttingDown.
  - right. by apply adds_dirty.
Qed.

(** X17.  Delivering the same CRD event a second time, before any worker
    has taken a key, changes nothing in the queue: the second delivery
    walks the same chain and every [Add] it makes finds its key already
    pending. *)
Theorem crd_event_redelivery_is_idempotent :
  ∀ (schemaCluster schemaName byExport bySchema : string)
    (toKey : string -> string -> string)
    (keyOf : APIBinding.Object -> error + string)
    (c : APIBinding.reconciler) (ev : APIBinding.Event) crd s keys
    (w : World APIBinding.Object),
    APIBinding.deref (heap w) (eventObject ev)
      = Some (APIBinding.CustomResourceDefinition crd) ->
    APIBinding.cluster crd = APIBinding.ShadowWorkspaceName ->
    APIBinding.annotation crd schemaCluster ≠ "" ->
    APIBinding.annotation crd schemaName ≠ "" ->
    resolveSchema toKey c (APIBinding.annotation crd schemaCluster)
      (APIBinding.annotation crd schemaName) = inr s ->
    dependentsOfSchema byExport bySchema keyOf c (heap w) s = Some keys ->
    ∃ w1 w2,
      APIBinding.crdEvent schemaCluster schemaName byExport bySchema toKey keyOf c ev w
        = Ok tt w1 ∧
      APIBinding.crdEvent schemaCluster schemaName byExport bySchema toKey keyOf c ev w1
        = Ok tt w2 ∧
      wq w1 = applyAll (map WorkQueue.QAdd keys) (wq w) ∧
      wq w2 = wq w1.
Proof.
  intros ck nk idxB idxE toKey keyOf c ev crd s keys w Hobj Hcl Hck Hnk Hres Hdep.
  assert (Hrun : ∀ w0 : World APIBinding.Object, heap w0 = heap w ->
            ∃ cs, APIBinding.crdEvent ck nk idxB idxE toKey keyOf c ev w0 =
                    Ok tt (mkWorld (applyAll (map WorkQueue.QAdd keys) (wq w0))
                             (heap w0) (calls w0 ++ cs))).
  { intros w0 Hh. rewrite <- Hh in Hobj, Hdep.
    destruct (crdEvent_passes ck nk idxB idxE toKey keyOf c ev w0 crd Hobj Hcl)
      as (cs0 & _ & ->).
    destruct (enqueueCRD_run ck nk idxB idxE toKey keyOf c (eventObject ev) crd
                (logged w0 cs0) s keys Hobj Hck Hnk Hres Hdep) as (cs1 & -> & _).
    exists (cs0 ++ cs1)%list. simpl. by rewrite <- app_assoc. }
  destruct (Hrun w eq_refl) as (cs1 & Hrun1).
  destruct (Hrun (mkWorld (applyAll (map WorkQueue.QAdd keys) (wq w)) (heap w)
                    (calls w ++ cs1)) eq_refl) as (cs2 & Hrun2).
  eexists _, _. split; [exact Hrun1|]. split; [exact Hrun2|]. split; [done|].
  simpl. apply adds_twice.
Qed.

(** ** The properties at concrete inputs *)

Lemma malformed_key_is_dropped_witness :
  WorkQueue.Get (wq (mkWorld (Samples.queued "a/b/c" 3) (∅ : gmap loc nat) []))
    = WorkQueue.GotItem "a/b/c" (Samples.dequeued "a/b/c" 3) ∧
  Samples.splitKey "a/b/c" = inl (ErrOther "unexpected key format") ∧
  Controller.processNextItem Samples.splitKey Samples.bumpController
    (mkWorld (Samples.queued "a/b/c" 3) ∅ []) =
    Ok true (mkWorld (WorkQueue.Done "a/b/c" (Samples.dequeued "a/b/c" 3)) ∅
               ([] ++ [CQueue (WorkQueue.QGet "a/b/c"); CQueue (WorkQueue.QDone "a/b/c")])) ∧
  WorkQueue.NumRequeues "a/b/c" (WorkQueue.Done "a/b/c" (Samples.dequeued "a/b/c" 3)) =
    WorkQueue.NumRequeues "a/b/c" (Samples.queued "a/b/c" 3).
Proof.
  split; [reflexivity|]. split; [reflexivity|].
  apply (malformed_key_is_dropped nat Samples.splitKey Samples.bumpController
           (mkWorld (Samples.queued "a/b/c" 3) ∅ []) "a/b/c" (Samples.dequeued "a/b/c" 3)
           (ErrOther "unexpected key format")); reflexivity.
Defined.

Lemma success_keeps_retry_count_witness :
  WorkQueue.Get (wq (Samples.fooWorld 3))
    = WorkQueue.GotItem "root:foo" (Samples.dequeued "root:foo" 3) ∧
  Samples.splitKey "root:foo" = inr ("", "root:foo") ∧
  processingError Samples.splitKey Samples.bumpController "root:foo"
    (heap (Samples.fooWorld 3)) = None ∧
  ∃ h' pre,
    queueCalls pre = [] ∧ reported pre = [] ∧
    Controller.processNextItem Samples.splitKey Samples.bumpController
      (Samples.fooWorld 3) =
      Ok true (mkWorld (WorkQueue.Done "root:foo" (Samples.dequeued "root:foo" 3)) h'
                 ([] ++ [CQueue (WorkQueue.QGet "root:foo")] ++ pre ++
                  [CQueue (WorkQueue.QDone "root:foo")])) ∧
    WorkQueue.NumRequeues "root:foo"
      (WorkQueue.Done "root:foo" (Samples.dequeued "root:foo" 3)) =
      WorkQueue.NumRequeues "root:foo" (wq (Samples.fooWorld 3)).
Proof.
  split; [reflexivity|]. split; [reflexivity|]. split; [reflexivity|].
  apply (success_keeps_retry_count nat Samples.splitKey Samples.bumpController
           (Samples.fooWorld 3) "root:foo" (Samples.dequeued "root:foo" 3)
           "" "root:foo"); reflexivity.
Defined.

Lemma lookup_error_skips_reconciler_witness :
  WorkQueue.Get (wq (Samples.fooWorld 0))
    = WorkQueue.GotItem "root:foo" (Samples.dequeued "root:foo" 0) ∧
  Samples.splitKey "root:foo" = inr ("", "root:foo") ∧
  Controller.indexer MoreSamples.brokenStoreController "root:foo"
    = (None, false, Some (ErrOther "cache unavailable")) ∧
  ∃ q'' policy,
    Controller.processNextItem Samples.splitKey MoreSamples.brokenStoreController
      (Samples.fooWorld 0) =
      Ok true (mkWorld q'' (heap (Samples.fooWorld 0))
                 ([] ++ [CQueue (WorkQueue.QGet "root:foo"); CGetByKey "root:foo"] ++
                  policy ++ [CQueue (WorkQueue.QDone "root:foo")])) ∧
    (policy = [CQueue (WorkQueue.QAddRateLimited "root:foo")] ∨
     policy = [CQueue (WorkQueue.QForget "root:foo");
               CHandleError (ErrOther "cache unavailable")]).
Proof.
  split; [reflexivity|]. split; [reflexivity|]. split; [reflexivity|].
  apply (lookup_error_skips_reconciler nat Samples.splitKey
           MoreSamples.brokenStoreController (Samples.fooWorld 0) "root:foo"
           (Samples.dequeued "root:foo" 0) "" "root:foo" None false
           (ErrOther "cache unavailable")); reflexivity.
Defined.

Lemma failing_key_is_retried_then_dropped_witness :
  (∀ h, processingError Samples.splitKey Samples.failingController "root:foo" h
        = Some (ErrOther "status update failed")) ∧
  Controller.numRequeues Samples.failingController = Z.of_nat 5 ∧
  ∃ w' cs,
    retryRounds Samples.splitKey Samples.failingController 6
      (mkWorld (Samples.queued "root:foo" 0) ∅ []) = Ok tt w' ∧
    calls w' = ([] ++ cs)%list ∧
    queueCalls cs =
      (concat (replicate 5 [WorkQueue.QGet "root:foo";
                            WorkQueue.QAddRateLimited "root:foo";
                            WorkQueue.QDone "root:foo"]) ++
       [WorkQueue.QGet "root:foo"; WorkQueue.QForget "root:foo";
        WorkQueue.QDone "root:foo"])%list ∧
    reported cs = [ErrOther "status update failed"] ∧
    WorkQueue.queue (wq w') = [] ∧ WorkQueue.waiting (wq w') = [] ∧
    WorkQueue.NumRequeues "root:foo" (wq w') = 0.
Proof.
  assert (Hfail : ∀ h, processingError Samples.splitKey Samples.failingController
                         "root:foo" h = Some (ErrOther "status update failed"))
    by (intros h; reflexivity).
  split; [exact Hfail|]. split; [reflexivity|].
  apply (failing_key_is_retried_then_dropped nat Samples.splitKey
           Samples.failingController "root:foo" (ErrOther "status update failed")
           5%nat (mkWorld (Samples.queued "root:foo" 0) ∅ []) Hfail); reflexivity.
Defined.

Lemma process_aggregates_errors_witness :
  Samples.splitClusterKey "root|viewer" = inr ("root", "", "viewer") ∧
  ReplicationClusterRole.clusterRoleLister MoreSamples.failingSync
    "root" "viewer" = inr 1%positive ∧
  (let '(old, cr, h1) :=
     snapshotPair (Some 1%positive) (heap (MoreSamples.viewerWorld 0)) in
   let '(h2, (requeue, rerr)) :=
     ReplicationClusterRole.reconcile MoreSamples.failingSync cr h1 in
   let '(h3, cerr) :=
     ReplicationClusterRole.commit MoreSamples.failingSync old cr h2 in
   ∃ res,
     ReplicationClusterRole.process Samples.splitClusterKey
       MoreSamples.failingSync "root|viewer" (MoreSamples.viewerWorld 0) =
       Ok (requeue, res)
          (mkWorld (wq (MoreSamples.viewerWorld 0)) h3
             (calls (MoreSamples.viewerWorld 0) ++
              [CListerGet "clusterRole" "root" "viewer"; CReconcile cr;
               CCommit old cr])) ∧
     (res = None ↔ rerr = None ∧ cerr = None) ∧
     (∀ e, rerr = Some e ∨ cerr = Some e -> ∃ agg, res = Some agg ∧ carries agg e)).
Proof.
  split; [reflexivity|]. split; [reflexivity|].
  apply (process_aggregates_errors nat Samples.splitClusterKey
           MoreSamples.failingSync "root|viewer" "root" "" "viewer"
           1%positive (MoreSamples.viewerWorld 0)); reflexivity.
Defined.

Lemma unsplittable_key_is_forgotten_witness :
  WorkQueue.Get (wq MoreSamples.brokenKeyWorld)
    = WorkQueue.GotItem "root|a|b" (Samples.dequeued "root|a|b" 2) ∧
  Samples.splitClusterKey "root|a|b" = inl (ErrOther "unexpected key format") ∧
  ReplicationClusterRole.processNextWorkItem Samples.splitClusterKey
    (Samples.replication Samples.foundLister) MoreSamples.brokenKeyWorld =
    Ok true (mkWorld (WorkQueue.Done "root|a|b"
                        (WorkQueue.Forget "root|a|b" (Samples.dequeued "root|a|b" 2)))
               (heap MoreSamples.brokenKeyWorld)
               ([] ++ [CQueue (WorkQueue.QGet "root|a|b");
                       CHandleError (ErrOther "unexpected key format");
                       CQueue (WorkQueue.QForget "root|a|b");
                       CQueue (WorkQueue.QDone "root|a|b")])) ∧
  WorkQueue.NumRequeues "root|a|b"
    (WorkQueue.Done "root|a|b"
       (WorkQueue.Forget "root|a|b" (Samples.dequeued "root|a|b" 2))) = 0.
Proof.
  split; [reflexivity|]. split; [reflexivity|].
  apply (unsplittable_key_is_forgotten nat Samples.splitClusterKey
           (Samples.replication Samples.foundLister) MoreSamples.brokenKeyWorld "root|a|b"
           (Samples.dequeued "root|a|b" 2) (ErrOther "unexpected key format"));
    reflexivity.
Defined.

Lemma replication_retry_count_witness :
  WorkQueue.Get (wq (mkWorld (Samples.queued "root|viewer" 3) (∅ : gmap loc nat) []))
    = WorkQueue.GotItem "root|viewer" (Samples.dequeued "root|viewer" 3) ∧
  ∃ requeue err w1 w',
    ReplicationClusterRole.process Samples.splitClusterKey
      (Samples.replication Samples.brokenLister) "root|viewer"
      (mkWorld (Samples.dequeued "root|viewer" 3) ∅
         ([] ++ [CQueue (WorkQueue.QGet "root|viewer")]))
      = Ok (requeue, err) w1 ∧
    ReplicationClusterRole.processNextWorkItem Samples.splitClusterKey
      (Samples.replication Samples.brokenLister)
      (mkWorld (Samples.queued "root|viewer" 3) ∅ []) = Ok true w' ∧
    WorkQueue.NumRequeues "root|viewer" (wq w') =
      match err with
      | Some _ => WorkQueue.NumRequeues "root|viewer" (Samples.queued "root|viewer" 3) + 1
      | None =>
          if requeue
          then WorkQueue.NumRequeues "root|viewer" (Samples.queued "root|viewer" 3)
          else 0
      end.
Proof.
  split; [reflexivity|].
  apply (replication_retry_count nat Samples.splitClusterKey
           (Samples.replication Samples.brokenLister)
           (mkWorld (Samples.queued "root|viewer" 3) ∅ []) "root|viewer"
           (Samples.dequeued "root|viewer" 3)); reflexivity.
Defined.

Lemma requeue_returns_key_to_queue_witness :
  WorkQueue.Get (wq (MoreSamples.viewerWorld 0))
    = WorkQueue.GotItem "root|viewer" (Samples.dequeued "root|viewer" 0) ∧
  ReplicationClusterRole.process Samples.splitClusterKey MoreSamples.requeueing
    "root|viewer"
    (mkWorld (Samples.dequeued "root|viewer" 0) (heap (MoreSamples.viewerWorld 0))
       ([] ++ [CQueue (WorkQueue.QGet "root|viewer")]))
    = Ok (true, None)
         (mkWorld (Samples.dequeued "root|viewer" 0)
            (<[fresh (dom (heap (MoreSamples.viewerWorld 0))) := 7%nat]>
               (heap (MoreSamples.viewerWorld 0)))
            [CQueue (WorkQueue.QGet "root|viewer");
             CListerGet "clusterRole" "root" "viewer";
             CReconcile (Some (fresh (dom (heap (MoreSamples.viewerWorld 0)))));
             CCommit (Some 1%positive)
               (Some (fresh (dom (heap (MoreSamples.viewerWorld 0)))))]) ∧
  WorkQueue.shuttingDown (wq (MoreSamples.viewerWorld 0)) = false ∧
  ∃ w',
    ReplicationClusterRole.processNextWorkItem Samples.splitClusterKey
      MoreSamples.requeueing (MoreSamples.viewerWorld 0) = Ok true w' ∧
    WorkQueue.queue (wq (MoreSamples.viewerWorld 0))
      = "root|viewer" :: WorkQueue.queue (Samples.dequeued "root|viewer" 0) ∧
    WorkQueue.queue (wq w')
      = (WorkQueue.queue (Samples.dequeued "root|viewer" 0) ++ ["root|viewer"])%list.
Proof.
  split; [reflexivity|]. split; [reflexivity|]. split; [reflexivity|].
  apply (requeue_returns_key_to_queue nat Samples.splitClusterKey
           MoreSamples.requeueing (MoreSamples.viewerWorld 0) "root|viewer"
           (Samples.dequeued "root|viewer" 0)
           (mkWorld (Samples.dequeued "root|viewer" 0)
              (<[fresh (dom (heap (MoreSamples.viewerWorld 0))) := 7%nat]>
                 (heap (MoreSamples.viewerWorld 0)))
              [CQueue (WorkQueue.QGet "root|viewer");
               CListerGet "clusterRole" "root" "viewer";
               CReconcile (Some (fresh (dom (heap (MoreSamples.viewerWorld 0)))));
               CCommit (Some 1%positive)
                 (Some (fresh (dom (heap (MoreSamples.viewerWorld 0)))))]));
    reflexivity.
Defined.

Lemma binding_event_enqueues_its_role_witness :
  ReplicationClusterRole.Kind (ReplicationClusterRole.roleRef MoreSamples.viewerBinding)
    = "ClusterRole" ∧
  ReplicationClusterRole.APIGroup (ReplicationClusterRole.roleRef MoreSamples.viewerBinding)
    = "rbac.authorization.k8s.io" ∧
  ReplicationClusterRole.clusterRoleLister (Samples.replication Samples.foundLister)
    "root" "viewer" = inr 1%positive ∧
  Samples.clusterKeyFunc (ReplicationClusterRole.IClusterRole 1%positive)
    (heap MoreSamples.idleWorld) = inr "root|viewer" ∧
  ReplicationClusterRole.enqueueClusterRoleBinding "rbac.authorization.k8s.io"
    Samples.clusterKeyFunc (Samples.replication Samples.foundLister)
    (ReplicationClusterRole.ITombstone "root|viewers"
       (ReplicationClusterRole.IClusterRoleBinding (Some MoreSamples.viewerBinding)))
    MoreSamples.idleWorld =
    Ok tt (mkWorld (WorkQueue.Add "root|viewer" (wq MoreSamples.idleWorld))
             (heap MoreSamples.idleWorld)
             (calls MoreSamples.idleWorld ++
              [CListerGet "clusterRole" "root" "viewer";
               CQueue (WorkQueue.QAdd "root|viewer")])) ∧
  WorkQueue.queue (WorkQueue.Add "root|viewer" (wq MoreSamples.idleWorld))
    = ["root|viewer"].
Proof.
  split; [reflexivity|]. split; [reflexivity|]. split; [reflexivity|].
  split; [reflexivity|]. split; [|reflexivity].
  apply (proj1 (binding_event_enqueues_its_role nat "rbac.authorization.k8s.io"
                  Samples.clusterKeyFunc (Samples.replication Samples.foundLister)
                  (ReplicationClusterRole.ITombstone "root|viewers"
                     (ReplicationClusterRole.IClusterRoleBinding
                        (Some MoreSamples.viewerBinding)))
                  MoreSamples.idleWorld)
           MoreSamples.viewerBinding 1%positive "root|viewer");
    [right; by exists "root|viewers"|reflexivity|reflexivity|reflexivity|reflexivity].
Defined.

Lemma worker_drains_queue_after_shutdown_witness :
  WorkQueue.shuttingDown (wq MoreSamples.closingWorld) = true ∧
  ∃ w' cs,
    ReplicationWorker.startWorker Samples.splitClusterKey
      (S (length (WorkQueue.queue (wq MoreSamples.closingWorld))))
      (Samples.replication Samples.foundLister) MoreSamples.closingWorld
      = Ok (Some tt) w' ∧
    calls w' = (calls MoreSamples.closingWorld ++ cs)%list ∧
    gotKeys cs = WorkQueue.queue (wq MoreSamples.closingWorld) ∧
    doneKeys cs = WorkQueue.queue (wq MoreSamples.closingWorld) ∧
    WorkQueue.queue (wq w') = [].
Proof.
  split; [reflexivity|].
  apply (worker_drains_queue_after_shutdown nat Samples.splitClusterKey
           (Samples.replication Samples.foundLister) MoreSamples.closingWorld).
  reflexivity.
Defined.

Lemma export_tombstone_panics_when_bound_witness :
  (APIBinding.apiBindingsIndexer Samples.bindingReconciler Samples.byExport
     "root:org|unbound-export" = inr [] ∧
   APIBinding.enqueueAPIExport Samples.byExport Samples.keyOf Samples.bindingReconciler
     (APIBinding.ITombstone "root:org|unbound-export" None) "" Samples.bindingWorld =
     Ok tt (logged Samples.bindingWorld
              [CByIndex "apiBindings" Samples.byExport "root:org|unbound-export"]))
  ∧
  (APIBinding.apiBindingsIndexer Samples.bindingReconciler Samples.byExport
     "root:org|local-export" = inr [5%positive] ∧
   heap Samples.bindingWorld !! 5%positive
     = Some (APIBinding.APIBinding (Samples.meta "root:ws1" "b1" ∅)) ∧
   APIBinding.enqueueAPIExport Samples.byExport Samples.keyOf Samples.bindingReconciler
     (APIBinding.ITombstone "root:org|local-export" (Some 3%positive)) ""
     Samples.bindingWorld =
     Panic "interface conversion: not *v1alpha1.APIExport"
       (logged Samples.bindingWorld
          [CByIndex "apiBindings" Samples.byExport "root:org|local-export"])).
Proof.
  split.
  - split; [reflexivity|].
    apply (proj1 (export_tombstone_panics_when_bound Samples.byExport Samples.keyOf
                    Samples.bindingReconciler "root:org|unbound-export" None ""
                    Samples.bindingWorld)).
    reflexivity.
  - split; [reflexivity|]. split; [reflexivity|].
    apply (proj2 (export_tombstone_panics_when_bound Samples.byExport Samples.keyOf
                    Samples.bindingReconciler "root:org|local-export"
                    (Some 3%positive) "" Samples.bindingWorld)
             5%positive [] (Samples.meta "root:ws1" "b1" ∅)); reflexivity.
Defined.

Lemma schema_tombstone_panics_when_exported_witness :
  (exportsOfSchema Samples.bySchema Samples.bindingReconciler "root:org|gadgets"
     = inr [] ∧
   APIBinding.enqueueAPIResourceSchema Samples.byExport Samples.bySchema Samples.keyOf
     Samples.bindingReconciler (APIBinding.ITombstone "root:org|gadgets" None) ""
     Samples.bindingWorld =
     Ok tt (logged Samples.bindingWorld
              [CByIndex "apiExports" Samples.bySchema "root:org|gadgets";
               CByIndex "temporaryRemoteShardApiExports" Samples.bySchema
                 "root:org|gadgets"]))
  ∧
  (exportsOfSchema Samples.bySchema Samples.bindingReconciler "root:org|widgets"
     = inr [3%positive] ∧
   APIBinding.enqueueAPIResourceSchema Samples.byExport Samples.bySchema Samples.keyOf
     Samples.bindingReconciler
     (APIBinding.ITombstone "root:org|widgets" (Some 2%positive)) ""
     Samples.bindingWorld =
     Panic "interface conversion: not *v1alpha1.APIResourceSchema"
       (logged Samples.bindingWorld
          [CByIndex "apiExports" Samples.bySchema "root:org|widgets"])).
Proof.
  split.
  - split; [reflexivity|].
    apply (proj1 (schema_tombstone_panics_when_exported Samples.byExport
                    Samples.bySchema Samples.keyOf Samples.bindingReconciler
                    "root:org|gadgets" None "" Samples.bindingWorld)).
    reflexivity.
  - split; [reflexivity|].
    apply (proj2 (schema_tombstone_panics_when_exported Samples.byExport
                    Samples.bySchema Samples.keyOf Samples.bindingReconciler
                    "root:org|widgets" (Some 2%positive) "" Samples.bindingWorld)
             3%positive []); reflexivity.
Defined.

Lemma event_handlers_only_add_witness :
  ∃ w',
    APIBinding.crdEvent Samples.schemaClusterKey Samples.schemaNameKey
      Samples.byExport Samples.bySchema Samples.toKey Samples.keyOf
      Samples.bindingReconciler (APIBinding.EvDelete (APIBinding.IPtr 1%positive))
      Samples.bindingWorld = Ok tt w' ∧
    extendsWith (fun call => handlerCall call = true) Samples.bindingWorld w'.
Proof.
  eexists. split; [vm_compute; reflexivity|].
  apply (proj1 (event_handlers_only_add Samples.schemaClusterKey Samples.schemaNameKey
                  Samples.byExport Samples.bySchema Samples.toKey Samples.keyOf
                  Samples.bindingReconciler)
           (APIBinding.EvDelete (APIBinding.IPtr 1%positive)) Samples.bindingWorld).
  vm_compute; reflexivity.
Defined.

Lemma deleted_crd_is_tracked_first_witness :
  APIBinding.deref (heap Samples.bindingWorld) (APIBinding.IPtr 8%positive)
    = Some (APIBinding.CustomResourceDefinition
              (Samples.meta APIBinding.ShadowWorkspaceName "unowned" ∅)) ∧
  ∃ w',
    APIBinding.crdDeleteFunc Samples.schemaClusterKey Samples.schemaNameKey
      Samples.byExport Samples.bySchema Samples.toKey Samples.keyOf
      Samples.bindingReconciler (APIBinding.IPtr 8%positive) Samples.bindingWorld
      = Ok tt w' ∧
    extendsWith (fun call => isTrackerAdd call = false)
      (logged Samples.bindingWorld [CTrackerAdd "unowned"]) w'.
Proof.
  split; [reflexivity|].
  eexists. split; [vm_compute; reflexivity|].
  apply (proj2 (deleted_crd_is_tracked_first Samples.schemaClusterKey
                  Samples.schemaNameKey Samples.byExport Samples.bySchema Samples.toKey
                  Samples.keyOf Samples.bindingReconciler (APIBinding.IPtr 8%positive))
           (APIBinding.CustomResourceDefinition
              (Samples.meta APIBinding.ShadowWorkspaceName "unowned" ∅))
           Samples.bindingWorld); [reflexivity|vm_compute; reflexivity].
Defined.

Lemma unresolved_schema_enqueues_nothing_witness :
  APIBinding.deref (heap MoreSamples.orphanWorld) (APIBinding.IPtr 9%positive)
    = Some (APIBinding.CustomResourceDefinition
              (Samples.meta APIBinding.ShadowWorkspaceName "gadgets.example.io"
                 {[ Samples.schemaClusterKey := "root:org";
                    Samples.schemaNameKey := "gadgets" ]})) ∧
  resolveSchema Samples.toKey Samples.bindingReconciler "root:org" "gadgets"
    = inl (ErrNotFound "root:org|gadgets") ∧
  ∃ cs,
    APIBinding.enqueueCRD Samples.schemaClusterKey Samples.schemaNameKey
      Samples.byExport Samples.bySchema Samples.toKey Samples.keyOf
      Samples.bindingReconciler (APIBinding.IPtr 9%positive) MoreSamples.orphanWorld
      = Ok tt (logged MoreSamples.orphanWorld
                 (cs ++ [CHandleError (ErrNotFound "root:org|gadgets")])) ∧
    Forall (fun call => ∃ lister clusterName name,
                          call = CListerGet lister clusterName name) cs.
Proof.
  split; [reflexivity|]. split; [reflexivity|].
  apply (unresolved_schema_enqueues_nothing Samples.schemaClusterKey
           Samples.schemaNameKey Samples.byExport Samples.bySchema Samples.toKey
           Samples.keyOf Samples.bindingReconciler (APIBinding.IPtr 9%positive)
           (Samples.meta APIBinding.ShadowWorkspaceName "gadgets.example.io"
              {[ Samples.schemaClusterKey := "root:org";
                 Samples.schemaNameKey := "gadgets" ]})
           (ErrNotFound "root:org|gadgets") MoreSamples.orphanWorld);
    [reflexivity|by vm_compute|by vm_compute|reflexivity].
Defined.

Lemma listAPIBindings_filters_by_cluster_witness :
  Forall (fun b => is_Some (heap Samples.bindingWorld !! b)) [5%positive; 6%positive] ∧
  APIBindingClosures.listAPIBindings (inr [5%positive; 6%positive]) "root:ws2"
    Samples.bindingWorld =
    Ok (inr (List.filter (inCluster (heap Samples.bindingWorld) "root:ws2")
               [5%positive; 6%positive])) Samples.bindingWorld ∧
  List.filter (inCluster (heap Samples.bindingWorld) "root:ws2")
    [5%positive; 6%positive] = [6%positive].
Proof.
  assert (Hall : Forall (fun b => is_Some (heap Samples.bindingWorld !! b))
                   [5%positive; 6%positive]).
  { repeat constructor; by eexists. }
  split; [exact Hall|]. split; [|reflexivity].
  apply (proj2 listAPIBindings_filters_by_cluster [5%positive; 6%positive] "root:ws2"
           Samples.bindingWorld Hall).
Defined.

Lemma crd_event_redelivery_is_idempotent_witness :
  APIBinding.deref (heap Samples.bindingWorld)
    (eventObject (APIBinding.EvAdd (APIBinding.IPtr 1%positive)))
    = Some (APIBinding.CustomResourceDefinition
              (Samples.meta APIBinding.ShadowWorkspaceName "widgets.example.io"
                 {[ Samples.schemaClusterKey := "root:org";
                    Samples.schemaNameKey := "widgets" ]})) ∧
  resolveSchema Samples.toKey Samples.bindingReconciler "root:org" "widgets"
    = inr 2%positive ∧
  dependentsOfSchema Samples.byExport Samples.bySchema Samples.keyOf
    Samples.bindingReconciler (heap Samples.bindingWorld) 2%positive
    = Some ["root:ws1|b1"] ∧
  ∃ w1 w2,
    APIBinding.crdEvent Samples.schemaClusterKey Samples.schemaNameKey
      Samples.byExport Samples.bySchema Samples.toKey Samples.keyOf
      Samples.bindingReconciler (APIBinding.EvAdd (APIBinding.IPtr 1%positive))
      Samples.bindingWorld = Ok tt w1 ∧
    APIBinding.crdEvent Samples.schemaClusterKey Samples.schemaNameKey
      Samples.byExport Samples.bySchema Samples.toKey Samples.keyOf
      Samples.bindingReconciler (APIBinding.EvAdd (APIBinding.IPtr 1%positive))
      w1 = Ok tt w2 ∧
    wq w1 = applyAll (map WorkQueue.QAdd ["root:ws1|b1"]) (wq Samples.bindingWorld) ∧
    wq w2 = wq w1.
Proof.
  split; [reflexivity|]. split; [reflexivity|]. split; [reflexivity|].
  apply (crd_event_redelivery_is_idempotent Samples.schemaClusterKey
           Samples.schemaNameKey Samples.byExport Samples.bySchema Samples.toKey
           Samples.keyOf Samples.bindingReconciler
           (APIBinding.EvAdd (APIBinding.IPtr 1%positive))
           (Samples.meta APIBinding.ShadowWorkspaceName "widgets.example.io"
              {[ Samples.schemaClusterKey := "root:org";
                 Samples.schemaNameKey := "widgets" ]})
           2%positive ["root:ws1|b1"] Samples.bindingWorld);
    [reflexivity|reflexivity|by vm_compute|by vm_compute|reflexivity|reflexivity].
Defined.
